(** * Verification of the media-processing pipeline orchestration

    A shallow embedding of the JavaScript sources (core/MediaProcessor.js,
    core/EventEmitter.js, core/utils.js, audio/*.js, video/*.js) and the
    properties stated about them.

    Conventions of the embedding:
    - JavaScript numbers are exact rationals ([Q]) where the code is
      evaluated on concrete inputs (configuration values, pixel arithmetic).
      The gain control, which uses [Math.exp], [Math.pow], [Math.log10] and
      [Math.sqrt], is given twice: over the real numbers ([R]) for what
      does not depend on rounding, and over IEEE 754 binary64 for the gains
      that the code computes.
    - [undefined] is the absence of a value ([None]).
    - A thrown [Error] is a [Throw] carrying the message of the source.
    - [async] functions are run to completion: an [await] is a sequence
      point, and a rejected promise is a [Throw]. *)

From Stdlib Require Import String Ascii List ZArith QArith Qround Reals Lra Lia.
From Stdlib Require Import DecimalString Permutation.
From stdpp Require Import base option gmap strings.
Import ListNotations.

Local Open Scope string_scope.
Local Open Scope list_scope.

(** ** Completions: a call either returns or throws *)

Inductive result (A : Type) : Type :=
| Return (a : A)
| Throw (message : string).
Arguments Return {A} a.
Arguments Throw {A} message.

#[global] Instance result_ret : MRet result := @Return.

#[global] Instance result_bind : MBind result := fun A B k r =>
  match r with
  | Return a => k a
  | Throw m => Throw m
  end.

(** ** JavaScript values of the configuration model *)

Module JS.

#[warnings="-register-all"]
Inductive value : Type :=
| VNull
| VBool (b : bool)
| VNum (q : Q)
| VStr (s : string)
| VArr (xs : list value)
| VObj (fields : list (string * value)).

(** ToBoolean. *)
Definition truthy (v : value) : bool :=
  match v with
  | VNull => false
  | VBool b => b
  | VNum q => negb (Qeq_bool q 0)
  | VStr s => negb (String.eqb s "")
  | VArr _ | VObj _ => true
  end.

(** [typeof v === 'object' && !Array.isArray(v)] for a truthy [v]. *)
Definition is_plain_object (v : value) : bool :=
  match v with
  | VObj _ => true
  | _ => false
  end.

(** The property key of array position [i]. *)
Definition index_key (i : nat) : string :=
  NilZero.string_of_uint (Nat.to_uint i).

(** A key is an array index when it is the canonical decimal spelling of an
    integer below 2^32 - 1; such keys are enumerated first, in ascending
    order, before the other keys in creation order. *)
Definition array_index (k : string) : option N :=
  match NilZero.uint_of_string k with
  | Some u =>
      let n := N.of_uint u in
      if (String.eqb (NilZero.string_of_uint (N.to_uint n)) k
          && (n <? 4294967295)%N)%bool
      then Some n else None
  | None => None
  end.

Fixpoint obj_get (fs : list (string * value)) (k : string) : option value :=
  match fs with
  | [] => None
  | (k', v) :: rest => if String.eqb k' k then Some v else obj_get rest k
  end.

Fixpoint replace_prop (k : string) (v : value) (fs : list (string * value))
  : list (string * value) :=
  match fs with
  | [] => []
  | (k', v') :: rest =>
      if String.eqb k' k then (k', v) :: rest
      else (k', v') :: replace_prop k v rest
  end.

Fixpoint insert_index (n : N) (k : string) (v : value)
  (fs : list (string * value)) : list (string * value) :=
  match fs with
  | [] => [(k, v)]
  | (k', v') :: rest =>
      match array_index k' with
      | Some n' =>
          if (n' <? n)%N then (k', v') :: insert_index n k v rest
          else (k, v) :: fs
      | None => (k, v) :: fs
      end
  end.

(** [obj[k] = v] on an ordinary object: an existing property keeps its
    place, a new one is created. *)
Definition obj_set (k : string) (v : value) (fs : list (string * value))
  : list (string * value) :=
  match obj_get fs k with
  | Some _ => replace_prop k v fs
  | None =>
      match array_index k with
      | Some n => insert_index n k v fs
      | None => fs ++ [(k, v)]
      end
  end.

Fixpoint indexed {A} (i : nat) (xs : list A) : list (string * A) :=
  match xs with
  | [] => []
  | x :: rest => (index_key i, x) :: indexed (S i) rest
  end.

Definition chars (s : string) : list value :=
  map (fun c => VStr (String c EmptyString)) (list_ascii_of_string s).

(** Own enumerable string-keyed properties, in enumeration order: what
    [{...v}] copies and what [for (const key in v)] visits. *)
Definition own_props (v : value) : list (string * value) :=
  match v with
  | VObj fs => fs
  | VArr xs => indexed 0 xs
  | VStr s => indexed 0 (chars s)
  | VNull | VBool _ | VNum _ => []
  end.

(** [v[k]] for a [v] that is neither [null] nor [undefined]. *)
Definition get (v : value) (k : string) : option value :=
  obj_get (own_props v) k.

(** [o.k] where [o] may be [undefined] or [null]: a TypeError then. *)
Definition member (o : option value) (k : string) : result (option value) :=
  match o with
  | None | Some VNull => Throw "TypeError: cannot read properties of undefined or null"
  | Some v => Return (get v k)
  end.

(** [o?.k]. *)
Definition opt_member (o : option value) (k : string) : option value :=
  match o with
  | None | Some VNull => None
  | Some v => get v k
  end.

Definition truthy_opt (o : option value) : bool :=
  match o with
  | Some v => truthy v
  | None => false
  end.

Fixpoint get_path (v : value) (path : list string) : option value :=
  match path with
  | [] => Some v
  | k :: rest =>
      match get v k with
      | Some v' => get_path v' rest
      | None => None
      end
  end.

(** Equality of the serialisations [JSON.stringify a === JSON.stringify b]:
    on this value domain the serialisation determines the value, keys in
    enumeration order included. *)
Fixpoint value_eqb (a b : value) {struct a} : bool :=
  match a, b with
  | VNull, VNull => true
  | VBool x, VBool y => Bool.eqb x y
  | VNum x, VNum y => Qeq_bool x y
  | VStr x, VStr y => String.eqb x y
  | VArr xs, VArr ys =>
      (fix all2 (xs ys : list value) : bool :=
         match xs, ys with
         | [], [] => true
         | x :: xs', y :: ys' => value_eqb x y && all2 xs' ys'
         | _, _ => false
         end) xs ys
  | VObj fs, VObj gs =>
      (fix all2 (fs gs : list (string * value)) : bool :=
         match fs, gs with
         | [], [] => true
         | (k, x) :: fs', (k', y) :: gs' =>
             String.eqb k k' && value_eqb x y && all2 fs' gs'
         | _, _ => false
         end) fs gs
  | _, _ => false
  end.

(** Representation invariant of objects: no key occurs twice. *)
Fixpoint wf (v : value) : bool :=
  match v with
  | VArr xs => (fix all (xs : list value) : bool :=
                  match xs with
                  | [] => true
                  | x :: rest => wf x && all rest
                  end) xs
  | VObj fs => bool_decide (NoDup (map fst fs)) &&
               (fix all (fs : list (string * value)) : bool :=
                  match fs with
                  | [] => true
                  | (_, x) :: rest => wf x && all rest
                  end) fs
  | _ => true
  end.

End JS.

(** ** Configuration model (core/MediaProcessor.js) *)

Module Config.
Import JS.

(** [result[key] || {}]. *)
Definition or_empty (o : option value) : value :=
  match o with
  | Some v => if truthy v then v else VObj []
  | None => VObj []
  end.

(** [MediaProcessor.deepMerge(target, source)]: [result = { ...target }],
    then one assignment per enumerable key of [source]. *)
Fixpoint deepMerge (target source : value) {struct source} : value :=
  match source with
  | VObj fs =>
      VObj ((fix assign (props : list (string * value))
                 (result : list (string * value)) {struct props}
               : list (string * value) :=
               match props with
               | [] => result
               | (key, v) :: rest =>
                   assign rest
                     (obj_set key
                        match v with
                        | VObj _ => deepMerge (or_empty (obj_get result key)) v
                        | _ => v
                        end result)
               end) fs (own_props target))
  | VArr xs =>
      VObj ((fix assign (i : nat) (elems : list value)
                 (result : list (string * value)) {struct elems}
               : list (string * value) :=
               match elems with
               | [] => result
               | v :: rest =>
                   assign (S i) rest
                     (obj_set (index_key i)
                        match v with
                        | VObj _ =>
                            deepMerge (or_empty (obj_get result (index_key i))) v
                        | _ => v
                        end result)
               end) 0%nat xs (own_props target))
  | VStr s =>
      VObj (fold_left (fun result kv => obj_set (fst kv) (snd kv) result)
              (indexed 0 (chars s)) (own_props target))
  | VNull | VBool _ | VNum _ => VObj (own_props target)
  end.

Definition num (q : Q) : value := VNum q.

Definition defaultConfig : value :=
  VObj [
    ("audio", VObj [
      ("noiseSuppression", VObj [
        ("enabled", VBool false);
        ("intensity", VStr "medium");
        ("model", VStr "rnnoise")]);
      ("agc", VObj [
        ("enabled", VBool false);
        ("targetLevel", num (-20));
        ("compressionRatio", num 3);
        ("attackTime", num 0.1);
        ("releaseTime", num 0.5)]);
      ("voiceFocus", VObj [
        ("enabled", VBool false);
        ("sensitivity", num 0.8);
        ("frequencyRange", VArr [num 85; num 255])])]);
    ("video", VObj [
      ("colorCorrection", VObj [
        ("enabled", VBool false);
        ("brightness", num 1);
        ("contrast", num 1);
        ("saturation", num 1);
        ("gamma", num 1)]);
      ("lowLightCompensation", VObj [
        ("enabled", VBool false);
        ("threshold", num 0.3);
        ("boost", num 1.5);
        ("preserveColors", VBool true)]);
      ("backgroundBlur", VObj [
        ("enabled", VBool false);
        ("intensity", num 15);
        ("model", VStr "bodypix")]);
      ("backgroundReplace", VObj [
        ("enabled", VBool false);
        ("image", VNull);
        ("model", VStr "bodypix")])]);
    ("performance", VObj [
      ("targetFPS", num 30);
      ("quality", VStr "balanced");
      ("useWebGL", VBool true);
      ("useWebWorkers", VBool false)])
  ].

(** [MediaProcessor.mergeConfig(userConfig)]. *)
Definition mergeConfig (userConfig : value) : value :=
  deepMerge defaultConfig userConfig.

(** [a.b.enabled] as a condition of [||]: the property chain may throw a
    TypeError, and the outcome is read for its truthiness. *)
Definition enabled_flag (domain : option value) (feature : string) : result bool :=
  m ← member domain feature;
  e ← member m "enabled";
  mret (truthy_opt e).

(** Short-circuit [||] over feature flags, left to right. *)
Fixpoint any_enabled (domain : option value) (features : list string) : result bool :=
  match features with
  | [] => mret false
  | f :: rest =>
      b ← enabled_flag domain f;
      if (b : bool) then mret true else any_enabled domain rest
  end.

(** [MediaProcessor.hasAudioFeatures()]. *)
Definition hasAudioFeatures (config : value) : result bool :=
  any_enabled (get config "audio") ["noiseSuppression"; "agc"; "voiceFocus"].

(** [MediaProcessor.hasVideoFeatures()]. *)
Definition hasVideoFeatures (config : value) : result bool :=
  any_enabled (get config "video")
    ["colorCorrection"; "lowLightCompensation"; "backgroundBlur"; "backgroundReplace"].

(** [MediaProcessor.configChanged(oldConfig, newConfig)]. *)
Definition configChanged (oldConfig newConfig : value) : bool :=
  negb (value_eqb oldConfig newConfig).

(** [this.config.feature?.enabled] as a condition. *)
Definition feature_enabled (config : value) (feature : string) : bool :=
  truthy_opt (opt_member (get config feature) "enabled").

End Config.


(** ** Stateful calls: a state transformer that returns or throws *)

Definition prog (S A : Type) : Type := S -> result A * S.

#[global] Instance prog_ret {S} : MRet (prog S) := fun A a s => (Return a, s).

#[global] Instance prog_bind {S} : MBind (prog S) := fun A B k m s =>
  match m s with
  | (Return a, s') => k a s'
  | (Throw e, s') => (Throw e, s')
  end.

Definition throw {S A} (message : string) : prog S A :=
  fun s => (Throw message, s).

Definition lift {S A} (r : result A) : prog S A := fun s => (r, s).

Definition modify {S} (f : S -> S) : prog S unit := fun s => (Return tt, f s).

Definition read {S A} (f : S -> A) : prog S A := fun s => (Return (f s), s).

(** [try { body } catch (error) { handler }]. *)
Definition try_catch {S A} (body : prog S A) (handler : string -> prog S A)
  : prog S A :=
  fun s =>
    match body s with
    | (Return a, s') => (Return a, s')
    | (Throw e, s') => handler e s'
    end.

(** ** Event channel (core/EventEmitter.js)

    [this.events] maps an event name to a reference to a listener array; the
    arrays live in a store, because [emit] iterates over the very array that
    [off] splices and [on] pushes to.  A listener is a user callback, which
    records its invocation and may throw, or the self-removing wrapper that
    [once] builds. *)

Module EventEmitter.
Section Emitter.
Context {A : Type}.

Inductive listener : Type :=
| Callback (id : nat) (throws : bool)
| OnceWrapper (wid : nat) (event : string) (inner : listener).

(** Function identity, as [indexOf] compares listeners. *)
Definition same (a b : listener) : bool :=
  match a, b with
  | Callback i _, Callback j _ => Nat.eqb i j
  | OnceWrapper i _ _, OnceWrapper j _ _ => Nat.eqb i j
  | _, _ => false
  end.

Record t : Type := mk {
  events : gmap string nat;
  arrays : gmap nat (list listener);
  next_ref : nat;
  calls : list (nat * A);
  emitted : list (string * A);
  console : list string
}.

Definition create : t :=
  {| events := ∅; arrays := ∅; next_ref := 0; calls := []; emitted := [];
     console := [] |}.

Definition array_at (e : t) (ref : nat) : list listener :=
  default [] (arrays e !! ref).

Definition listeners (e : t) (event : string) : list listener :=
  match events e !! event with
  | Some ref => array_at e ref
  | None => []
  end.

Definition set_array (ref : nat) (ls : list listener) (e : t) : t :=
  {| events := events e; arrays := <[ref := ls]> (arrays e);
     next_ref := next_ref e; calls := calls e; emitted := emitted e;
     console := console e |}.

Definition delete_event (event : string) (e : t) : t :=
  {| events := delete event (events e); arrays := arrays e;
     next_ref := next_ref e; calls := calls e; emitted := emitted e;
     console := console e |}.

(** [on(event, listener)]. *)
Definition on (event : string) (l : listener) (e : t) : t :=
  match events e !! event with
  | Some ref => set_array ref (array_at e ref ++ [l]) e
  | None =>
      {| events := <[event := next_ref e]> (events e);
         arrays := <[next_ref e := [l]]> (arrays e);
         next_ref := S (next_ref e); calls := calls e; emitted := emitted e;
         console := console e |}
  end.

(** [once(event, listener)]: a fresh wrapper closure is registered. *)
Definition once (event : string) (l : listener) (e : t) : t :=
  on event (OnceWrapper (next_ref e) event l)
    {| events := events e; arrays := arrays e; next_ref := S (next_ref e);
       calls := calls e; emitted := emitted e; console := console e |}.

Fixpoint indexOf (l : listener) (ls : list listener) : option nat :=
  match ls with
  | [] => None
  | x :: rest => if same x l then Some 0%nat else S <$> indexOf l rest
  end.

(** [array.splice(index, 1)]. *)
Fixpoint splice1 (index : nat) (ls : list listener) : list listener :=
  match ls, index with
  | [], _ => []
  | _ :: rest, O => rest
  | x :: rest, S i => x :: splice1 i rest
  end.

(** [off(event, listener)]; [None] is a call without listener. *)
Definition off (event : string) (l : option listener) (e : t) : t :=
  match events e !! event with
  | None => e
  | Some ref =>
      match l with
      | None => delete_event event e
      | Some l =>
          let ls := array_at e ref in
          let ls' := match indexOf l ls with
                     | Some i => splice1 i ls
                     | None => ls
                     end in
          let e' := match indexOf l ls with
                    | Some _ => set_array ref ls' e
                    | None => e
                    end in
          if Nat.eqb (length ls') 0 then delete_event event e' else e'
      end
  end.

(** [listener.apply(this, args)]: the state after the call and whether the
    call threw. *)
Fixpoint invoke (l : listener) (args : A) (e : t) : bool * t :=
  match l with
  | Callback id throws =>
      (throws,
       {| events := events e; arrays := arrays e; next_ref := next_ref e;
          calls := calls e ++ [(id, args)]; emitted := emitted e;
          console := console e |})
  | OnceWrapper _ event inner => invoke inner args (off event (Some l) e)
  end.

Definition log_error (event : string) (e : t) : t :=
  {| events := events e; arrays := arrays e; next_ref := next_ref e;
     calls := calls e; emitted := emitted e;
     console := console e ++ [String.append "Error in event listener for " event] |}.

(** [array.forEach]: positions [k], [k+1], ... of the array at [ref], for
    [remaining] positions (the length when the loop started); a position
    that the array no longer has is skipped. *)
Fixpoint forEach_from (event : string) (args : A) (ref : nat)
  (remaining k : nat) (e : t) : t :=
  match remaining with
  | O => e
  | S n =>
      forEach_from event args ref n (S k)
        match array_at e ref !! k with
        | Some l =>
            let (threw, e') := invoke l args e in
            if threw then log_error event e' else e'
        | None => e
        end
  end.

Definition record_emit (event : string) (args : A) (e : t) : t :=
  {| events := events e; arrays := arrays e; next_ref := next_ref e;
     calls := calls e; emitted := emitted e ++ [(event, args)];
     console := console e |}.

(** [emit(event, ...args)]. *)
Definition emit (event : string) (args : A) : prog t bool :=
  fun e0 =>
    let e := record_emit event args e0 in
    match events e !! event with
    | None => (Return false, e)
    | Some ref =>
        (Return true,
         forEach_from event args ref (length (array_at e ref)) 0 e)
    end.

(** [removeAllListeners(event)]; [None] is a call without event. *)
Definition removeAllListeners (event : option string) (e : t) : t :=
  match event with
  | Some ev => if decide (ev = "") then
                 {| events := ∅; arrays := arrays e; next_ref := next_ref e;
                    calls := calls e; emitted := emitted e;
                    console := console e |}
               else delete_event ev e
  | None =>
      {| events := ∅; arrays := arrays e; next_ref := next_ref e;
         calls := calls e; emitted := emitted e; console := console e |}
  end.

Definition listenerCount (event : string) (e : t) : nat :=
  length (listeners e event).

End Emitter.
Arguments listener : clear implicits.
Arguments t : clear implicits.
End EventEmitter.

(** ** Media objects and the platform *)

Module Media.
Import JS.

(** A [MediaStream]: its identity and its tracks. *)
Record MediaStream : Type := {
  stream_id : nat;
  audioTracks : list nat;
  videoTracks : list nat
}.

(** What a caller may pass for a stream: [NotAStream] stands for [null],
    [undefined] and every value that is not an instance of [MediaStream]. *)
Inductive stream_arg : Type :=
| NotAStream
| AStream (s : MediaStream).

(** [ImageData]: RGBA bytes, four per pixel. *)
Record ImageData : Type := {
  width : nat;
  height : nat;
  data : list Z
}.

Record VideoFrame : Type := {
  image : ImageData;
  timestamp : nat;
  duration : nat
}.

(** The capabilities of the platform, and the two pixel operations that the
    sources delegate to it: the colour-correction shader program and the
    canvas blur filter. *)
Record Platform : Type := {
  webAudio : bool;
  webgl : bool;
  canvas2d : bool;
  shaderCompiles : bool;
  trackProcessor : bool;
  shade : list (string * value) -> ImageData -> ImageData;
  blur : option value -> ImageData -> ImageData
}.

(** [{ ...defaults, ...config }] on property lists. *)
Definition spread_onto (defaults : list (string * value)) (config : option value)
  : list (string * value) :=
  fold_left (fun acc kv => obj_set (fst kv) (snd kv) acc)
    (match config with Some c => own_props c | None => [] end) defaults.

(** Numbers of the pixel arithmetic: [None] is NaN.  ToNumber of strings,
    arrays and objects is not modelled and reads as NaN. *)
Definition to_number (o : option value) : option Q :=
  match o with
  | Some (VNum q) => Some q
  | Some (VBool b) => Some (if b then 1 else 0)%Q
  | Some VNull => Some 0%Q
  | _ => None
  end.

Definition Qlt_bool (x y : Q) : bool := negb (Qle_bool y x).

(** [clamp(value, min, max) = Math.min(Math.max(value, min), max)]
    (core/utils.js). *)
Definition clamp (value : option Q) (lo hi : Q) : option Q :=
  match value with
  | Some v =>
      let m := if Qle_bool lo v then v else lo in
      Some (if Qle_bool m hi then m else hi)
  | None => None
  end.

(** Storing a number into a [Uint8ClampedArray]: NaN is 0, the value is
    clamped to [0, 255] and rounded to the nearest integer, ties to even. *)
Definition toUint8Clamped (x : option Q) : Z :=
  match x with
  | None => 0%Z
  | Some q =>
      if Qle_bool q 0 then 0%Z
      else if Qle_bool 255 q then 255%Z
      else
        let f := Qfloor q in
        match Qcompare (q - inject_Z f) (1 # 2) with
        | Lt => f
        | Gt => (f + 1)%Z
        | Eq => if Z.even f then f else (f + 1)%Z
        end
  end.

End Media.

(** ** Video modules *)

Module LowLightCompensation.
Import JS Media.

Record t : Type := {
  config : list (string * value);
  isInitialized : bool;
  emitted : list string
}.

(** [new LowLightCompensation(gl, config)]. *)
Definition create (cfg : option value) : t :=
  {| config := spread_onto [("threshold", VNum 0.3); ("boost", VNum 1.5);
                            ("preserveColors", VBool true)] cfg;
     isInitialized := false;
     emitted := [] |}.

Definition initialize (m : t) : t :=
  {| config := config m; isInitialized := true;
     emitted := emitted m ++ ["initialized"] |}.

(** The body of the pixel loop of [processCanvas] for one pixel. *)
Definition boost_pixel (cfg : list (string * value)) (r g b : Z) : Z * Z * Z :=
  let threshold := option_map (fun t => t * 255)%Q (to_number (obj_get cfg "threshold")) in
  let boost := to_number (obj_get cfg "boost") in
  let luminance := (0.299 * inject_Z r + 0.587 * inject_Z g + 0.114 * inject_Z b)%Q in
  match threshold with
  | Some th =>
      if Qlt_bool luminance th then
        let boostFactor :=
          option_map (fun bo => 1 + (bo - 1) * (1 - luminance / th))%Q boost in
        if truthy_opt (obj_get cfg "preserveColors") then
          (toUint8Clamped (clamp (option_map (fun f => inject_Z r * f)%Q boostFactor) 0 255),
           toUint8Clamped (clamp (option_map (fun f => inject_Z g * f)%Q boostFactor) 0 255),
           toUint8Clamped (clamp (option_map (fun f => inject_Z b * f)%Q boostFactor) 0 255))
        else
          let enhanced :=
            toUint8Clamped (clamp (option_map (fun f => luminance * f)%Q boostFactor) 0 255) in
          (enhanced, enhanced, enhanced)
      else (r, g, b)
  | None => (r, g, b)
  end.

(** [for (let i = 0; i < data.length; i += 4)] over the byte array. *)
Fixpoint boost_data (cfg : list (string * value)) (bytes : list Z) : list Z :=
  match bytes with
  | r :: g :: b :: a :: rest =>
      let '(r', g', b') := boost_pixel cfg r g b in
      r' :: g' :: b' :: a :: boost_data cfg rest
  | _ => bytes
  end.

(** [processCanvas(imageData)]: the bytes of [imageData] are overwritten in
    place and the same object is returned. *)
Definition processCanvas (m : t) (imageData : ImageData) : ImageData :=
  {| width := width imageData; height := height imageData;
     data := boost_data (config m) (data imageData) |}.

(** [process(imageData)]. *)
Definition process (m : t) (imageData : ImageData) : result ImageData :=
  Return (processCanvas m imageData).

Definition updateConfig (newConfig : option value) (m : t) : t :=
  {| config := spread_onto (config m) newConfig;
     isInitialized := isInitialized m;
     emitted := emitted m ++ ["config:updated"] |}.

Definition getStats (m : t) : list (string * value) := config m.

Definition destroy (m : t) : t :=
  {| config := config m; isInitialized := false;
     emitted := emitted m ++ ["destroyed"] |}.

End LowLightCompensation.

Module ColorCorrection.
Import JS Media.

Record t : Type := {
  config : list (string * value);
  isInitialized : bool;
  emitted : list string
}.

(** [new ColorCorrection(gl, config)]. *)
Definition create (cfg : option value) : t :=
  {| config := spread_onto [("brightness", VNum 1); ("contrast", VNum 1);
                            ("saturation", VNum 1); ("gamma", VNum 1)] cfg;
     isInitialized := false;
     emitted := [] |}.

(** [initialize()]: building the shader program may fail. *)
Definition initialize (p : Platform) : prog t unit :=
  fun m =>
    if shaderCompiles p then
      (Return tt,
       {| config := config m; isInitialized := true;
          emitted := emitted m ++ ["initialized"] |})
    else
      (Throw "Failed to compile shader",
       {| config := config m; isInitialized := isInitialized m;
          emitted := emitted m ++ ["error"] |}).

(** [process(imageData)]: a new [ImageData] read back from the shader. *)
Definition process (p : Platform) (m : t) (imageData : ImageData)
  : result ImageData :=
  if isInitialized m then Return (shade p (config m) imageData)
  else Throw "ColorCorrection not initialized".

Definition getStats (m : t) : list (string * option value) :=
  [("brightness", obj_get (config m) "brightness");
   ("contrast", obj_get (config m) "contrast");
   ("saturation", obj_get (config m) "saturation");
   ("gamma", obj_get (config m) "gamma")].

Definition destroy (m : t) : t :=
  {| config := config m; isInitialized := false;
     emitted := emitted m ++ ["destroyed"] |}.

End ColorCorrection.

Module BackgroundBlur.
Import JS Media.

Record t : Type := {
  config : list (string * value);
  isInitialized : bool;
  emitted : list string
}.

(** [new BackgroundBlur(gl, config)]. *)
Definition create (cfg : option value) : t :=
  {| config := spread_onto [("intensity", VNum 15); ("model", VStr "simple")] cfg;
     isInitialized := false;
     emitted := [] |}.

Definition initialize (m : t) : t :=
  {| config := config m; isInitialized := true;
     emitted := emitted m ++ ["initialized"] |}.

(** [processCanvas(imageData)]: the whole image through the blur filter. *)
Definition processCanvas (p : Platform) (m : t) (imageData : ImageData) : ImageData :=
  blur p (obj_get (config m) "intensity") imageData.

(** [process(imageData)]. *)
Definition process (p : Platform) (m : t) (imageData : ImageData)
  : result ImageData :=
  Return (processCanvas p m imageData).

Definition getStats (m : t) : list (string * value) := config m.

Definition destroy (m : t) : t :=
  {| config := config m; isInitialized := false;
     emitted := emitted m ++ ["destroyed"] |}.

End BackgroundBlur.

(** ** Video pipeline (video/VideoProcessor.js) *)

Module VideoProcessor.
Import JS Media.

Inductive module_kind : Type :=
| LowLight
| Color
| Blur.

Record t : Type := mk {
  config : option value;
  canvas : option (nat * nat);
  gl : bool;
  ctx : bool;
  colorCorrection : option ColorCorrection.t;
  backgroundBlur : option BackgroundBlur.t;
  lowLightCompensation : option LowLightCompensation.t;
  isInitialized : bool;
  isProcessing : bool;
  frameCount : nat;
  processedFrames : nat;
  emitted : list string
}.

(** [new VideoProcessor(config)]. *)
Definition create (cfg : option value) : t :=
  mk cfg None false false None None None false false 0 0 [].

Definition set_config (c : option value) (v : t) : t :=
  mk c (canvas v) (gl v) (ctx v) (colorCorrection v) (backgroundBlur v)
    (lowLightCompensation v) (isInitialized v) (isProcessing v) (frameCount v)
    (processedFrames v) (emitted v).

Definition set_surfaces (cv : option (nat * nat)) (g c : bool) (v : t) : t :=
  mk (config v) cv g c (colorCorrection v) (backgroundBlur v)
    (lowLightCompensation v) (isInitialized v) (isProcessing v) (frameCount v)
    (processedFrames v) (emitted v).

Definition set_colorCorrection (m : option ColorCorrection.t) (v : t) : t :=
  mk (config v) (canvas v) (gl v) (ctx v) m (backgroundBlur v)
    (lowLightCompensation v) (isInitialized v) (isProcessing v) (frameCount v)
    (processedFrames v) (emitted v).

Definition set_backgroundBlur (m : option BackgroundBlur.t) (v : t) : t :=
  mk (config v) (canvas v) (gl v) (ctx v) (colorCorrection v) m
    (lowLightCompensation v) (isInitialized v) (isProcessing v) (frameCount v)
    (processedFrames v) (emitted v).

Definition set_lowLightCompensation (m : option LowLightCompensation.t) (v : t) : t :=
  mk (config v) (canvas v) (gl v) (ctx v) (colorCorrection v) (backgroundBlur v)
    m (isInitialized v) (isProcessing v) (frameCount v) (processedFrames v)
    (emitted v).

Definition set_isInitialized (b : bool) (v : t) : t :=
  mk (config v) (canvas v) (gl v) (ctx v) (colorCorrection v) (backgroundBlur v)
    (lowLightCompensation v) b (isProcessing v) (frameCount v)
    (processedFrames v) (emitted v).

Definition set_isProcessing (b : bool) (v : t) : t :=
  mk (config v) (canvas v) (gl v) (ctx v) (colorCorrection v) (backgroundBlur v)
    (lowLightCompensation v) (isInitialized v) b (frameCount v)
    (processedFrames v) (emitted v).

Definition count_frame (v : t) : t :=
  mk (config v) (canvas v) (gl v) (ctx v) (colorCorrection v) (backgroundBlur v)
    (lowLightCompensation v) (isInitialized v) (isProcessing v)
    (S (frameCount v)) (S (frameCount v)) (emitted v ++ ["stats:updated"]).

Definition emit (event : string) (v : t) : t :=
  mk (config v) (canvas v) (gl v) (ctx v) (colorCorrection v) (backgroundBlur v)
    (lowLightCompensation v) (isInitialized v) (isProcessing v) (frameCount v)
    (processedFrames v) (emitted v ++ [event]).

(** [new ColorCorrection(this.gl, this.config.colorCorrection)] followed by
    [await this.colorCorrection.initialize()]. *)
Definition install_colorCorrection (p : Platform) : prog t unit :=
  fun v =>
    match member (config v) "colorCorrection" with
    | Throw e => (Throw e, v)
    | Return c =>
        let (r, m) := ColorCorrection.initialize p (ColorCorrection.create c) in
        (r, set_colorCorrection (Some m) v)
    end.

Definition install_lowLightCompensation : prog t unit :=
  fun v =>
    match member (config v) "lowLightCompensation" with
    | Throw e => (Throw e, v)
    | Return c =>
        (Return tt,
         set_lowLightCompensation
           (Some (LowLightCompensation.initialize (LowLightCompensation.create c))) v)
    end.

Definition install_backgroundBlur : prog t unit :=
  fun v =>
    match member (config v) "backgroundBlur" with
    | Throw e => (Throw e, v)
    | Return c =>
        (Return tt,
         set_backgroundBlur
           (Some (BackgroundBlur.initialize (BackgroundBlur.create c))) v)
    end.

(** [this.config.feature?.enabled] as a condition. *)
Definition enabled (feature : string) : prog t bool :=
  fun v =>
    match member (config v) feature with
    | Throw e => (Throw e, v)
    | Return c => (Return (truthy_opt (opt_member c "enabled")), v)
    end.

(** [createProcessingModules()]. *)
Definition createProcessingModules (p : Platform) : prog t unit :=
  c ← enabled "colorCorrection";
  _ ← (if (c : bool) then install_colorCorrection p else mret tt);
  l ← enabled "lowLightCompensation";
  _ ← (if (l : bool) then install_lowLightCompensation else mret tt);
  b ← enabled "backgroundBlur";
  if (b : bool) then install_backgroundBlur else mret tt.

(** [initialize()]. *)
Definition initialize (p : Platform) : prog t unit :=
  try_catch
    (if webgl p then
       _ ← modify (set_surfaces None true false);
       if canvas2d p then
         _ ← modify (set_surfaces (Some (160, 120)%nat) true true);
         _ ← createProcessingModules p;
         _ ← modify (set_isInitialized true);
         modify (emit "initialized")
       else throw "Failed to get 2D context for video processing canvas"
     else throw "WebGL not supported")
    (fun e => _ ← modify (emit "error"); throw e).

(** [frameToImageData] and [imageDataToFrame]: a frame is drawn to a canvas
    and read back, and the other way round. *)
Definition frameToImageData (frame : VideoFrame) : ImageData := image frame.

Definition imageDataToFrame (imageData : ImageData) (originalFrame : VideoFrame)
  : VideoFrame :=
  {| image := imageData; timestamp := timestamp originalFrame;
     duration := duration originalFrame |}.

(** One conditional module application of [processVideoFrame]: the calls
    made so far and the data so far. *)
Definition apply_module {M} (slot : option M) (kind : module_kind)
  (run : M -> ImageData -> result ImageData)
  (acc : list module_kind * result ImageData) : list module_kind * result ImageData :=
  match acc with
  | (calls, Return processedData) =>
      match slot with
      | Some m => (calls ++ [kind], run m processedData)
      | None => acc
      end
  | (_, Throw _) => acc
  end.

(** [processVideoFrame(frame)], together with the modules whose [process]
    was called, in call order. *)
Definition processVideoFrame (p : Platform) (v : t) (frame : VideoFrame)
  : list module_kind * result VideoFrame :=
  let s0 := ([], Return (frameToImageData frame)) in
  let s1 := apply_module (lowLightCompensation v) LowLight
              LowLightCompensation.process s0 in
  let s2 := apply_module (colorCorrection v) Color (ColorCorrection.process p) s1 in
  let s3 := apply_module (backgroundBlur v) Blur (BackgroundBlur.process p) s2 in
  (fst s3,
   match snd s3 with
   | Return processedData => Return (imageDataToFrame processedData frame)
   | Throw e => Throw e
   end).

(** The frame loop of [processWithTrackProcessor]: read, process, write,
    count; a failure is reported and ends the loop.  Returns the frames
    written to the generator. *)
Fixpoint processFrames (p : Platform) (frames : list VideoFrame) (v : t)
  : list VideoFrame * t :=
  match frames with
  | [] => ([], v)
  | frame :: rest =>
      match snd (processVideoFrame p v frame) with
      | Return processedFrame =>
          let (written, v') := processFrames p rest (count_frame v) in
          (processedFrame :: written, v')
      | Throw _ => ([], emit "error" v)
      end
  end.

(** [process(stream)]; [fresh] is the identity of the objects it creates. *)
Definition process (p : Platform) (stream : stream_arg) (fresh : nat)
  : prog t MediaStream :=
  fun v =>
    if negb (isInitialized v) then (Throw "VideoProcessor not initialized", v)
    else
      match stream with
      | NotAStream => (Throw "Invalid MediaStream provided", v)
      | AStream s =>
          try_catch
            (_ ← modify (set_isProcessing true);
             _ ← modify (emit "processing:start");
             match videoTracks s with
             | [] =>
                 _ ← modify (emit "processing:complete");
                 mret s
             | _ :: _ =>
                 cv ← read canvas;
                 match cv : option (nat * nat) with
                 | None => throw "TypeError: cannot set properties of null"
                 | Some _ =>
                     _ ← modify (set_isProcessing false);
                     _ ← modify (emit "processing:complete");
                     mret {| stream_id := fresh; audioTracks := audioTracks s;
                             videoTracks := [fresh] |}
                 end
             end)
            (fun e =>
               _ ← modify (set_isProcessing false);
               _ ← modify (emit "error");
               throw e) v
      end.

(** [getStats()]: a copy of the counters (clock readings are not modelled). *)
Definition getStats (v : t) : list (string * value) :=
  [("processedFrames", VNum (inject_Z (Z.of_nat (processedFrames v))))].

(** [destroy()]. *)
Definition destroy (v : t) : t :=
  mk (config v) None false false None None None false false (frameCount v)
    (processedFrames v) (emitted v ++ ["destroyed"]).

(** [createModule(feature)]. *)
Definition createModule (p : Platform) (feature : string) : prog t unit :=
  if String.eqb feature "colorCorrection" then install_colorCorrection p
  else if String.eqb feature "lowLightCompensation" then install_lowLightCompensation
  else if String.eqb feature "backgroundBlur" then install_backgroundBlur
  else mret tt.

(** [removeModule(feature)]. *)
Definition removeModule (feature : string) (v : t) : t :=
  if String.eqb feature "colorCorrection" then set_colorCorrection None v
  else if String.eqb feature "lowLightCompensation" then set_lowLightCompensation None v
  else if String.eqb feature "backgroundBlur" then set_backgroundBlur None v
  else v.

(** [this[moduleName]] as a condition. *)
Definition has_module (feature : string) (v : t) : bool :=
  if String.eqb feature "colorCorrection" then bool_decide (is_Some (colorCorrection v))
  else if String.eqb feature "lowLightCompensation" then
    bool_decide (is_Some (lowLightCompensation v))
  else if String.eqb feature "backgroundBlur" then bool_decide (is_Some (backgroundBlur v))
  else false.

Definition known_feature (feature : string) : bool :=
  String.eqb feature "colorCorrection"
  || String.eqb feature "lowLightCompensation"
  || String.eqb feature "backgroundBlur".

(** [this.config[feature].enabled = enabled].  The class body is strict
    code: the assignment throws when [this.config[feature]] is missing,
    [null] or a primitive. *)
Definition assign_enabled (feature : string) (enabled : bool) : prog t unit :=
  fun v =>
    match member (config v) feature with
    | Throw e => (Throw e, v)
    | Return (Some (VObj fs)) =>
        (Return tt,
         set_config
           (option_map
              (fun c => VObj (obj_set feature
                                (VObj (obj_set "enabled" (VBool enabled) fs))
                                (own_props c)))
              (config v)) v)
    | Return (Some (VArr _)) => (Return tt, v)
    | Return _ => (Throw "TypeError: cannot create property 'enabled'", v)
    end.

(** [setFeature(feature, enabled)]. *)
Definition setFeature (p : Platform) (feature : string) (enabled : bool)
  : prog t unit :=
  if negb (known_feature feature) then
    throw (String.append "Unknown feature: " feature)
  else
    present ← read (has_module feature);
    _ ← (if (enabled && negb present)%bool then createModule p feature
         else if (negb enabled && present)%bool then modify (removeModule feature)
         else mret tt);
    assign_enabled feature enabled.

(** [updateConfig(newConfig)]: a shallow merge, then the pipeline is torn
    down and initialised again. *)
Definition updateConfig (p : Platform) (newConfig : option value) : prog t unit :=
  _ ← modify (fun v =>
         set_config
           (Some (VObj (spread_onto
                          (match config v with Some c => own_props c | None => [] end)
                          newConfig))) v);
  wasInitialized ← read isInitialized;
  _ ← (if (wasInitialized : bool) then
         _ ← modify destroy;
         initialize p
       else mret tt);
  modify (emit "config:updated").

End VideoProcessor.

(** ** Audio pipeline (audio/AudioProcessor.js)

    The pipeline sees of an audio module its life cycle and its place in the
    chain; the signal processing of the modules is embedded separately. *)

Module AudioProcessor.
Import JS Media.

Record node : Type := {
  feature : string;
  node_config : option value;
  node_initialized : bool
}.

Record t : Type := mk {
  config : option value;
  audioContext : bool;
  sourceNode : option string;
  destinationNode : option string;
  noiseSuppressor : option node;
  agc : option node;
  voiceFocus : option node;
  isInitialized : bool;
  isProcessing : bool;
  processedFrames : nat;
  emitted : list string
}.

(** [new AudioProcessor(config)]. *)
Definition create (cfg : option value) : t :=
  mk cfg false None None None None None false false 0 [].

Definition emit (event : string) (a : t) : t :=
  mk (config a) (audioContext a) (sourceNode a) (destinationNode a)
    (noiseSuppressor a) (agc a) (voiceFocus a) (isInitialized a)
    (isProcessing a) (processedFrames a) (emitted a ++ [event]).

Definition set_config (c : option value) (a : t) : t :=
  mk c (audioContext a) (sourceNode a) (destinationNode a)
    (noiseSuppressor a) (agc a) (voiceFocus a) (isInitialized a)
    (isProcessing a) (processedFrames a) (emitted a).

Definition set_audioContext (b : bool) (a : t) : t :=
  mk (config a) b (sourceNode a) (destinationNode a)
    (noiseSuppressor a) (agc a) (voiceFocus a) (isInitialized a)
    (isProcessing a) (processedFrames a) (emitted a).

Definition set_endpoints (src dst : option string) (a : t) : t :=
  mk (config a) (audioContext a) src dst
    (noiseSuppressor a) (agc a) (voiceFocus a) (isInitialized a)
    (isProcessing a) (processedFrames a) (emitted a).

Definition set_modules (n g f : option node) (a : t) : t :=
  mk (config a) (audioContext a) (sourceNode a) (destinationNode a)
    n g f (isInitialized a) (isProcessing a) (processedFrames a) (emitted a).

Definition set_isInitialized (b : bool) (a : t) : t :=
  mk (config a) (audioContext a) (sourceNode a) (destinationNode a)
    (noiseSuppressor a) (agc a) (voiceFocus a) b
    (isProcessing a) (processedFrames a) (emitted a).

Definition set_isProcessing (b : bool) (a : t) : t :=
  mk (config a) (audioContext a) (sourceNode a) (destinationNode a)
    (noiseSuppressor a) (agc a) (voiceFocus a) (isInitialized a)
    b (processedFrames a) (emitted a).

Definition count_stats (a : t) : t :=
  mk (config a) (audioContext a) (sourceNode a) (destinationNode a)
    (noiseSuppressor a) (agc a) (voiceFocus a) (isInitialized a)
    (isProcessing a) (S (processedFrames a)) (emitted a ++ ["stats:updated"]).

(** [new Module(this.audioContext, this.config.feature)] followed by
    [await module.initialize()], for a module whose flag is set. *)
Definition make_node (name : string) : prog t (option node) :=
  fun a =>
    match member (config a) name with
    | Throw e => (Throw e, a)
    | Return c =>
        if truthy_opt (opt_member c "enabled") then
          (Return (Some {| feature := name; node_config := c;
                           node_initialized := true |}), a)
        else (Return None, a)
    end.

(** The modules present, in chain order. *)
Definition chain (a : t) : list node :=
  match noiseSuppressor a with Some n => [n] | None => [] end ++
  match agc a with Some n => [n] | None => [] end ++
  match voiceFocus a with Some n => [n] | None => [] end.

(** [connectNodes(nodes)]. *)
Definition connectNodes (nodes : list node) (a : t) : t :=
  match nodes with
  | [] => a
  | first :: _ =>
      set_endpoints (Some (feature first))
        (Some (feature (List.last nodes first))) a
  end.

(** [createProcessingNodes()]. *)
Definition createProcessingNodes : prog t unit :=
  n ← make_node "noiseSuppression";
  _ ← modify (fun a => set_modules (match n with Some x => Some x | None => noiseSuppressor a end)
                         (agc a) (voiceFocus a) a);
  g ← make_node "agc";
  _ ← modify (fun a => set_modules (noiseSuppressor a)
                         (match g with Some x => Some x | None => agc a end)
                         (voiceFocus a) a);
  f ← make_node "voiceFocus";
  _ ← modify (fun a => set_modules (noiseSuppressor a) (agc a)
                         (match f with Some x => Some x | None => voiceFocus a end) a);
  modify (connectNodes
            (match n with Some x => [x] | None => [] end ++
             match g with Some x => [x] | None => [] end ++
             match f with Some x => [x] | None => [] end)).

(** [initialize()]. *)
Definition initialize (p : Platform) : prog t unit :=
  try_catch
    (if webAudio p then
       _ ← modify (set_audioContext true);
       _ ← createProcessingNodes;
       _ ← modify (set_isInitialized true);
       modify (emit "initialized")
     else throw "Web Audio API not supported")
    (fun e => _ ← modify (emit "error"); throw e).

(** [process(stream)]; [fresh] is the identity of the objects it creates. *)
Definition process (stream : stream_arg) (fresh : nat) : prog t MediaStream :=
  fun a =>
    if negb (isInitialized a) then (Throw "AudioProcessor not initialized", a)
    else
      match stream with
      | NotAStream => (Throw "Invalid MediaStream provided", a)
      | AStream s =>
          try_catch
            (_ ← modify (set_isProcessing true);
             _ ← modify (emit "processing:start");
             match audioTracks s with
             | [] => mret s
             | _ :: _ =>
                 src ← read sourceNode;
                 match src : option string with
                 | None => throw "TypeError: cannot connect to null"
                 | Some _ =>
                     _ ← modify count_stats;
                     _ ← modify (set_isProcessing false);
                     _ ← modify (emit "processing:complete");
                     mret {| stream_id := fresh; audioTracks := [fresh];
                             videoTracks := videoTracks s |}
                 end
             end)
            (fun e =>
               _ ← modify (set_isProcessing false);
               _ ← modify (emit "error");
               throw e) a
      end.

(** [getStats()]: a copy of the counters (analyser readings are not
    modelled). *)
Definition getStats (a : t) : list (string * value) :=
  [("processedFrames", VNum (inject_Z (Z.of_nat (processedFrames a))))].

(** [destroy()]. *)
Definition destroy (a : t) : t :=
  mk (config a) false (sourceNode a) (destinationNode a) None None None
    false false (processedFrames a) (emitted a ++ ["destroyed"]).

(** [updateConfig(newConfig)]: a shallow merge, then the pipeline is torn
    down and initialised again. *)
Definition updateConfig (p : Platform) (newConfig : option value) : prog t unit :=
  _ ← modify (fun a =>
         set_config
           (Some (VObj (spread_onto
                          (match config a with Some c => own_props c | None => [] end)
                          newConfig))) a);
  wasInitialized ← read isInitialized;
  _ ← (if (wasInitialized : bool) then
         _ ← modify destroy;
         initialize p
       else mret tt);
  modify (emit "config:updated").

End AudioProcessor.

(** ** Orchestrator (core/MediaProcessor.js) *)

Module MediaProcessor.
Import JS Media Config.

(** What the orchestrator passes to its listeners. *)
Inductive payload : Type :=
| NoArgs
| ErrorArg (message : string)
| StreamArg (stream : MediaStream)
| ConfigArg (config : value).

(** Besides the fields of the class, the state keeps the pipelines whose
    reference the orchestrator has overwritten, as they were at that
    moment, and the counter that names new objects. *)
Record t : Type := mk {
  config : value;
  audioProcessor : option AudioProcessor.t;
  videoProcessor : option VideoProcessor.t;
  isProcessing : bool;
  isDestroyed : bool;
  emitter : EventEmitter.t payload;
  next_id : nat;
  dropped_audio : list AudioProcessor.t;
  dropped_video : list VideoProcessor.t
}.

Definition set_config (c : value) (m : t) : t :=
  mk c (audioProcessor m) (videoProcessor m) (isProcessing m) (isDestroyed m)
    (emitter m) (next_id m) (dropped_audio m) (dropped_video m).

Definition set_audioProcessor (a : option AudioProcessor.t) (m : t) : t :=
  mk (config m) a (videoProcessor m) (isProcessing m) (isDestroyed m)
    (emitter m) (next_id m) (dropped_audio m) (dropped_video m).

Definition set_videoProcessor (v : option VideoProcessor.t) (m : t) : t :=
  mk (config m) (audioProcessor m) v (isProcessing m) (isDestroyed m)
    (emitter m) (next_id m) (dropped_audio m) (dropped_video m).

Definition set_isProcessing (b : bool) (m : t) : t :=
  mk (config m) (audioProcessor m) (videoProcessor m) b (isDestroyed m)
    (emitter m) (next_id m) (dropped_audio m) (dropped_video m).

Definition set_isDestroyed (b : bool) (m : t) : t :=
  mk (config m) (audioProcessor m) (videoProcessor m) (isProcessing m) b
    (emitter m) (next_id m) (dropped_audio m) (dropped_video m).

Definition set_emitter (e : EventEmitter.t payload) (m : t) : t :=
  mk (config m) (audioProcessor m) (videoProcessor m) (isProcessing m)
    (isDestroyed m) e (next_id m) (dropped_audio m) (dropped_video m).

(** A new object identity. *)
Definition fresh : prog t nat :=
  fun m =>
    (Return (next_id m),
     mk (config m) (audioProcessor m) (videoProcessor m) (isProcessing m)
       (isDestroyed m) (emitter m) (S (next_id m)) (dropped_audio m)
       (dropped_video m)).

(** [this.audioProcessor = a]: the pipeline referenced before is no longer
    reachable from the orchestrator. *)
Definition assign_audioProcessor (a : AudioProcessor.t) (m : t) : t :=
  mk (config m) (Some a) (videoProcessor m) (isProcessing m) (isDestroyed m)
    (emitter m) (next_id m)
    (match audioProcessor m with
     | Some old => dropped_audio m ++ [old]
     | None => dropped_audio m
     end) (dropped_video m).

Definition assign_videoProcessor (v : VideoProcessor.t) (m : t) : t :=
  mk (config m) (audioProcessor m) (Some v) (isProcessing m) (isDestroyed m)
    (emitter m) (next_id m) (dropped_audio m)
    (match videoProcessor m with
     | Some old => dropped_video m ++ [old]
     | None => dropped_video m
     end).

(** [this.emit(event, args)]. *)
Definition emit (event : string) (args : payload) : prog t bool :=
  fun m =>
    let (r, e) := EventEmitter.emit event args (emitter m) in
    (r, set_emitter e m).

(** A call on the audio pipeline, when there is one. *)
Definition on_audio {A} (call : prog AudioProcessor.t A) : prog t A :=
  fun m =>
    match audioProcessor m with
    | Some a => let (r, a') := call a in (r, set_audioProcessor (Some a') m)
    | None => (Throw "TypeError: cannot read properties of null", m)
    end.

Definition on_video {A} (call : prog VideoProcessor.t A) : prog t A :=
  fun m =>
    match videoProcessor m with
    | Some v => let (r, v') := call v in (r, set_videoProcessor (Some v') m)
    | None => (Throw "TypeError: cannot read properties of null", m)
    end.

(** [initializeProcessors()]. *)
Definition initializeProcessors (p : Platform) : prog t unit :=
  try_catch
    (c ← read config;
     a ← lift (hasAudioFeatures c);
     _ ← (if (a : bool) then
            _ ← modify (assign_audioProcessor (AudioProcessor.create (get c "audio")));
            on_audio (AudioProcessor.initialize p)
          else mret tt);
     v ← lift (hasVideoFeatures c);
     _ ← (if (v : bool) then
            _ ← modify (assign_videoProcessor (VideoProcessor.create (get c "video")));
            on_video (VideoProcessor.initialize p)
          else mret tt);
     _ ← emit "initialized" NoArgs;
     mret tt)
    (fun e =>
       _ ← emit "error" (ErrorArg (String.append "Failed to initialize processors: " e));
       mret tt).

(** [new MediaProcessor(config)], once [initializeProcessors()] has
    settled. *)
Definition create (p : Platform) (userConfig : value) : t :=
  snd (initializeProcessors p
         (mk (mergeConfig userConfig) None None false false
            EventEmitter.create 0 [] [])).

(** [process(stream)]. *)
Definition process (p : Platform) (stream : stream_arg) : prog t MediaStream :=
  fun m =>
    if isDestroyed m then (Throw "MediaProcessor has been destroyed", m)
    else
      match stream with
      | NotAStream => (Throw "Invalid MediaStream provided", m)
      | AStream s =>
          try_catch
            (_ ← modify (set_isProcessing true);
             _ ← emit "processing:start" NoArgs;
             ap ← read audioProcessor;
             ha ← match ap : option AudioProcessor.t with
                  | Some _ => c ← read config; lift (hasAudioFeatures c)
                  | None => mret false
                  end;
             afterAudio ←
               (if (ha : bool) then
                  match audioTracks s with
                  | _ :: _ =>
                      id ← fresh;
                      on_audio (AudioProcessor.process (AStream s) id)
                  | [] => mret s
                  end
                else mret s);
             vp ← read videoProcessor;
             hv ← match vp : option VideoProcessor.t with
                  | Some _ => c ← read config; lift (hasVideoFeatures c)
                  | None => mret false
                  end;
             processedStream ←
               (if (hv : bool) then
                  match videoTracks s with
                  | _ :: _ =>
                      id ← fresh;
                      on_video (VideoProcessor.process p (AStream afterAudio) id)
                  | [] => mret afterAudio
                  end
                else mret afterAudio);
             _ ← modify (set_isProcessing false);
             _ ← emit "processing:complete" (StreamArg processedStream);
             mret processedStream)
            (fun e =>
               _ ← modify (set_isProcessing false);
               _ ← emit "error" (ErrorArg e);
               throw e) m
      end.

(** [updateConfig(newConfig)]. *)
Definition updateConfig (p : Platform) (newConfig : value) : prog t unit :=
  fun m =>
    if isDestroyed m then (Throw "MediaProcessor has been destroyed", m)
    else
      (oldConfig ← read config;
       _ ← modify (set_config (mergeConfig newConfig));
       c ← read config;
       _ ← (if configChanged oldConfig c then initializeProcessors p else mret tt);
       _ ← emit "config:updated" (ConfigArg c);
       mret tt) m.

(** [getConfig()]: [JSON.parse(JSON.stringify(this.config))], a structural
    copy. *)
Definition getConfig (m : t) : value := config m.

(** [getStats()]. *)
Definition getStats (m : t) : value :=
  VObj [("isProcessing", VBool (isProcessing m));
        ("audio", match audioProcessor m with
                  | Some a => VObj (AudioProcessor.getStats a)
                  | None => VNull
                  end);
        ("video", match videoProcessor m with
                  | Some v => VObj (VideoProcessor.getStats v)
                  | None => VNull
                  end)].

(** [destroy()]. *)
Definition destroy : prog t unit :=
  fun m =>
    if isDestroyed m then (Return tt, m)
    else
      (_ ← modify (set_isDestroyed true);
       _ ← modify (set_isProcessing false);
       _ ← modify (fun m =>
              match audioProcessor m with
              | Some a =>
                  mk (config m) None (videoProcessor m) (isProcessing m)
                    (isDestroyed m) (emitter m) (next_id m)
                    (dropped_audio m ++ [AudioProcessor.destroy a])
                    (dropped_video m)
              | None => m
              end);
       _ ← modify (fun m =>
              match videoProcessor m with
              | Some v =>
                  mk (config m) (audioProcessor m) None (isProcessing m)
                    (isDestroyed m) (emitter m) (next_id m) (dropped_audio m)
                    (dropped_video m ++ [VideoProcessor.destroy v])
              | None => m
              end);
       _ ← emit "destroyed" NoArgs;
       modify (fun m => set_emitter (EventEmitter.removeAllListeners None (emitter m)) m)) m.

End MediaProcessor.

(** ** Automatic gain control (audio/AutomaticGainControl.js)

    The arithmetic is over the reals: [Math.pow(10, x)] is [Rpower 10 x],
    [Math.log10] is [ln x / ln 10], [Math.exp] is [exp].  Infinities and NaN
    are outside the model, which therefore speaks of buffers whose RMS is
    not zero where the level in dB matters. *)

Module AutomaticGainControl.
Local Open Scope R_scope.

Definition AGC_MIN_GAIN : R := 1 / 10.
Definition AGC_MAX_GAIN : R := 10.
Definition DEFAULT_BUFFER_SIZE : R := 1024.

(** core/utils.js *)
Definition dbToGain (db : R) : R := Rpower 10 (db / 20).
Definition gainToDb (gain : R) : R := 20 * (ln gain / ln 10).
Definition clamp (value lo hi : R) : R := Rmin (Rmax value lo) hi.

Record config : Type := {
  targetLevel : R;
  compressionRatio : R;
  attackTime : R;
  releaseTime : R
}.

Record t : Type := mk {
  cfg : config;
  sampleRate : R;
  gainNode : option R;
  isInitialized : bool;
  currentGain : R;
  targetGain : R;
  frameCount : nat;
  attackCoeff : R;
  releaseCoeff : R
}.

(** [new AutomaticGainControl(audioContext, config)], for the merged
    configuration [c] and the sample rate of the context. *)
Definition create (rate : R) (c : config) : t :=
  mk c rate None false 1 1 0 0 0.

(** [calculateCoefficients()]. *)
Definition calculateCoefficients (g : t) : t :=
  mk (cfg g) (sampleRate g) (gainNode g) (isInitialized g) (currentGain g)
    (targetGain g) (frameCount g)
    (exp (- DEFAULT_BUFFER_SIZE / (sampleRate g * attackTime (cfg g))))
    (exp (- DEFAULT_BUFFER_SIZE / (sampleRate g * releaseTime (cfg g)))).

(** [initialize()]. *)
Definition initialize (g : t) : t :=
  let g' := calculateCoefficients
              (mk (cfg g) (sampleRate g) (Some (currentGain g)) (isInitialized g)
                 (currentGain g) (targetGain g) (frameCount g) (attackCoeff g)
                 (releaseCoeff g)) in
  mk (cfg g') (sampleRate g') (gainNode g') true (currentGain g') (targetGain g')
    (frameCount g') (attackCoeff g') (releaseCoeff g').

(** [calculateTargetGain(inputLevel)]. *)
Definition calculateTargetGain (g : t) (inputLevel : R) : R :=
  let levelDifference := targetLevel (cfg g) - inputLevel in
  let gainAdjustment :=
    if Rlt_dec 0 levelDifference then levelDifference
    else levelDifference / compressionRatio (cfg g) in
  clamp (dbToGain gainAdjustment) AGC_MIN_GAIN AGC_MAX_GAIN.

(** [smoothGain(newTargetGain)]: the gains are updated, then the gain node
    is written, which fails when there is none yet. *)
Definition smoothGain (newTargetGain : R) : prog t unit :=
  fun g =>
    let current :=
      if Rlt_dec (currentGain g) newTargetGain then
        currentGain g * attackCoeff g + newTargetGain * (1 - attackCoeff g)
      else
        currentGain g * releaseCoeff g + newTargetGain * (1 - releaseCoeff g) in
    match gainNode g with
    | Some _ =>
        (Return tt,
         mk (cfg g) (sampleRate g) (Some current) (isInitialized g) current
           newTargetGain (frameCount g) (attackCoeff g) (releaseCoeff g))
    | None =>
        (Throw "TypeError: cannot read properties of null",
         mk (cfg g) (sampleRate g) None (isInitialized g) current
           newTargetGain (frameCount g) (attackCoeff g) (releaseCoeff g))
    end.

Definition rms (inputData : list R) : R :=
  sqrt (fold_left (fun sum x => sum + x * x) inputData 0
        / INR (length inputData)).

(** [processAudio(event)]: the output buffer for an input buffer. *)
Definition processAudio (inputData : list R) : prog t (list R) :=
  fun g =>
    let inputLevel := gainToDb (rms inputData) in
    let newTargetGain := calculateTargetGain g inputLevel in
    match smoothGain newTargetGain g with
    | (Return _, g') =>
        (Return (map (fun x => x * currentGain g') inputData),
         mk (cfg g') (sampleRate g') (gainNode g') (isInitialized g')
           (currentGain g') (targetGain g') (S (frameCount g'))
           (attackCoeff g') (releaseCoeff g'))
    | (Throw e, g') => (Throw e, g')
    end.

(** The module after a sequence of buffers. *)
Definition feed (buffers : list (list R)) (g : t) : t :=
  fold_left (fun g inputData => snd (processAudio inputData g)) buffers g.

End AutomaticGainControl.

(** ** Voice focus (audio/VoiceFocus.js)

    [config.frequencyRange] is a reference to an array; the arrays live in a
    store.  Reference [VOICE_FREQUENCY_RANGE] is the array of
    [AUDIO_CONSTANTS]. *)

Module VoiceFocus.
Local Open Scope Q_scope.

Definition VOICE_FREQUENCY_RANGE : nat := 0%nat.

Definition initial_store : gmap nat (list Q) :=
  {[ VOICE_FREQUENCY_RANGE := [85; 255] ]}.

Record t : Type := mk {
  sensitivity : Q;
  frequencyRange : nat;
  sampleRate : Q;
  analyser : option Q;
  isInitialized : bool;
  frameCount : nat;
  voiceDetected : bool;
  voiceConfidence : Q;
  voiceThreshold : Q;
  smoothingFactor : Q;
  highPassFrequency : option Q;
  lowPassFrequency : option Q;
  voiceBandFrequency : option Q
}.

(** What [getStats()] returns. *)
Record stats : Type := {
  stats_frameCount : nat;
  stats_voiceDetected : bool;
  stats_voiceConfidence : Q;
  stats_sensitivity : Q;
  stats_frequencyRange : nat;
  stats_voiceThreshold : Q
}.

(** [new VoiceFocus(audioContext, config)]: [sens] and [range] are the
    sensitivity and the array reference that the configuration supplies, if
    any; [rate] is the sample rate of the context.  The analyser, known by
    its FFT size, is created by [initialize()]. *)
Definition create (rate : Q) (sens : option Q) (range : option nat) : t :=
  mk (default 0.8 sens) (default VOICE_FREQUENCY_RANGE range) rate None false
    0 false 0 0.3 0.9 None None None.

(** [const [lowFreq, highFreq] = this.config.frequencyRange]. *)
Definition band (store : gmap nat (list Q)) (f : t) : option Q * option Q :=
  let arr := default [] (store !! frequencyRange f) in
  (arr !! 0%nat, arr !! 1%nat).

(** [createFilters()]; arithmetic on [undefined] is not modelled. *)
Definition createFilters (store : gmap nat (list Q)) (f : t) : t :=
  let '(lowFreq, highFreq) := band store f in
  mk (sensitivity f) (frequencyRange f) (sampleRate f) (analyser f)
    (isInitialized f) (frameCount f) (voiceDetected f) (voiceConfidence f)
    (voiceThreshold f) (smoothingFactor f)
    (option_map (fun l => l * 0.8) lowFreq)
    (option_map (fun h => h * 1.2) highFreq)
    (match lowFreq, highFreq with
     | Some l, Some h => Some ((l + h) / 2)
     | _, _ => None
     end).

(** [initialize()]. *)
Definition initialize (store : gmap nat (list Q)) (f : t) : t :=
  let f' := createFilters store f in
  mk (sensitivity f') (frequencyRange f') (sampleRate f') (Some 2048) true
    (frameCount f') (voiceDetected f') (voiceConfidence f') (voiceThreshold f')
    (smoothingFactor f') (highPassFrequency f') (lowPassFrequency f')
    (voiceBandFrequency f').

(** [frequency >= lowFreq && frequency <= highFreq] for bin [i]. *)
Definition in_voice_band (store : gmap nat (list Q)) (f : t) (binSize : Q)
  (i : nat) : bool :=
  let frequency := inject_Z (Z.of_nat i) * binSize in
  match band store f with
  | (Some lowFreq, Some highFreq) =>
      Qle_bool lowFreq frequency && Qle_bool frequency highFreq
  | _ => false
  end.

Section Detection.
(** [Math.pow(10, x / 20)], a function of the platform. *)
Variable magnitude : Q -> Q.



End Detection.

(** [getStats()]. *)
Definition getStats (f : t) : stats :=
  {| stats_frameCount := frameCount f;
     stats_voiceDetected := voiceDetected f;
     stats_voiceConfidence := voiceConfidence f;
     stats_sensitivity := sensitivity f;
     stats_frequencyRange := frequencyRange f;
     stats_voiceThreshold := voiceThreshold f |}.

(** [array[i] = x] through a reference, for a position the array has. *)
Definition write (ref i : nat) (x : Q) (store : gmap nat (list Q))
  : gmap nat (list Q) :=
  match store !! ref with
  | Some arr => <[ref := <[i := x]> arr]> store
  | None => store
  end.

End VoiceFocus.
From Stdlib Require Floats.

(** ** Automatic gain control on binary64 (audio/AutomaticGainControl.js)

    The same methods on the numbers of the code: IEEE 754 binary64, with
    its rounding, infinities, signed zeros and NaN.  [Math.sqrt],
    [Math.max], [Math.min] and the four operations are those of the
    standard; [Math.exp], [Math.log10] and [Math.pow] are approximations
    that the platform supplies. *)

Module AutomaticGainControl64.
Import Floats.
Local Open Scope float_scope.

Definition AGC_MIN_GAIN : float := 0x1.999999999999ap-4.
Definition AGC_MAX_GAIN : float := 10.
Definition DEFAULT_BUFFER_SIZE : float := 1024.

(** The transcendental functions of the platform. *)
Record Math : Type := {
  Math_exp : float -> float;
  Math_log10 : float -> float;
  Math_pow : float -> float -> float
}.

(** [Math.max(a, b)] and [Math.min(a, b)]: NaN when an argument is NaN;
    of two zeros, the positive one is the larger. *)
Definition Math_max (a b : float) : float :=
  if (is_nan a || is_nan b)%bool then nan
  else if a <? b then b
  else if b <? a then a
  else if get_sign a then b else a.

Definition Math_min (a b : float) : float :=
  if (is_nan a || is_nan b)%bool then nan
  else if a <? b then a
  else if b <? a then b
  else if get_sign a then a else b.

(** core/utils.js *)
Definition dbToGain (M : Math) (db : float) : float := Math_pow M 10 (db / 20).
Definition gainToDb (M : Math) (gain : float) : float := 20 * Math_log10 M gain.
Definition clamp (value lo hi : float) : float :=
  Math_min (Math_max value lo) hi.

Record config : Type := {
  targetLevel : float;
  compressionRatio : float;
  attackTime : float;
  releaseTime : float
}.

Record t : Type := mk {
  cfg : config;
  sampleRate : float;
  gainNode : option float;
  isInitialized : bool;
  currentGain : float;
  targetGain : float;
  frameCount : nat;
  attackCoeff : float;
  releaseCoeff : float
}.

(** [new AutomaticGainControl(audioContext, config)], for the merged
    configuration [c] and the sample rate of the context. *)
Definition create (rate : float) (c : config) : t :=
  mk c rate None false 1 1 0 0 0.

(** [calculateCoefficients()]. *)
Definition calculateCoefficients (M : Math) (g : t) : t :=
  mk (cfg g) (sampleRate g) (gainNode g) (isInitialized g) (currentGain g)
    (targetGain g) (frameCount g)
    (Math_exp M (- DEFAULT_BUFFER_SIZE / (sampleRate g * attackTime (cfg g))))
    (Math_exp M (- DEFAULT_BUFFER_SIZE / (sampleRate g * releaseTime (cfg g)))).

(** [initialize()], on a platform whose node creations and connections
    succeed: the gain node is created with the current gain. *)
Definition initialize (M : Math) (g : t) : t :=
  let g' := calculateCoefficients M
              (mk (cfg g) (sampleRate g) (Some (currentGain g)) (isInitialized g)
                 (currentGain g) (targetGain g) (frameCount g) (attackCoeff g)
                 (releaseCoeff g)) in
  mk (cfg g') (sampleRate g') (gainNode g') true (currentGain g') (targetGain g')
    (frameCount g') (attackCoeff g') (releaseCoeff g').

(** [calculateTargetGain(inputLevel)]. *)
Definition calculateTargetGain (M : Math) (g : t) (inputLevel : float) : float :=
  let levelDifference := targetLevel (cfg g) - inputLevel in
  let gainAdjustment :=
    if 0 <? levelDifference then levelDifference
    else levelDifference / compressionRatio (cfg g) in
  clamp (dbToGain M gainAdjustment) AGC_MIN_GAIN AGC_MAX_GAIN.

(** [smoothGain(newTargetGain)]: the gains are updated, then the gain is
    scheduled on the gain node with [setValueAtTime], which fails when
    there is no node yet and, by the conversion of its argument, when the
    gain is NaN or infinite.  [gainNode] holds the gain last scheduled. *)
Definition smoothGain (newTargetGain : float) : prog t unit :=
  fun g =>
    let current :=
      if currentGain g <? newTargetGain then
        currentGain g * attackCoeff g + newTargetGain * (1 - attackCoeff g)
      else
        currentGain g * releaseCoeff g + newTargetGain * (1 - releaseCoeff g) in
    match gainNode g with
    | Some _ =>
        if is_finite current then
          (Return tt,
           mk (cfg g) (sampleRate g) (Some current) (isInitialized g) current
             newTargetGain (frameCount g) (attackCoeff g) (releaseCoeff g))
        else
          (Throw "TypeError: the provided float value is non-finite",
           mk (cfg g) (sampleRate g) (gainNode g) (isInitialized g) current
             newTargetGain (frameCount g) (attackCoeff g) (releaseCoeff g))
    | None =>
        (Throw "TypeError: cannot read properties of null",
         mk (cfg g) (sampleRate g) None (isInitialized g) current
           newTargetGain (frameCount g) (attackCoeff g) (releaseCoeff g))
    end.

(** [inputData.length] as a number, exact below 2^53. *)
Definition length_of (inputData : list float) : float :=
  of_uint63 (Uint63.of_Z (Z.of_nat (length inputData))).

Definition rms (inputData : list float) : float :=
  sqrt (fold_left (fun sum x => sum + x * x) inputData 0 / length_of inputData).

(** [processAudio(event)]: [inputData] holds the numbers read from the
    input buffer, the result the numbers assigned to the samples of the
    output buffer, in order (a Float32Array rounds each to single precision
    as it stores it).  The ['processed'] event is outside this model. *)
Definition processAudio (M : Math) (inputData : list float) : prog t (list float) :=
  fun g =>
    let inputLevel := gainToDb M (rms inputData) in
    let newTargetGain := calculateTargetGain M g inputLevel in
    match smoothGain newTargetGain g with
    | (Return _, g') =>
        (Return (map (fun x => x * currentGain g') inputData),
         mk (cfg g') (sampleRate g') (gainNode g') (isInitialized g')
           (currentGain g') (targetGain g') (S (frameCount g'))
           (attackCoeff g') (releaseCoeff g'))
    | (Throw e, g') => (Throw e, g')
    end.

(** The module after a sequence of buffers. *)
Definition feed (M : Math) (buffers : list (list float)) (g : t) : t :=
  fold_left (fun g inputData => snd (processAudio M inputData g)) buffers g.

End AutomaticGainControl64.


(** ** Vocabulary of the statements *)

Module Spec.
Import JS Media Config.

(** The value that one assignment of the loop gives to [key]. *)
Definition merged_value (current : option value) (v : value) : value :=
  match v with
  | VObj _ => deepMerge (or_empty current) v
  | _ => v
  end.

Definition merge_prop (result : list (string * value)) (kv : string * value)
  : list (string * value) :=
  obj_set (fst kv) (merged_value (obj_get result (fst kv)) (snd kv)) result.

(** Whether the override leaves the default at [path] alone: along the path
    it has plain objects only, and it stops before the end. *)
Fixpoint untouched (source : value) (path : list string) : Prop :=
  match path with
  | [] => False
  | k :: rest =>
      match source with
      | VObj fs =>
          match obj_get fs k with
          | None => True
          | Some v => is_plain_object v = true /\ untouched v rest
          end
      | _ => False
      end
  end.

(** No plain object of the value, at any depth under plain objects, has the
    own key ["__proto__"] (which [JSON.parse], a computed key or
    [Object.defineProperty] can give it): assigning to that key of the
    merge result sets the prototype of the result and adds no property. *)
Fixpoint no_proto_key (v : value) : bool :=
  match v with
  | VObj fs =>
      (fix all (fs : list (string * value)) : bool :=
         match fs with
         | [] => true
         | (k, x) :: rest =>
             negb (String.eqb k "__proto__") && no_proto_key x && all rest
         end) fs
  | _ => true
  end.

(** A stateful call leaves an observation of the state as it was, whether
    it returns or throws. *)
Definition preserves {S A X} (f : S -> X) (m : prog S A) : Prop :=
  forall s, f (snd (m s)) = f s.

(** A platform on which every capability is present; its two pixel
    operations return the image as it is. *)
Definition full_platform : Platform :=
  {| webAudio := true; webgl := true; canvas2d := true; shaderCompiles := true;
     trackProcessor := true;
     shade := fun _ imageData => imageData;
     blur := fun _ imageData => imageData |}.

(** The public calls on an orchestrator. *)
Inductive call : Type :=
| CallProcess (stream : stream_arg)
| CallUpdateConfig (newConfig : value)
| CallDestroy
| CallOn (event : string) (l : EventEmitter.listener)
| CallOnce (event : string) (l : EventEmitter.listener)
| CallOff (event : string) (l : option EventEmitter.listener)
| CallEmit (event : string) (args : MediaProcessor.payload)
| CallRemoveAllListeners (event : option string).

Definition perform (p : Platform) (m : MediaProcessor.t) (c : call)
  : MediaProcessor.t :=
  match c with
  | CallProcess stream => snd (MediaProcessor.process p stream m)
  | CallUpdateConfig newConfig => snd (MediaProcessor.updateConfig p newConfig m)
  | CallDestroy => snd (MediaProcessor.destroy m)
  | CallOn event l =>
      MediaProcessor.set_emitter (EventEmitter.on event l (MediaProcessor.emitter m)) m
  | CallOnce event l =>
      MediaProcessor.set_emitter (EventEmitter.once event l (MediaProcessor.emitter m)) m
  | CallOff event l =>
      MediaProcessor.set_emitter (EventEmitter.off event l (MediaProcessor.emitter m)) m
  | CallEmit event args => snd (MediaProcessor.emit event args m)
  | CallRemoveAllListeners event =>
      MediaProcessor.set_emitter
        (EventEmitter.removeAllListeners event (MediaProcessor.emitter m)) m
  end.

Definition perform_all (p : Platform) (calls : list call) (m : MediaProcessor.t)
  : MediaProcessor.t :=
  fold_left (perform p) calls m.

(** Every audio and video module of the configuration has a truthy
    [enabled] flag. *)
Definition all_features_enabled (c : value) : Prop :=
  Forall (fun f => enabled_flag (get c "audio") f = Return true)
    ["noiseSuppression"; "agc"; "voiceFocus"] /\
  Forall (fun f => enabled_flag (get c "video") f = Return true)
    ["colorCorrection"; "lowLightCompensation"; "backgroundBlur"].

(** An override that enables the six modules. *)
Definition all_enabled_override : value :=
  VObj [("audio", VObj [("noiseSuppression", VObj [("enabled", VBool true)]);
                        ("agc", VObj [("enabled", VBool true)]);
                        ("voiceFocus", VObj [("enabled", VBool true)])]);
        ("video", VObj [("colorCorrection", VObj [("enabled", VBool true)]);
                        ("lowLightCompensation", VObj [("enabled", VBool true)]);
                        ("backgroundBlur", VObj [("enabled", VBool true)])])].

(** The gain-control configuration of the specification's test: target
    level -20 dB, compression ratio 3. *)
Definition agc_config (attack release : R) : AutomaticGainControl.config :=
  {| AutomaticGainControl.targetLevel := -20;
     AutomaticGainControl.compressionRatio := 3;
     AutomaticGainControl.attackTime := attack;
     AutomaticGainControl.releaseTime := release |}.

Section Binary64.
Import Floats.






End Binary64.

(** Only [video.backgroundReplace] is enabled. *)
Definition only_background_replace (c : value) : Prop :=
  Forall (fun f => enabled_flag (get c "audio") f = Return false)
    ["noiseSuppression"; "agc"; "voiceFocus"] /\
  Forall (fun f => enabled_flag (get c "video") f = Return false)
    ["colorCorrection"; "lowLightCompensation"; "backgroundBlur"] /\
  enabled_flag (get c "video") "backgroundReplace" = Return true.

(** Whether the video pipeline holds a module of the kind. *)
Definition present (v : VideoProcessor.t) (kind : VideoProcessor.module_kind) : bool :=
  match kind with
  | VideoProcessor.LowLight =>
      bool_decide (is_Some (VideoProcessor.lowLightCompensation v))
  | VideoProcessor.Color => bool_decide (is_Some (VideoProcessor.colorCorrection v))
  | VideoProcessor.Blur => bool_decide (is_Some (VideoProcessor.backgroundBlur v))
  end.

Definition feature_name (kind : VideoProcessor.module_kind) : string :=
  match kind with
  | VideoProcessor.LowLight => "lowLightCompensation"
  | VideoProcessor.Color => "colorCorrection"
  | VideoProcessor.Blur => "backgroundBlur"
  end.

(** The modules of the pipeline in the order of [processVideoFrame]. *)
Definition active_modules (v : VideoProcessor.t) : list VideoProcessor.module_kind :=
  List.filter (present v)
    [VideoProcessor.LowLight; VideoProcessor.Color; VideoProcessor.Blur].

(** The modules of the pipeline in creation order, colour correction
    first. *)
Definition color_first_modules (v : VideoProcessor.t) : list VideoProcessor.module_kind :=
  List.filter (present v)
    [VideoProcessor.Color; VideoProcessor.LowLight; VideoProcessor.Blur].

(** [setFeature(feature, true)] for each feature of a list, in order. *)
Fixpoint enable_all (p : Platform) (features : list string)
  : prog VideoProcessor.t unit :=
  match features with
  | [] => mret tt
  | feature :: rest =>
      _ ← VideoProcessor.setFeature p feature true;
      enable_all p rest
  end.

(** Listeners that are user callbacks, and the identity of one. *)
Definition is_callback (l : EventEmitter.listener) : Prop :=
  match l with
  | EventEmitter.Callback _ _ => True
  | EventEmitter.OnceWrapper _ _ _ => False
  end.

Definition callback_id (l : EventEmitter.listener) : nat :=
  match l with
  | EventEmitter.Callback id _ => id
  | EventEmitter.OnceWrapper wid _ _ => wid
  end.

(** The errors of the specification, as the messages of the source. *)
Definition DestroyedError : string := "MediaProcessor has been destroyed".
Definition InvalidInputError : string := "Invalid MediaStream provided".

End Spec.
From Stdlib Require Lqa.

(** ** Inherited members

    A plain object inherits the members of [Object.prototype]: a lookup
    [object[name]] by one of these names finds the inherited member where
    the object has no property of its own by that name. *)

Module ObjectPrototype.

Definition keys : list string :=
  ["constructor"; "__defineGetter__"; "__defineSetter__"; "hasOwnProperty";
   "__lookupGetter__"; "__lookupSetter__"; "isPrototypeOf";
   "propertyIsEnumerable"; "toString"; "valueOf"; "__proto__";
   "toLocaleString"]%string.

Definition inherits (name : string) : bool := existsb (String.eqb name) keys.

End ObjectPrototype.

(** ** Noise suppression (audio/NoiseSuppressor.js)

    Samples and magnitudes are exact rationals; the conversion of the
    analyser's decibel readings to linear magnitudes is the platform's. *)

Module NoiseSuppressor.
Local Open Scope Q_scope.

Record settings : Type := {
  threshold : Q;
  reduction : Q
}.

(** What [this.intensitySettings[intensity]] finds: one of the three own
    entries, a member inherited from [Object.prototype], or nothing. *)
Inductive entry : Type :=
| Own (s : settings)
| Inherited
| Missing.

Definition intensitySettings (intensity : string) : entry :=
  if String.eqb intensity "low" then Own {| threshold := 0.3; reduction := 0.5 |}
  else if String.eqb intensity "medium" then Own {| threshold := 0.2; reduction := 0.7 |}
  else if String.eqb intensity "high" then Own {| threshold := 0.1; reduction := 0.9 |}
  else if ObjectPrototype.inherits intensity then Inherited
  else Missing.

Record t : Type := mk {
  intensity : string;
  analyser : option nat;
  isInitialized : bool;
  frameCount : nat;
  emitted : list string
}.

(** [new NoiseSuppressor(audioContext, config)]; [configured] is the
    intensity the configuration supplies, if any. *)
Definition create (configured : option string) : t :=
  mk (default "medium"%string configured) None false 0 [].

(** [initialize()]: the analyser has an FFT size of 2048, hence 1024 bins. *)
Definition initialize (s : t) : t :=
  mk (intensity s) (Some 1024%nat) true (frameCount s)
    (emitted s ++ ["initialized"%string]).

(** [estimateNoiseLevel(frequencyData, binIndex)]: the least magnitude of
    the bins from [binIndex - 5] up to, not including, [binIndex + 5];
    [None] is [Infinity]. *)
Definition estimateNoiseLevel (frequencyData : list Q) (binIndex : nat)
  : option Q :=
  let windowSize := 5%nat in
  let start := (binIndex - windowSize)%nat in
  let stop := Nat.min (length frequencyData) (binIndex + windowSize) in
  fold_left (fun (min : option Q) x =>
               match min with
               | None => Some x
               | Some m => if Media.Qlt_bool x m then Some x else Some m
               end)
    (take (stop - start) (drop start frequencyData)) None.

(** The body of the loop of [applyNoiseSuppression] for bin [i], with the
    settings of an own entry.  Against an infinite noise level the
    difference is [-Infinity], which [Math.max] turns into 0. *)
Definition suppress_bin (st : settings) (frequencyData : list Q) (i : nat)
  (magnitude : Q) : Q :=
  match estimateNoiseLevel frequencyData i with
  | Some noiseLevel =>
      let difference := magnitude - noiseLevel * reduction st in
      let signalLevel := if Qle_bool 0 difference then difference else 0 in
      if Media.Qlt_bool (threshold st) signalLevel then signalLevel else 0
  | None => 0
  end.

(** [applyNoiseSuppression(frequencyData)].  The settings are read inside
    the loop: without bins nothing is read; an inherited member has no
    [reduction], the arithmetic yields NaN, and every comparison with it
    fails, so each bin is 0. *)
Definition applyNoiseSuppression (intensity : string) (frequencyData : list Q)
  : result (list Q) :=
  match frequencyData with
  | [] => Return []
  | _ :: _ =>
      match intensitySettings intensity with
      | Own st => Return (imap (suppress_bin st frequencyData) frequencyData)
      | Inherited => Return (map (fun _ => 0) frequencyData)
      | Missing => Throw "TypeError: cannot read properties of undefined"
      end
  end.

(** [calculateNoiseReduction(processedData)]; [None] is NaN: that of 0 / 0
    for no data, and that of a product with [undefined]; [Math.min] and
    [Math.max] pass NaN on. *)
Definition calculateNoiseReduction (intensity : string) (processedData : list Q)
  : result (option Q) :=
  let signalEnergy := fold_left (fun sum val => sum + val * val) processedData 0 in
  let totalEnergy := length processedData in
  match intensitySettings intensity with
  | Own st =>
      if Nat.eqb totalEnergy 0 then Return None
      else
        let snr := signalEnergy / inject_Z (Z.of_nat totalEnergy) in
        let scaled := snr * reduction st in
        let capped := if Qle_bool 1 scaled then 1 else scaled in
        Return (Some (if Qle_bool 0.1 capped then capped else 0.1))
  | Inherited => Return None
  | Missing => Throw "TypeError: cannot read properties of undefined"
  end.

(** [processAudio(event)]: [linearData] is the spectrum of the analyser in
    linear scale, [inputData] the input channel; the result is the output
    channel, [None] being NaN. *)
Definition processAudio (linearData inputData : list Q)
  : prog t (list (option Q)) :=
  a ← read analyser;
  match a : option nat with
  | None => throw "TypeError: cannot read properties of null"
  | Some _ =>
      i ← read intensity;
      processedData ← lift (applyNoiseSuppression i linearData);
      noiseReduction ← lift (calculateNoiseReduction i processedData);
      _ ← modify (fun s =>
             mk (intensity s) (analyser s) (isInitialized s) (S (frameCount s))
               (emitted s ++ ["processed"%string]));
      mret (map (fun x => option_map (Qmult x) noiseReduction) inputData)
  end.

(** [setIntensity(intensity)]. *)
Definition setIntensity (value : string) : prog t unit :=
  fun s =>
    match intensitySettings value with
    | Missing =>
        (Throw (String.append "Invalid intensity: "
                  (String.append value ". Must be 'low', 'medium', or 'high'")),
         s)
    | _ =>
        (Return tt,
         mk value (analyser s) (isInitialized s) (frameCount s)
           (emitted s ++ ["intensity:changed"%string]))
    end.

End NoiseSuppressor.

(** ** Voice focus: tuning the frequency range (audio/VoiceFocus.js)

    [setFrequencyRange] and [updateFilters], on the state of
    [VoiceFocus]. *)

Module VoiceFocusControl.
Import VoiceFocus.
Local Open Scope Q_scope.

(** [clamp(value, min, max)] on numbers. *)
Definition clamp (value lo hi : Q) : Q :=
  let m := if Qle_bool lo value then value else lo in
  if Qle_bool m hi then m else hi.

(** [updateFilters()]: the filters that exist are retuned. *)
Definition updateFilters (store : gmap nat (list Q)) (f : t) : t :=
  let '(lowFreq, highFreq) := band store f in
  mk (sensitivity f) (frequencyRange f) (sampleRate f) (analyser f)
    (isInitialized f) (frameCount f) (voiceDetected f) (voiceConfidence f)
    (voiceThreshold f) (smoothingFactor f)
    (match highPassFrequency f with
     | Some _ => option_map (fun l => l * 0.8) lowFreq
     | None => None
     end)
    (match lowPassFrequency f with
     | Some _ => option_map (fun h => h * 1.2) highFreq
     | None => None
     end)
    (match voiceBandFrequency f with
     | Some _ =>
         match lowFreq, highFreq with
         | Some l, Some h => Some ((l + h) / 2)
         | _, _ => None
         end
     | None => None
     end).

(** [setFrequencyRange(lowFreq, highFreq)]: the array literal is a new
    array, which the configuration refers to from then on. *)
Definition setFrequencyRange (lowFreq highFreq : Q)
  (store : gmap nat (list Q)) (f : t) : gmap nat (list Q) * t :=
  let ref := fresh (dom store) in
  let store' := <[ref := [clamp lowFreq 50 500; clamp highFreq 200 1000]]> store in
  (store',
   updateFilters store'
     (mk (sensitivity f) ref (sampleRate f) (analyser f)
        (isInitialized f) (frameCount f) (voiceDetected f) (voiceConfidence f)
        (voiceThreshold f) (smoothingFactor f) (highPassFrequency f)
        (lowPassFrequency f) (voiceBandFrequency f))).

End VoiceFocusControl.

(** ** Vocabulary of the further properties *)

Module Laws.
Import JS Media Config.

(** The states of an event channel that its own operations produce, for
    event names that are not names of inherited members. *)
Inductive reachable {A : Type} : EventEmitter.t A -> Prop :=
| reach_create : reachable EventEmitter.create
| reach_on event l e :
    ObjectPrototype.inherits event = false ->
    reachable e -> reachable (EventEmitter.on event l e)
| reach_once event l e :
    ObjectPrototype.inherits event = false ->
    reachable e -> reachable (EventEmitter.once event l e)
| reach_off event l e :
    ObjectPrototype.inherits event = false ->
    reachable e -> reachable (EventEmitter.off event l e)
| reach_removeAll event e :
    reachable e -> reachable (EventEmitter.removeAllListeners event e)
| reach_emit event args e :
    ObjectPrototype.inherits event = false ->
    reachable e -> reachable (snd (EventEmitter.emit event args e)).

(** The registry holds no empty array, every array it refers to was
    allocated, and no two events share an array. *)
Definition registry_ok {A : Type} (e : EventEmitter.t A) : Prop :=
  (forall event ref,
      EventEmitter.events e !! event = Some ref ->
      EventEmitter.array_at e ref <> [] /\ (ref < EventEmitter.next_ref e)%nat) /\
  (forall event event' ref,
      EventEmitter.events e !! event = Some ref ->
      EventEmitter.events e !! event' = Some ref -> event = event').

(** Whether a user callback throws. *)
Definition callback_throws (l : EventEmitter.listener) : bool :=
  match l with
  | EventEmitter.Callback _ throws => throws
  | EventEmitter.OnceWrapper _ _ _ => false
  end.

(** The channel after the callbacks [ls] were called with [args] for
    [event]: one call each, one console line for each that threw. *)
Definition dispatched {A : Type} (event : string) (args : A)
  (ls : list EventEmitter.listener) (e : EventEmitter.t A) : EventEmitter.t A :=
  {| EventEmitter.events := EventEmitter.events e;
     EventEmitter.arrays := EventEmitter.arrays e;
     EventEmitter.next_ref := EventEmitter.next_ref e;
     EventEmitter.calls :=
       EventEmitter.calls e ++ map (fun l => (Spec.callback_id l, args)) ls;
     EventEmitter.emitted := EventEmitter.emitted e;
     EventEmitter.console :=
       EventEmitter.console e
       ++ map (fun _ => String.append "Error in event listener for " event)
            (List.filter callback_throws ls) |}.

(** What holds of the outcome and the final state of a stateful call. *)
Definition post {S A} (m : prog S A) (s : S) (Q : result A -> S -> Prop) : Prop :=
  Q (fst (m s)) (snd (m s)).

(** The last event of [process]: completion with the stream returned, or
    the error thrown. *)
Definition process_outcome_event (r : result MediaStream)
  : string * MediaProcessor.payload :=
  match r with
  | Return s => ("processing:complete", MediaProcessor.StreamArg s)
  | Throw e => ("error", MediaProcessor.ErrorArg e)
  end.

(** The one event [initializeProcessors] ends with. *)
Definition init_event (ev : string * MediaProcessor.payload) : Prop :=
  ev = ("initialized", MediaProcessor.NoArgs) \/
  exists e, ev = ("error",
                  MediaProcessor.ErrorArg
                    (String.append "Failed to initialize processors: " e)).

(** A value a [Uint8ClampedArray] can hold. *)
Definition is_byte (x : Z) : Prop := (0 <= x <= 255)%Z.

(** [{ ...this.config, ...newConfig }] of the audio pipeline. *)
Definition merged_audio_config (a : AudioProcessor.t) (newConfig : option value)
  : value :=
  VObj (spread_onto
          (match AudioProcessor.config a with
           | Some c => own_props c
           | None => []
           end) newConfig).


(** No audio module is enabled in [c]. *)
Definition no_audio_module (c : value) : Prop :=
  Forall (fun f => truthy_opt (opt_member (get c f) "enabled") = false)
    ["noiseSuppression"; "agc"; "voiceFocus"]%string.

End Laws.

(** * Properties *)

(** ** Objects *)

Section ObjectFacts.
Import JS.

Lemma obj_get_replace_same k v fs :
  obj_get fs k <> None -> obj_get (replace_prop k v fs) k = Some v.
Proof.
  induction fs as [|[k' v'] fs IH]; simpl; [congruence|].
  destruct (String.eqb k' k) eqn:E; simpl; rewrite E; auto.
Qed.

Lemma obj_get_replace_other k k' v fs :
  k <> k' -> obj_get (replace_prop k v fs) k' = obj_get fs k'.
Proof.
  intros Hne. induction fs as [|[k0 v0] fs IH]; simpl; [reflexivity|].
  destruct (String.eqb k0 k) eqn:E; simpl.
  - apply String.eqb_eq in E. subst k0.
    destruct (String.eqb k k') eqn:E'; [apply String.eqb_eq in E'; congruence|reflexivity].
  - destruct (String.eqb k0 k'); auto.
Qed.

Lemma obj_get_insert_same n k v fs :
  obj_get fs k = None -> obj_get (insert_index n k v fs) k = Some v.
Proof.
  induction fs as [|[k' v'] fs IH]; simpl; intros H.
  - now rewrite String.eqb_refl.
  - destruct (String.eqb k' k) eqn:E; [discriminate|].
    destruct (array_index k') as [n'|]; [destruct (n' <? n)%N|]; simpl;
      rewrite ?E, ?String.eqb_refl; auto.
Qed.

Lemma obj_get_insert_other n k k' v fs :
  k <> k' -> obj_get (insert_index n k v fs) k' = obj_get fs k'.
Proof.
  intros Hne. apply String.eqb_neq in Hne.
  induction fs as [|[k0 v0] fs IH]; simpl.
  - now rewrite Hne.
  - destruct (array_index k0) as [n'|]; [destruct (n' <? n)%N|]; simpl;
      rewrite ?Hne, ?IH; reflexivity.
Qed.

Lemma obj_get_app_same k v fs :
  obj_get fs k = None -> obj_get (fs ++ [(k, v)]) k = Some v.
Proof.
  induction fs as [|[k' v'] fs IH]; simpl; intros H.
  - now rewrite String.eqb_refl.
  - destruct (String.eqb k' k); [discriminate|auto].
Qed.

Lemma obj_get_app_other k k' v fs :
  k <> k' -> obj_get (fs ++ [(k, v)]) k' = obj_get fs k'.
Proof.
  intros Hne. apply String.eqb_neq in Hne.
  induction fs as [|[k0 v0] fs IH]; simpl.
  - now rewrite Hne.
  - destruct (String.eqb k0 k'); auto.
Qed.

Lemma obj_get_set_same k v fs : obj_get (obj_set k v fs) k = Some v.
Proof.
  unfold obj_set. destruct (obj_get fs k) eqn:E.
  - apply obj_get_replace_same. congruence.
  - destruct (array_index k).
    + now apply obj_get_insert_same.
    + now apply obj_get_app_same.
Qed.

Lemma obj_get_set_other k k' v fs :
  k <> k' -> obj_get (obj_set k v fs) k' = obj_get fs k'.
Proof.
  intros Hne. unfold obj_set. destruct (obj_get fs k).
  - now apply obj_get_replace_other.
  - destruct (array_index k).
    + now apply obj_get_insert_other.
    + now apply obj_get_app_other.
Qed.

Lemma obj_get_elem k v fs : obj_get fs k = Some v -> k ∈ map fst fs.
Proof.
  induction fs as [|[k' v'] fs IH]; simpl; [discriminate|].
  destruct (String.eqb k' k) eqn:E.
  - apply String.eqb_eq in E. subst k'. intros _. apply list_elem_of_here.
  - intros H. apply list_elem_of_further. auto.
Qed.

Lemma wf_obj_inv k v rest :
  wf (VObj ((k, v) :: rest)) = true ->
  (k ∉ map fst rest) /\ wf v = true /\ wf (VObj rest) = true.
Proof.
  cbn [wf map fst]. rewrite !andb_true_iff, !bool_decide_eq_true.
  intros [Hnd [Hv Hrest]]. inversion Hnd; subst. auto.
Qed.

Lemma wf_obj_nodup fs : wf (VObj fs) = true -> NoDup (map fst fs).
Proof.
  cbn [wf]. rewrite andb_true_iff, bool_decide_eq_true. tauto.
Qed.

Lemma wf_obj_get fs k v : wf (VObj fs) = true -> obj_get fs k = Some v -> wf v = true.
Proof.
  induction fs as [|[k' v'] fs IH]; [discriminate|].
  intros Hwf. apply wf_obj_inv in Hwf as (_ & Hv & Hrest). simpl.
  destruct (String.eqb k' k); [intros [= <-]; assumption|auto].
Qed.

End ObjectFacts.

(** ** The deep merge *)

Section DeepMergeFacts.
Import JS Config Spec.

Lemma deepMerge_object target fs :
  deepMerge target (VObj fs) = VObj (fold_left merge_prop fs (own_props target)).
Proof.
  simpl. f_equal. generalize (own_props target) as result.
  induction fs as [|[k v] fs IH]; intros result; simpl; [reflexivity|].
  rewrite IH. reflexivity.
Qed.

Lemma fold_merge_absent fs : forall result k,
  obj_get fs k = None ->
  obj_get (fold_left merge_prop fs result) k = obj_get result k.
Proof.
  induction fs as [|[k' v'] fs IH]; intros result k; simpl; [reflexivity|].
  destruct (String.eqb k' k) eqn:E; [discriminate|].
  intros H. rewrite IH by assumption. unfold merge_prop. simpl.
  apply obj_get_set_other. now apply String.eqb_neq.
Qed.

Lemma fold_merge_present fs : forall result k v,
  NoDup (map fst fs) ->
  obj_get fs k = Some v ->
  obj_get (fold_left merge_prop fs result) k
  = Some (merged_value (obj_get result k) v).
Proof.
  induction fs as [|[k' v'] fs IH]; intros result k v Hnd; simpl; [discriminate|].
  inversion Hnd as [|? ? Hnotin Hnd']; subst.
  destruct (String.eqb k' k) eqn:E.
  - apply String.eqb_eq in E. subst k'. intros [= ->].
    rewrite fold_merge_absent.
    + unfold merge_prop. simpl. apply obj_get_set_same.
    + destruct (obj_get fs k) eqn:G; [|reflexivity].
      apply obj_get_elem in G. contradiction.
  - intros H. rewrite (IH _ _ _ Hnd' H). unfold merge_prop at 1. simpl.
    rewrite obj_get_set_other; [reflexivity|now apply String.eqb_neq].
Qed.

Lemma get_path_falsy v k rest leaf :
  truthy v = false -> get_path v (k :: rest) = Some leaf -> False.
Proof.
  destruct v as [|[]|q|s| |]; simpl; try discriminate; unfold get; simpl;
    try discriminate.
  destruct s; simpl; discriminate.
Qed.

Lemma deepMerge_get target fs k :
  NoDup (map fst fs) ->
  get (deepMerge target (VObj fs)) k
  = match obj_get fs k with
    | Some v => Some (merged_value (get target k) v)
    | None => get target k
    end.
Proof.
  intros Hnd. rewrite deepMerge_object. unfold get at 1. simpl.
  destruct (obj_get fs k) eqn:E.
  - now apply fold_merge_present.
  - now apply fold_merge_absent.
Qed.

Lemma deepMerge_keeps_supplied path : forall target source leaf,
  wf source = true ->
  is_plain_object source = true ->
  get_path source path = Some leaf ->
  is_plain_object leaf = false ->
  get_path (deepMerge target source) path = Some leaf.
Proof.
  induction path as [|k rest IH]; intros target source leaf Hwf Hobj Hget Hleaf.
  - simpl in Hget. injection Hget as <-. congruence.
  - destruct source as [| | | | |fs]; try discriminate.
    simpl in Hget. unfold get in Hget. simpl in Hget.
    destruct (obj_get fs k) as [v|] eqn:E; [|discriminate].
    cbn [get_path]. rewrite deepMerge_get by now apply wf_obj_nodup. rewrite E.
    destruct v as [| | | | |fs'] eqn:Ev; cbn [merged_value]; try assumption.
    apply IH; auto. apply (wf_obj_get _ _ _ Hwf E).
Qed.

Lemma deepMerge_keeps_untouched path : forall target source leaf,
  wf source = true ->
  is_plain_object source = true ->
  untouched source path ->
  get_path target path = Some leaf ->
  get_path (deepMerge target source) path = Some leaf.
Proof.
  induction path as [|k rest IH]; intros target source leaf Hwf Hobj Hun Hget.
  - destruct Hun.
  - destruct source as [| | | | |fs]; try discriminate.
    cbn [untouched] in Hun. cbn [get_path] in Hget |- *.
    rewrite deepMerge_get by now apply wf_obj_nodup.
    destruct (obj_get fs k) as [v|] eqn:E.
    + destruct Hun as [Hv Hun].
      destruct (get target k) as [tv|] eqn:G; [|discriminate].
      destruct v as [| | | | |fs']; try discriminate. cbn [merged_value].
      destruct rest as [|k' rest']; [destruct Hun|].
      apply IH; auto.
      * apply (wf_obj_get _ _ _ Hwf E).
      * unfold or_empty. destruct (truthy tv) eqn:T; [assumption|].
        exfalso. eapply get_path_falsy; eauto.
    + destruct (get target k); [assumption|discriminate].
Qed.

End DeepMergeFacts.

(** ** Frame rules for stateful calls *)

Section Frames.
Import Spec.
Context {S X : Type} (f : S -> X).

Lemma preserves_ret {A} (a : A) : preserves f (mret a : prog S A).
Proof. intros s. reflexivity. Qed.

Lemma preserves_throw {A} e : preserves f (throw e : prog S A).
Proof. intros s. reflexivity. Qed.

Lemma preserves_lift {A} (r : result A) : preserves f (lift r : prog S A).
Proof. intros s. reflexivity. Qed.

Lemma preserves_read {A} (g : S -> A) : preserves f (read g).
Proof. intros s. reflexivity. Qed.

Lemma preserves_modify (g : S -> S) :
  (forall s, f (g s) = f s) -> preserves f (modify g).
Proof. intros H s. apply H. Qed.

Lemma preserves_bind {A B} (m : prog S A) (k : A -> prog S B) :
  preserves f m -> (forall a, preserves f (k a)) -> preserves f (m ≫= k).
Proof.
  intros Hm Hk s. unfold mbind, prog_bind. specialize (Hm s).
  destruct (m s) as [[a|e] s']; simpl in *.
  - rewrite Hk. exact Hm.
  - exact Hm.
Qed.

Lemma preserves_try_catch {A} (m : prog S A) (h : string -> prog S A) :
  preserves f m -> (forall e, preserves f (h e)) -> preserves f (try_catch m h).
Proof.
  intros Hm Hh s. unfold try_catch. specialize (Hm s).
  destruct (m s) as [[a|e] s']; simpl in *.
  - exact Hm.
  - rewrite Hh. exact Hm.
Qed.

End Frames.

Section OrchestratorFrames.
Import JS Media Config Spec.
Import MediaProcessor.
Context {X : Type} (f : MediaProcessor.t -> X).
Hypothesis f_emitter : forall e m, f (set_emitter e m) = f m.
Hypothesis f_audio : forall a m, f (set_audioProcessor a m) = f m.
Hypothesis f_video : forall v m, f (set_videoProcessor v m) = f m.
Hypothesis f_isProcessing : forall b m, f (set_isProcessing b m) = f m.
Hypothesis f_next : forall m,
  f (mk (config m) (audioProcessor m) (videoProcessor m) (isProcessing m)
       (isDestroyed m) (emitter m) (Datatypes.S (next_id m)) (dropped_audio m)
       (dropped_video m)) = f m.
Hypothesis f_dropped : forall m a v da dv,
  f (mk (config m) a v (isProcessing m) (isDestroyed m) (emitter m) (next_id m)
       da dv) = f m.

Lemma preserves_emit event args : preserves f (emit event args).
Proof.
  intros m. unfold emit. destruct (EventEmitter.emit event args (emitter m)).
  simpl. apply f_emitter.
Qed.

Lemma preserves_on_audio {A} (call : prog AudioProcessor.t A) :
  preserves f (on_audio call).
Proof.
  intros m. unfold on_audio. destruct (audioProcessor m); [|reflexivity].
  destruct (call t0). simpl. apply f_audio.
Qed.

Lemma preserves_on_video {A} (call : prog VideoProcessor.t A) :
  preserves f (on_video call).
Proof.
  intros m. unfold on_video. destruct (videoProcessor m); [|reflexivity].
  destruct (call t0). simpl. apply f_video.
Qed.

Lemma preserves_fresh : preserves f fresh.
Proof. intros m. apply f_next. Qed.

Lemma preserves_initializeProcessors p : preserves f (initializeProcessors p).
Proof.
  unfold initializeProcessors.
  apply preserves_try_catch; [|intros e].
  - apply preserves_bind; [apply preserves_read|intros c].
    apply preserves_bind; [apply preserves_lift|intros a].
    apply preserves_bind; [|intros _].
    { destruct a; [|apply preserves_ret].
      apply preserves_bind; [|intros _; apply preserves_on_audio].
      apply preserves_modify. intros m. apply f_dropped. }
    apply preserves_bind; [apply preserves_lift|intros v].
    apply preserves_bind; [|intros _].
    { destruct v; [|apply preserves_ret].
      apply preserves_bind; [|intros _; apply preserves_on_video].
      apply preserves_modify. intros m. apply f_dropped. }
    apply preserves_bind; [apply preserves_emit|intros _; apply preserves_ret].
  - apply preserves_bind; [apply preserves_emit|intros _; apply preserves_ret].
Qed.

Lemma preserves_process p stream : preserves f (process p stream).
Proof.
  intros m. unfold process. destruct (isDestroyed m); [reflexivity|].
  destruct stream as [|s]; [reflexivity|].
  apply preserves_try_catch; [|intros e].
  - apply preserves_bind; [apply preserves_modify; intros; apply f_isProcessing|intros _].
    apply preserves_bind; [apply preserves_emit|intros _].
    apply preserves_bind; [apply preserves_read|intros ap].
    apply preserves_bind; [|intros ha].
    { destruct ap; [|apply preserves_ret].
      apply preserves_bind; [apply preserves_read|intros c; apply preserves_lift]. }
    apply preserves_bind; [|intros afterAudio].
    { destruct ha; [|apply preserves_ret].
      destruct (audioTracks s); [apply preserves_ret|].
      apply preserves_bind; [apply preserves_fresh|intros id; apply preserves_on_audio]. }
    apply preserves_bind; [apply preserves_read|intros vp].
    apply preserves_bind; [|intros hv].
    { destruct vp; [|apply preserves_ret].
      apply preserves_bind; [apply preserves_read|intros c; apply preserves_lift]. }
    apply preserves_bind; [|intros processedStream].
    { destruct hv; [|apply preserves_ret].
      destruct (videoTracks s); [apply preserves_ret|].
      apply preserves_bind; [apply preserves_fresh|intros id; apply preserves_on_video]. }
    apply preserves_bind; [apply preserves_modify; intros; apply f_isProcessing|intros _].
    apply preserves_bind; [apply preserves_emit|intros _; apply preserves_ret].
  - apply preserves_bind; [apply preserves_modify; intros; apply f_isProcessing|intros _].
    apply preserves_bind; [apply preserves_emit|intros _; apply preserves_throw].
Qed.

End OrchestratorFrames.

Section OrchestratorFacts.
Import JS Media Config Spec.
Import MediaProcessor.

Lemma initializeProcessors_config p m :
  config (snd (initializeProcessors p m)) = config m.
Proof. apply (preserves_initializeProcessors config); reflexivity. Qed.

Lemma initializeProcessors_isDestroyed p m :
  isDestroyed (snd (initializeProcessors p m)) = isDestroyed m.
Proof. apply (preserves_initializeProcessors isDestroyed); reflexivity. Qed.

Lemma process_isDestroyed p stream m :
  isDestroyed (snd (process p stream m)) = isDestroyed m.
Proof. apply (preserves_process isDestroyed); reflexivity. Qed.

Lemma create_config p userConfig :
  getConfig (create p userConfig) = mergeConfig userConfig.
Proof. unfold getConfig, create. now rewrite initializeProcessors_config. Qed.

Lemma updateConfig_isDestroyed p newConfig m :
  isDestroyed (snd (updateConfig p newConfig m)) = isDestroyed m.
Proof.
  unfold updateConfig. destruct (isDestroyed m) eqn:E; [exact E|].
  assert (H : preserves isDestroyed
    (oldConfig ← read config;
     _ ← modify (set_config (mergeConfig newConfig));
     c ← read config;
     _ ← (if configChanged oldConfig c then initializeProcessors p else mret tt);
     _ ← emit "config:updated" (ConfigArg c);
     mret tt)).
  { apply preserves_bind; [apply preserves_read|intros old].
    apply preserves_bind; [apply preserves_modify; reflexivity|intros _].
    apply preserves_bind; [apply preserves_read|intros c].
    apply preserves_bind; [|intros _].
    { destruct (configChanged old c); [|apply preserves_ret].
      apply preserves_initializeProcessors; reflexivity. }
    apply preserves_bind; [apply preserves_emit; reflexivity|intros _; apply preserves_ret]. }
  rewrite (H m). exact E.
Qed.

Lemma destroy_isDestroyed m : isDestroyed (snd (destroy m)) = true.
Proof.
  unfold destroy. destruct (isDestroyed m) eqn:E; [exact E|].
  match goal with
  | |- isDestroyed (snd ((modify ?g ≫= ?k) m)) = true =>
      change (isDestroyed (snd (k tt (g m))) = true);
      assert (H : preserves isDestroyed (k tt))
  end.
  { apply preserves_bind; [apply preserves_modify; reflexivity|intros _].
    apply preserves_bind;
      [apply preserves_modify; intros s; destruct (audioProcessor s); reflexivity
      |intros _].
    apply preserves_bind;
      [apply preserves_modify; intros s; destruct (videoProcessor s); reflexivity
      |intros _].
    apply preserves_bind; [apply preserves_emit; reflexivity|intros _].
    apply preserves_modify. reflexivity. }
  rewrite H. reflexivity.
Qed.

Lemma perform_isDestroyed p c m :
  isDestroyed m = true -> isDestroyed (perform p m c) = true.
Proof.
  intros H. destruct c; simpl; try assumption.
  - now rewrite process_isDestroyed.
  - now rewrite updateConfig_isDestroyed.
  - apply destroy_isDestroyed.
  - unfold emit. destruct (EventEmitter.emit event args (emitter m)). exact H.
Qed.

Lemma perform_all_isDestroyed p calls : forall m,
  isDestroyed m = true -> isDestroyed (perform_all p calls m) = true.
Proof.
  induction calls as [|c calls IH]; intros m H; simpl; [exact H|].
  apply IH. now apply perform_isDestroyed.
Qed.

End OrchestratorFacts.

(** C1. Once [destroy()] has completed on an orchestrator, whatever state
    it was in and whatever calls follow, [process(stream)] and
    [updateConfig(newConfig)] throw the error of a destroyed processor for
    every argument, and leave the state as it is: nothing is processed and
    no configuration is merged. *)
Theorem destroyed_orchestrator_fails_fast :
  forall (p : Media.Platform) (m : MediaProcessor.t) (later : list Spec.call),
    let m' := Spec.perform_all p later (snd (MediaProcessor.destroy m)) in
    (forall stream,
        MediaProcessor.process p stream m' = (Throw Spec.DestroyedError, m')) /\
    (forall newConfig,
        MediaProcessor.updateConfig p newConfig m' = (Throw Spec.DestroyedError, m')).
Proof.
  intros p m later m'.
  assert (H : MediaProcessor.isDestroyed m' = true).
  { apply perform_all_isDestroyed, destroy_isDestroyed. }
  split; intros; unfold MediaProcessor.process, MediaProcessor.updateConfig;
    rewrite H; reflexivity.
Qed.

(** ** Dispatch leaves the history of emissions alone *)

Section EmitterFacts.
Import EventEmitter.
Context {A : Type}.
Implicit Types e : EventEmitter.t A.

Lemma off_emitted event l e : emitted (off event l e) = emitted e.
Proof.
  unfold off. destruct (events e !! event); [|reflexivity].
  destruct l as [l|]; [|reflexivity].
  destruct (indexOf l (array_at e n)); destruct (Nat.eqb _ 0); reflexivity.
Qed.

Lemma invoke_emitted l args : forall e, emitted (snd (invoke l args e)) = emitted e.
Proof.
  induction l as [id throws|wid event inner IH]; intros e; simpl; [reflexivity|].
  rewrite IH. apply off_emitted.
Qed.

Lemma forEach_emitted event args ref remaining : forall k e,
  emitted (forEach_from event args ref remaining k e) = emitted e.
Proof.
  induction remaining as [|n IH]; intros k e; simpl; [reflexivity|].
  rewrite IH. destruct (array_at e ref !! k) as [l|]; [|reflexivity].
  pose proof (invoke_emitted l args e) as H.
  destruct (invoke l args e) as [[] e']; simpl in *; exact H.
Qed.

(** [emit] returns, and appends one entry to the history. *)
Lemma emit_returns event (args : A) e :
  exists b e', emit event args e = (Return b, e') /\
               emitted e' = emitted e ++ [(event, args)].
Proof.
  unfold emit. simpl. destruct (events e !! event) as [ref|].
  - eexists _, _. split; [reflexivity|]. now rewrite forEach_emitted.
  - eexists _, _. split; reflexivity.
Qed.

End EmitterFacts.

Section ProcessFacts.
Import JS Media Config Spec.
Import MediaProcessor.

Lemma orchestrator_emit_returns event args m :
  exists b e', emit event args m = (Return b, set_emitter e' m) /\
    EventEmitter.emitted e' = EventEmitter.emitted (emitter m) ++ [(event, args)].
Proof.
  unfold emit.
  destruct (emit_returns event args (emitter m)) as (b & e' & -> & H).
  now exists b, e'.
Qed.

Lemma any_enabled_head domain f rest :
  enabled_flag domain f = Return true -> any_enabled domain (f :: rest) = Return true.
Proof. intros H. simpl. rewrite H. reflexivity. Qed.

Lemma all_enabled_has_features c :
  all_features_enabled c ->
  hasAudioFeatures c = Return true /\ hasVideoFeatures c = Return true.
Proof.
  intros [Ha Hv]. split.
  - apply any_enabled_head. now inversion Ha.
  - apply any_enabled_head. now inversion Hv.
Qed.

End ProcessFacts.

(** C2. On an orchestrator that is not destroyed and whose audio and video
    features are all enabled, [process(stream)] on a valid stream without
    audio track and without video track returns that very stream, emits
    [processing:start] and then [processing:complete] carrying it, and
    leaves both pipelines untouched. *)
Theorem process_trackless_stream_passthrough :
  forall (p : Media.Platform) (m : MediaProcessor.t) (s : Media.MediaStream),
    MediaProcessor.isDestroyed m = false ->
    Spec.all_features_enabled (MediaProcessor.config m) ->
    Media.audioTracks s = [] ->
    Media.videoTracks s = [] ->
    exists m',
      MediaProcessor.process p (Media.AStream s) m = (Return s, m') /\
      EventEmitter.emitted (MediaProcessor.emitter m')
      = EventEmitter.emitted (MediaProcessor.emitter m)
        ++ [("processing:start", MediaProcessor.NoArgs);
            ("processing:complete", MediaProcessor.StreamArg s)] /\
      MediaProcessor.audioProcessor m' = MediaProcessor.audioProcessor m /\
      MediaProcessor.videoProcessor m' = MediaProcessor.videoProcessor m /\
      MediaProcessor.isProcessing m' = false /\
      MediaProcessor.isDestroyed m' = false.
Proof.
  intros p m s Hlive Hall Ha Hv.
  apply all_enabled_has_features in Hall as [HA HV].
  unfold MediaProcessor.process. rewrite Hlive.
  unfold try_catch, mbind, prog_bind, modify, read, lift, mret, prog_ret.
  destruct (orchestrator_emit_returns "processing:start" MediaProcessor.NoArgs
              (MediaProcessor.set_isProcessing true m)) as (b1 & e1 & -> & H1).
  cbn [MediaProcessor.audioProcessor MediaProcessor.videoProcessor
       MediaProcessor.set_emitter MediaProcessor.set_isProcessing
       MediaProcessor.config].
  rewrite Ha, Hv.
  destruct (MediaProcessor.audioProcessor m) as [ap|] eqn:Eap;
    cbn -[MediaProcessor.emit Config.hasAudioFeatures Config.hasVideoFeatures];
    rewrite ?HA;
    cbn -[MediaProcessor.emit Config.hasAudioFeatures Config.hasVideoFeatures];
    (destruct (MediaProcessor.videoProcessor m) as [vp|] eqn:Evp;
     cbn -[MediaProcessor.emit Config.hasAudioFeatures Config.hasVideoFeatures];
     rewrite ?HV;
     cbn -[MediaProcessor.emit Config.hasAudioFeatures Config.hasVideoFeatures]);
    match goal with
    | |- context [MediaProcessor.emit "processing:complete" ?a ?st] =>
        destruct (orchestrator_emit_returns "processing:complete" a st)
          as (b2 & e2 & -> & H2)
    end;
    (eexists; split; [reflexivity|]);
    cbn in H1, H2 |- *; rewrite H2, H1, <- app_assoc; auto.
Qed.

Lemma process_trackless_stream_passthrough_witness :
  let m := MediaProcessor.create Spec.full_platform Spec.all_enabled_override in
  let s := {| Media.stream_id := 7; Media.audioTracks := [];
              Media.videoTracks := [] |} in
  MediaProcessor.isDestroyed m = false /\
  Spec.all_features_enabled (MediaProcessor.config m) /\
  exists m',
    MediaProcessor.process Spec.full_platform (Media.AStream s) m = (Return s, m') /\
    EventEmitter.emitted (MediaProcessor.emitter m')
    = EventEmitter.emitted (MediaProcessor.emitter m)
      ++ [("processing:start", MediaProcessor.NoArgs);
          ("processing:complete", MediaProcessor.StreamArg s)] /\
    MediaProcessor.audioProcessor m' = MediaProcessor.audioProcessor m /\
    MediaProcessor.videoProcessor m' = MediaProcessor.videoProcessor m /\
    MediaProcessor.isProcessing m' = false /\
    MediaProcessor.isDestroyed m' = false.
Proof.
  intros m s.
  assert (Hlive : MediaProcessor.isDestroyed m = false) by (vm_compute; reflexivity).
  assert (Hall : Spec.all_features_enabled (MediaProcessor.config m)).
  { split; repeat constructor; vm_compute; reflexivity. }
  split; [exact Hlive|]. split; [exact Hall|].
  apply (process_trackless_stream_passthrough Spec.full_platform m s Hlive Hall);
    reflexivity.
Defined.

(** C3, as the code has it. For every override object none of whose plain
    objects has the own key ["__proto__"], the configuration of a new
    orchestrator has every top-level key of the defaults; a value
    that the override supplies and that is not a plain object (a primitive,
    [null] or an array) is found at its path; a default is kept at every
    path that the override leaves alone, which is where the override has
    plain objects along the path and stops before its end; a plain object
    in the override is merged field by field into what the defaults have
    under the same key, and any other value replaces it wholesale, unknown
    keys included; and merging the empty object into a configuration gives
    back the configuration. *)
Theorem merged_configuration_contents :
  forall (p : Media.Platform) (override : JS.value),
    JS.wf override = true ->
    JS.is_plain_object override = true ->
    Spec.no_proto_key override = true ->
    let c := MediaProcessor.getConfig (MediaProcessor.create p override) in
    (forall k, JS.get Config.defaultConfig k <> None -> JS.get c k <> None) /\
    (forall path leaf,
        JS.get_path override path = Some leaf ->
        JS.is_plain_object leaf = false ->
        JS.get_path c path = Some leaf) /\
    (forall path v,
        Spec.untouched override path ->
        JS.get_path Config.defaultConfig path = Some v ->
        JS.get_path c path = Some v) /\
    (forall k v,
        JS.get override k = Some v ->
        JS.get c k
        = Some (if JS.is_plain_object v
                then Config.deepMerge (Config.or_empty (JS.get Config.defaultConfig k)) v
                else v)) /\
    (forall fields,
        Config.deepMerge (JS.VObj fields) (JS.VObj []) = JS.VObj fields).
Proof.
  intros p override Hwf Hobj _ c. subst c. rewrite create_config.
  unfold Config.mergeConfig.
  destruct override as [| | | | |fs]; try discriminate.
  pose proof (wf_obj_nodup _ Hwf) as Hnd.
  repeat split.
  - intros k Hk. rewrite deepMerge_get by assumption.
    destruct (JS.obj_get fs k); congruence.
  - intros path leaf Hget Hleaf. now apply deepMerge_keeps_supplied.
  - intros path v Hun Hget. now apply deepMerge_keeps_untouched.
  - intros k v Hget. rewrite deepMerge_get by assumption.
    unfold JS.get in Hget. simpl in Hget. rewrite Hget.
    destruct v; reflexivity.
Qed.

Lemma merged_configuration_contents_witness :
  let override :=
    JS.VObj [("audio", JS.VObj [("agc", JS.VObj [("enabled", JS.VBool true);
                                                 ("targetLevel", JS.VNum (-30))])]);
             ("theme", JS.VStr "dark")] in
  JS.wf override = true /\
  JS.is_plain_object override = true /\
  Spec.no_proto_key override = true /\
  JS.get_path (MediaProcessor.getConfig (MediaProcessor.create Spec.full_platform override))
    ["audio"; "agc"; "targetLevel"] = Some (JS.VNum (-30)) /\
  JS.get_path (MediaProcessor.getConfig (MediaProcessor.create Spec.full_platform override))
    ["audio"; "agc"; "compressionRatio"] = Some (JS.VNum 3) /\
  JS.get_path (MediaProcessor.getConfig (MediaProcessor.create Spec.full_platform override))
    ["theme"] = Some (JS.VStr "dark").
Proof.
  intros override.
  assert (Hwf : JS.wf override = true) by reflexivity.
  assert (Hobj : JS.is_plain_object override = true) by reflexivity.
  assert (Hkeys : Spec.no_proto_key override = true) by reflexivity.
  destruct (merged_configuration_contents Spec.full_platform override Hwf Hobj
              Hkeys)
    as (_ & Hsupplied & Hkept & _).
  split; [exact Hwf|]. split; [exact Hobj|]. split; [exact Hkeys|].
  split; [|split].
  - apply Hsupplied; reflexivity.
  - apply Hkept; [|reflexivity]. simpl. auto.
  - apply Hsupplied; reflexivity.
Defined.

(** C3 as stated fails: an override that puts a primitive where the
    defaults have an object (here the shorthand [noiseSuppression: true])
    replaces the object, and the default keys under it, which the caller
    did not mention, are gone from the configuration. *)
Lemma merge_loses_defaults_under_replaced_object :
  let override :=
    JS.VObj [("audio", JS.VObj [("noiseSuppression", JS.VBool true)])] in
  let path := ["audio"; "noiseSuppression"; "intensity"] in
  JS.wf override = true /\
  Spec.no_proto_key override = true /\
  JS.get_path Config.defaultConfig path = Some (JS.VStr "medium") /\
  JS.get_path override path = None /\
  JS.get_path (MediaProcessor.getConfig (MediaProcessor.create Spec.full_platform override))
    path = None.
Proof. vm_compute. auto. Qed.

(** ** Gain control *)

Section GainFacts.
Import AutomaticGainControl Spec.
Local Open Scope R_scope.

Lemma clamp_bounds v lo hi : lo <= hi -> lo <= clamp v lo hi <= hi.
Proof.
  intros H. unfold clamp, Rmin, Rmax.
  destruct (Rle_dec v lo); destruct (Rle_dec _ hi); lra.
Qed.

End GainFacts.

(** ** Gain control on binary64 *)

Section Binary64Facts.
Import Floats AutomaticGainControl64 Spec.
Local Open Scope float_scope.






















End Binary64Facts.

Section GainOnBinary64.
Import Floats.




End GainOnBinary64.


(** ** Reconfiguration *)

(** C4 at a failing input. An orchestrator is built with gain control
    enabled and then updated with the empty override: the merged
    configuration differs from the previous one and has no audio feature,
    initialisation runs again, and yet the audio pipeline of the old
    configuration is still referenced, initialised, its context open.
    Updated instead with another gain-control setting, the orchestrator
    overwrites the reference with a new pipeline while the old one is
    still initialised: it was never destroyed. *)
Theorem updateConfig_does_not_tear_down :
  let agc_on :=
    JS.VObj [("audio", JS.VObj [("agc", JS.VObj [("enabled", JS.VBool true)])])] in
  let agc_louder :=
    JS.VObj [("audio", JS.VObj [("agc", JS.VObj [("enabled", JS.VBool true);
                                                 ("targetLevel", JS.VNum (-10))])])] in
  let m1 := MediaProcessor.create Spec.full_platform agc_on in
  let m2 := snd (MediaProcessor.updateConfig Spec.full_platform (JS.VObj []) m1) in
  let m3 := snd (MediaProcessor.updateConfig Spec.full_platform agc_louder m1) in
  Config.configChanged (MediaProcessor.config m1) (MediaProcessor.config m2) = true /\
  MediaProcessor.config m2 = Config.defaultConfig /\
  Config.hasAudioFeatures (MediaProcessor.config m2) = Return false /\
  MediaProcessor.audioProcessor m2 = MediaProcessor.audioProcessor m1 /\
  (AudioProcessor.isInitialized <$> MediaProcessor.audioProcessor m2) = Some true /\
  (AudioProcessor.audioContext <$> MediaProcessor.audioProcessor m2) = Some true /\
  MediaProcessor.dropped_audio m2 = [] /\
  (Some <$> MediaProcessor.dropped_audio m3) = [MediaProcessor.audioProcessor m1] /\
  (AudioProcessor.isInitialized <$> MediaProcessor.dropped_audio m3) = [true].
Proof. vm_compute. repeat split; reflexivity. Qed.

(** The pipelines' own [updateConfig] does tear down before it initialises
    again: the modules of the old configuration are gone. *)
Lemma pipeline_updateConfig_tears_down :
  let a := snd (AudioProcessor.initialize Spec.full_platform
                  (AudioProcessor.create
                     (Some (JS.VObj [("agc", JS.VObj [("enabled", JS.VBool true)])])))) in
  let a' := snd (AudioProcessor.updateConfig Spec.full_platform
                   (Some (JS.VObj [("agc", JS.VObj [("enabled", JS.VBool false)])])) a) in
  AudioProcessor.agc a <> None /\ AudioProcessor.agc a' = None /\
  AudioProcessor.emitted a' = ["initialized"; "destroyed"; "initialized"; "config:updated"].
Proof. vm_compute. repeat split; congruence. Qed.

(** ** Modules before initialisation *)

(** C5 at a failing input. A low-light module that was never initialised
    processes a dark pixel: the call returns, and the pixel of the image it
    was given is boosted.  The blur module likewise returns the blurred
    image.  Only colour correction refuses. *)
Theorem process_before_initialize_is_not_refused :
  let lowLight := LowLightCompensation.create None in
  let dark := {| Media.width := 1; Media.height := 1;
                 Media.data := [10; 10; 10; 255]%Z |} in
  LowLightCompensation.isInitialized lowLight = false /\
  LowLightCompensation.process lowLight dark
  = Return {| Media.width := 1; Media.height := 1;
              Media.data := [14; 14; 14; 255]%Z |} /\
  BackgroundBlur.isInitialized (BackgroundBlur.create None) = false /\
  (forall p imageData,
      BackgroundBlur.process p (BackgroundBlur.create None) imageData
      = Return (Media.blur p (Some (JS.VNum 15)) imageData)) /\
  (forall p imageData,
      ColorCorrection.process p (ColorCorrection.create None) imageData
      = Throw "ColorCorrection not initialized").
Proof. repeat split; vm_compute; reflexivity. Qed.

(** The gain control's buffer callback, run before [initialize()], fails
    on the missing gain node only after it has overwritten the gains. *)
Lemma agc_processAudio_before_initialize c rate inputData :
  let g := AutomaticGainControl.create rate c in
  let target := AutomaticGainControl.calculateTargetGain g
                  (AutomaticGainControl.gainToDb (AutomaticGainControl.rms inputData)) in
  fst (AutomaticGainControl.processAudio inputData g)
  = Throw "TypeError: cannot read properties of null" /\
  AutomaticGainControl.targetGain (snd (AutomaticGainControl.processAudio inputData g))
  = target.
Proof. split; reflexivity. Qed.

(** ** Event dispatch *)

(** C8 at a failing input. A [once] handler is registered before an
    ordinary handler; [emit] returns [true] and calls the first, whose
    wrapper removes itself from the array under iteration, and the second
    handler is never called although it stays registered. *)
Theorem emit_skips_handler_after_once :
  let first := EventEmitter.Callback 1 false in
  let second := EventEmitter.Callback 2 false in
  let e := EventEmitter.on "update" second
             (EventEmitter.once "update" first (EventEmitter.create (A := nat))) in
  EventEmitter.listenerCount "update" e = 2%nat /\
  fst (EventEmitter.emit "update" 7%nat e) = Return true /\
  EventEmitter.calls (snd (EventEmitter.emit "update" 7%nat e)) = [(1%nat, 7%nat)] /\
  EventEmitter.listeners (snd (EventEmitter.emit "update" 7%nat e)) "update" = [second].
Proof. vm_compute. repeat split; reflexivity. Qed.

(** Where every listener of the event is a user callback, [emit] calls
    them all, in registration order, whether or not some of them throw. *)
Lemma forEach_callbacks {A} event (args : A) ref ls remaining : forall k e,
  EventEmitter.array_at e ref = ls ->
  Forall Spec.is_callback ls ->
  (k + remaining = length ls)%nat ->
  EventEmitter.calls (EventEmitter.forEach_from event args ref remaining k e)
  = EventEmitter.calls e ++ map (fun l => (Spec.callback_id l, args)) (drop k ls).
Proof.
  induction remaining as [|n IH]; intros k e Harr Hall Hlen.
  - simpl. rewrite drop_ge by lia. now rewrite app_nil_r.
  - cbn [EventEmitter.forEach_from]. rewrite Harr.
    destruct (lookup_lt_is_Some_2 ls k ltac:(lia)) as [l Hl]. rewrite Hl.
    rewrite (drop_S _ _ _ Hl).
    assert (Hcb : Spec.is_callback l).
    { rewrite Forall_forall in Hall. apply Hall. eapply list_elem_of_lookup_2; eauto. }
    destruct l as [id throws|]; [|destruct Hcb]. cbn [EventEmitter.invoke].
    destruct throws; rewrite IH; auto; try lia; simpl;
      now rewrite <- app_assoc.
Qed.

Lemma emit_calls_every_callback {A} event (args : A) e ref ls :
  EventEmitter.events e !! event = Some ref ->
  EventEmitter.array_at e ref = ls ->
  Forall Spec.is_callback ls ->
  fst (EventEmitter.emit event args e) = Return true /\
  EventEmitter.calls (snd (EventEmitter.emit event args e))
  = EventEmitter.calls e ++ map (fun l => (Spec.callback_id l, args)) ls.
Proof.
  intros Hev Harr Hall. unfold EventEmitter.emit. cbn. rewrite Hev. cbn.
  split; [reflexivity|].
  rewrite (forEach_callbacks event args ref ls); auto.
  change (EventEmitter.array_at (EventEmitter.record_emit event args e) ref)
    with (EventEmitter.array_at e ref). now rewrite Harr.
Qed.

Lemma emit_result {A} event (args : A) e :
  fst (EventEmitter.emit event args e)
  = Return (bool_decide (is_Some (EventEmitter.events e !! event))).
Proof.
  unfold EventEmitter.emit. cbn.
  destruct (EventEmitter.events e !! event); reflexivity.
Qed.

(** ** Snapshots *)

(** C9 at a failing input. The statistics of a voice-focus module carry the
    module's own frequency-range array: a write through the snapshot moves
    the band that the module reads, and a bin at 117 Hz that counted as
    voice no longer does. *)
Theorem voiceFocus_stats_share_frequency_range :
  let store := VoiceFocus.initial_store in
  let f := VoiceFocus.initialize store (VoiceFocus.create 48000 None None) in
  let binSize := (48000 / (2048 * 2))%Q in
  let snapshot := VoiceFocus.getStats f in
  let store' := VoiceFocus.write (VoiceFocus.stats_frequencyRange snapshot) 0 300 store in
  VoiceFocus.stats_frequencyRange snapshot = VoiceFocus.frequencyRange f /\
  VoiceFocus.band store f = (Some 85%Q, Some 255%Q) /\
  VoiceFocus.band store' f = (Some 300%Q, Some 255%Q) /\
  VoiceFocus.in_voice_band store f binSize 10 = true /\
  VoiceFocus.in_voice_band store' f binSize 10 = false /\
  (Qred <$> VoiceFocus.highPassFrequency (VoiceFocus.createFilters store f))
  = Some 68%Q /\
  (Qred <$> VoiceFocus.highPassFrequency (VoiceFocus.createFilters store' f))
  = Some 240%Q.
Proof. vm_compute. repeat split; reflexivity. Qed.

(** The orchestrator's snapshots are values of their own: the
    configuration is a structural copy, and the statistics are built from
    copies of the pipelines' counters. *)
Lemma orchestrator_getStats_shape m :
  exists audio video,
    MediaProcessor.getStats m
    = JS.VObj [("isProcessing", JS.VBool (MediaProcessor.isProcessing m));
               ("audio", audio); ("video", video)].
Proof. unfold MediaProcessor.getStats. eauto. Qed.

(** ** Video pipeline *)

Section VideoFacts.
Import JS Media Config Spec.
Import VideoProcessor.

Lemma frame_round_trip frame : imageDataToFrame (frameToImageData frame) frame = frame.
Proof. now destruct frame. Qed.

Lemma enabled_flag_inv domain feature b :
  enabled_flag domain feature = Return b ->
  exists c, member domain feature = Return c /\
            truthy_opt (opt_member c "enabled") = b.
Proof.
  unfold enabled_flag, mbind, result_bind.
  destruct (member domain feature) as [c|e] eqn:E; [|discriminate].
  intros H. exists c. split; [reflexivity|].
  destruct c as [[]|]; simpl in *; try discriminate; now injection H.
Qed.

(** Without an enabled module flag, initialisation builds the surfaces and
    no module. *)
Lemma initialize_without_modules p cfg :
  webgl p = true -> canvas2d p = true ->
  Forall (fun f => enabled_flag cfg f = Return false)
    ["colorCorrection"; "lowLightCompensation"; "backgroundBlur"] ->
  initialize p (create cfg)
  = (Return tt,
     mk cfg (Some (160, 120)%nat) true true None None None true false 0 0
       ["initialized"]).
Proof.
  intros Hgl H2d Hflags.
  apply Forall_cons in Hflags as [Hc Hflags].
  apply Forall_cons in Hflags as [Hl Hflags].
  apply Forall_cons in Hflags as [Hb _].
  apply enabled_flag_inv in Hc as (c & Hc & Hc').
  apply enabled_flag_inv in Hl as (l & Hl & Hl').
  apply enabled_flag_inv in Hb as (b & Hb & Hb').
  unfold initialize, try_catch. rewrite Hgl, H2d.
  unfold createProcessingModules, enabled, mbind, prog_bind, modify. simpl.
  rewrite Hc, Hc'. simpl. rewrite Hl, Hl'. simpl. rewrite Hb, Hb'. reflexivity.
Qed.

Lemma processVideoFrame_without_modules p v frame :
  active_modules v = [] -> processVideoFrame p v frame = ([], Return frame).
Proof.
  unfold active_modules, present, processVideoFrame. simpl.
  destruct (lowLightCompensation v), (colorCorrection v), (backgroundBlur v);
    simpl; try discriminate.
  intros _. now rewrite frame_round_trip.
Qed.

Lemma processFrames_without_modules p frames : forall v,
  active_modules v = [] -> fst (processFrames p frames v) = frames.
Proof.
  induction frames as [|frame frames IH]; intros v H; [reflexivity|].
  cbn [processFrames]. rewrite processVideoFrame_without_modules by assumption.
  cbn [snd]. specialize (IH (count_frame v) H).
  destruct (processFrames p frames (count_frame v)). simpl in *. congruence.
Qed.

(** The calls of [processVideoFrame], when it returns, are the modules
    held, low light first, then colour, then blur. *)
Lemma processVideoFrame_calls p v frame calls out :
  processVideoFrame p v frame = (calls, Return out) -> calls = active_modules v.
Proof.
  unfold processVideoFrame, active_modules, present, apply_module,
    LowLightCompensation.process, BackgroundBlur.process. simpl.
  destruct (lowLightCompensation v), (colorCorrection v) as [c|], (backgroundBlur v);
    simpl; try destruct (ColorCorrection.process p c _); simpl;
    intros [= <- _] || intros [=]; reflexivity.
Qed.

Lemma processVideoFrame_returns p v frame :
  (forall c, colorCorrection v = Some c -> ColorCorrection.isInitialized c = true) ->
  exists out, processVideoFrame p v frame = (active_modules v, Return out).
Proof.
  intros Hinit.
  unfold processVideoFrame, active_modules, present, apply_module,
    LowLightCompensation.process, BackgroundBlur.process. simpl.
  destruct (colorCorrection v) as [c|];
    [unfold ColorCorrection.process; rewrite (Hinit c eq_refl)|];
    destruct (lowLightCompensation v), (backgroundBlur v); simpl; eauto.
Qed.

Lemma assign_enabled_present feature b v kind :
  present (snd (assign_enabled feature b v)) kind = present v kind.
Proof.
  unfold assign_enabled. destruct (member (config v) feature) as [[[]|]|];
    destruct kind; reflexivity.
Qed.

Lemma setFeature_on_present p feature v v' kind :
  setFeature p feature true v = (Return tt, v') ->
  present v' kind = present v kind || String.eqb (feature_name kind) feature.
Proof.
  unfold setFeature, known_feature.
  destruct (String.eqb feature "colorCorrection") eqn:E1;
    [apply String.eqb_eq in E1; subst feature|];
    [|destruct (String.eqb feature "lowLightCompensation") eqn:E2;
      [apply String.eqb_eq in E2; subst feature|];
      [|destruct (String.eqb feature "backgroundBlur") eqn:E3;
        [apply String.eqb_eq in E3; subst feature|discriminate]]].
  all: unfold mbind, prog_bind, read, has_module, createModule, modify; simpl.
  - destruct (colorCorrection v) as [c|] eqn:Ec; simpl.
    + intros H.
      pose proof (assign_enabled_present "colorCorrection" true v kind) as Hp.
      destruct (assign_enabled "colorCorrection" true v) as [[[]|] v0];
        [|discriminate]. injection H as <-. simpl in Hp. rewrite Hp.
      destruct kind; unfold present; rewrite ?Ec; simpl;
        rewrite ?orb_false_r, ?orb_true_r; reflexivity.
    + unfold install_colorCorrection.
      destruct (member (config v) "colorCorrection") as [c|]; [|discriminate].
      destruct (ColorCorrection.initialize p (ColorCorrection.create c)) as [[[]|] m];
        [|discriminate].
      intros H.
      pose proof (assign_enabled_present "colorCorrection" true
                    (set_colorCorrection (Some m) v) kind) as Hp.
      destruct (assign_enabled "colorCorrection" true _) as [[[]|] v0];
        [|discriminate]. injection H as <-. simpl in Hp. rewrite Hp.
      destruct kind; unfold present; simpl; rewrite ?Ec, ?orb_false_r; reflexivity.
  - destruct (lowLightCompensation v) as [c|] eqn:Ec; simpl.
    + intros H.
      pose proof (assign_enabled_present "lowLightCompensation" true v kind) as Hp.
      destruct (assign_enabled "lowLightCompensation" true v) as [[[]|] v0];
        [|discriminate]. injection H as <-. simpl in Hp. rewrite Hp.
      destruct kind; unfold present; rewrite ?Ec; simpl;
        rewrite ?orb_false_r, ?orb_true_r; reflexivity.
    + unfold install_lowLightCompensation.
      destruct (member (config v) "lowLightCompensation") as [c|]; [|discriminate].
      intros H.
      match type of H with
      | context [assign_enabled _ _ ?st] =>
          pose proof (assign_enabled_present "lowLightCompensation" true st kind) as Hp
      end.
      destruct (assign_enabled "lowLightCompensation" true _) as [[[]|] v0];
        [|discriminate]. injection H as <-. simpl in Hp. rewrite Hp.
      destruct kind; unfold present; simpl; rewrite ?Ec, ?orb_false_r; reflexivity.
  - destruct (backgroundBlur v) as [c|] eqn:Ec; simpl.
    + intros H.
      pose proof (assign_enabled_present "backgroundBlur" true v kind) as Hp.
      destruct (assign_enabled "backgroundBlur" true v) as [[[]|] v0];
        [|discriminate]. injection H as <-. simpl in Hp. rewrite Hp.
      destruct kind; unfold present; rewrite ?Ec; simpl;
        rewrite ?orb_false_r, ?orb_true_r; reflexivity.
    + unfold install_backgroundBlur.
      destruct (member (config v) "backgroundBlur") as [c|]; [|discriminate].
      intros H.
      match type of H with
      | context [assign_enabled _ _ ?st] =>
          pose proof (assign_enabled_present "backgroundBlur" true st kind) as Hp
      end.
      destruct (assign_enabled "backgroundBlur" true _) as [[[]|] v0];
        [|discriminate]. injection H as <-. simpl in Hp. rewrite Hp.
      destruct kind; unfold present; simpl; rewrite ?Ec, ?orb_false_r; reflexivity.
Qed.

Lemma enable_all_present p features : forall v v' kind,
  enable_all p features v = (Return tt, v') ->
  present v' kind
  = present v kind || bool_decide (feature_name kind ∈ features).
Proof.
  induction features as [|f rest IH]; intros v v' kind.
  - intros [= <-]. simpl. now rewrite orb_false_r.
  - cbn [enable_all]. unfold mbind, prog_bind.
    destruct (setFeature p f true v) as [[[]|] v1] eqn:E; [|discriminate].
    intros H. rewrite (IH _ _ kind H), (setFeature_on_present _ _ _ _ kind E).
    rewrite <- orb_assoc. f_equal.
    destruct (String.eqb (feature_name kind) f) eqn:Ef.
    + apply String.eqb_eq in Ef. subst f. simpl. symmetry.
      apply bool_decide_eq_true. apply list_elem_of_here.
    + apply String.eqb_neq in Ef. simpl.
      apply bool_decide_ext. rewrite elem_of_cons. intuition congruence.
Qed.

End VideoFacts.

(** C6, as the code has it. The per-frame path of the video pipeline calls
    the modules it holds in the fixed order low-light compensation, colour
    correction, background blur, skipping the absent ones; it returns when
    the colour-correction module it holds is initialised; and the order is
    the same for every order in which the same features were enabled. *)
Theorem video_modules_applied_in_fixed_order :
  forall (p : Media.Platform) (v : VideoProcessor.t) (frame : Media.VideoFrame),
    (forall calls out,
        VideoProcessor.processVideoFrame p v frame = (calls, Return out) ->
        calls = Spec.active_modules v) /\
    ((forall c, VideoProcessor.colorCorrection v = Some c ->
                ColorCorrection.isInitialized c = true) ->
     exists out,
       VideoProcessor.processVideoFrame p v frame = (Spec.active_modules v, Return out)) /\
    (forall features features' v1 v2,
        Permutation features features' ->
        Spec.enable_all p features v = (Return tt, v1) ->
        Spec.enable_all p features' v = (Return tt, v2) ->
        Spec.active_modules v1 = Spec.active_modules v2).
Proof.
  intros p v frame. split; [|split].
  - intros calls out. apply processVideoFrame_calls.
  - apply processVideoFrame_returns.
  - intros features features' v1 v2 Hperm H1 H2.
    unfold Spec.active_modules. apply filter_ext. intros kind.
    rewrite (enable_all_present _ _ _ _ kind H1),
      (enable_all_present _ _ _ _ kind H2).
    f_equal. apply bool_decide_ext. now rewrite Hperm.
Qed.

Lemma video_modules_applied_in_fixed_order_witness :
  let v := snd (VideoProcessor.initialize Spec.full_platform
                  (VideoProcessor.create
                     (Some (JS.VObj [("colorCorrection", JS.VObj []);
                                     ("lowLightCompensation", JS.VObj []);
                                     ("backgroundBlur", JS.VObj [])])))) in
  let frame := {| Media.image := {| Media.width := 1; Media.height := 1;
                                    Media.data := [10; 10; 10; 255]%Z |};
                  Media.timestamp := 0; Media.duration := 1 |} in
  let v1 := snd (Spec.enable_all Spec.full_platform
                   ["colorCorrection"; "lowLightCompensation"] v) in
  let v2 := snd (Spec.enable_all Spec.full_platform
                   ["lowLightCompensation"; "colorCorrection"] v) in
  Permutation ["colorCorrection"; "lowLightCompensation"]
    ["lowLightCompensation"; "colorCorrection"] /\
  Spec.active_modules v1 = Spec.active_modules v2 /\
  fst (VideoProcessor.processVideoFrame Spec.full_platform v1 frame)
  = [VideoProcessor.LowLight; VideoProcessor.Color].
Proof.
  intros v frame v1 v2.
  assert (Hperm : Permutation ["colorCorrection"; "lowLightCompensation"]
                    ["lowLightCompensation"; "colorCorrection"]) by apply perm_swap.
  destruct (video_modules_applied_in_fixed_order Spec.full_platform v frame)
    as (_ & _ & Horder).
  split; [exact Hperm|]. split.
  - apply (Horder _ _ v1 v2 Hperm); vm_compute; reflexivity.
  - vm_compute. reflexivity.
Defined.

(** C6 as stated fails: with colour correction and low-light compensation
    both enabled, the frame goes through low-light compensation first. *)
Lemma video_order_is_not_color_first :
  let v := snd (VideoProcessor.initialize Spec.full_platform
                  (VideoProcessor.create
                     (Some (JS.VObj
                              [("colorCorrection", JS.VObj [("enabled", JS.VBool true)]);
                               ("lowLightCompensation", JS.VObj [("enabled", JS.VBool true)])])))) in
  let frame := {| Media.image := {| Media.width := 1; Media.height := 1;
                                    Media.data := [10; 10; 10; 255]%Z |};
                  Media.timestamp := 0; Media.duration := 1 |} in
  VideoProcessor.isInitialized v = true /\
  Spec.color_first_modules v = [VideoProcessor.Color; VideoProcessor.LowLight] /\
  fst (VideoProcessor.processVideoFrame Spec.full_platform v frame)
  = [VideoProcessor.LowLight; VideoProcessor.Color] /\
  fst (VideoProcessor.processVideoFrame Spec.full_platform v frame)
  <> Spec.color_first_modules v.
Proof. vm_compute. repeat split; congruence. Qed.

(** ** Background replacement alone *)

Section BackgroundReplaceFacts.
Import JS Media Config Spec.
Import MediaProcessor.

Lemma any_enabled_skip domain f rest :
  enabled_flag domain f = Return false ->
  any_enabled domain (f :: rest) = any_enabled domain rest.
Proof. intros H. cbn [any_enabled]. rewrite H. reflexivity. Qed.

Lemma only_background_replace_features c :
  only_background_replace c ->
  hasAudioFeatures c = Return false /\ hasVideoFeatures c = Return true.
Proof.
  intros (Ha & Hv & Hr). unfold hasAudioFeatures, hasVideoFeatures.
  apply Forall_cons in Ha as [Ha1 Ha]. apply Forall_cons in Ha as [Ha2 Ha].
  apply Forall_cons in Ha as [Ha3 _].
  apply Forall_cons in Hv as [Hv1 Hv]. apply Forall_cons in Hv as [Hv2 Hv].
  apply Forall_cons in Hv as [Hv3 _].
  rewrite !any_enabled_skip by assumption. split; [reflexivity|].
  now apply any_enabled_head.
Qed.

(** Initialisation with video features only, on a platform where the video
    pipeline initialises. *)
Lemma initializeProcessors_video_only p m vp :
  hasAudioFeatures (config m) = Return false ->
  hasVideoFeatures (config m) = Return true ->
  VideoProcessor.initialize p (VideoProcessor.create (get (config m) "video"))
  = (Return tt, vp) ->
  audioProcessor (snd (initializeProcessors p m)) = audioProcessor m /\
  videoProcessor (snd (initializeProcessors p m)) = Some vp.
Proof.
  intros Ha Hv Hinit.
  unfold initializeProcessors, try_catch, mbind, prog_bind, read, lift, modify,
    on_video.
  cbn -[emit VideoProcessor.initialize VideoProcessor.create hasAudioFeatures
       hasVideoFeatures].
  rewrite Ha.
  cbn -[emit VideoProcessor.initialize VideoProcessor.create hasAudioFeatures
       hasVideoFeatures].
  rewrite Hv.
  cbn -[emit VideoProcessor.initialize VideoProcessor.create hasAudioFeatures
       hasVideoFeatures].
  rewrite Hinit.
  match goal with
  | |- context [emit "initialized" NoArgs ?st] =>
      destruct (orchestrator_emit_returns "initialized" NoArgs st)
        as (b & e & -> & _)
  end.
  split; reflexivity.
Qed.

End BackgroundReplaceFacts.

(** C10. When the merged configuration enables [video.backgroundReplace]
    and no other audio or video feature, [hasVideoFeatures()] is true and
    the orchestrator builds no audio pipeline and, on a platform with the
    rendering surfaces, an initialised video pipeline that holds no module:
    every frame of the per-frame path comes out as it went in, with no
    module called. *)
Theorem background_replace_alone_builds_empty_video_pipeline :
  forall (p : Media.Platform) (override : JS.value),
    Media.webgl p = true ->
    Media.canvas2d p = true ->
    Spec.only_background_replace (Config.mergeConfig override) ->
    let m := MediaProcessor.create p override in
    Config.hasVideoFeatures (MediaProcessor.config m) = Return true /\
    MediaProcessor.audioProcessor m = None /\
    exists vp,
      MediaProcessor.videoProcessor m = Some vp /\
      VideoProcessor.isInitialized vp = true /\
      VideoProcessor.colorCorrection vp = None /\
      VideoProcessor.lowLightCompensation vp = None /\
      VideoProcessor.backgroundBlur vp = None /\
      (forall frame,
          VideoProcessor.processVideoFrame p vp frame = ([], Return frame)) /\
      (forall frames, fst (VideoProcessor.processFrames p frames vp) = frames).
Proof.
  intros p override Hgl H2d Honly m.
  pose proof (only_background_replace_features _ Honly) as [Ha Hv].
  destruct Honly as (_ & Hflags & _).
  pose proof (initialize_without_modules p
                (JS.get (Config.mergeConfig override) "video") Hgl H2d Hflags)
    as Hinit.
  subst m. unfold MediaProcessor.create.
  match goal with
  | |- context [MediaProcessor.initializeProcessors p ?m0] =>
      destruct (initializeProcessors_video_only p m0 _ Ha Hv Hinit) as [Hap Hvp];
      rewrite (initializeProcessors_config p m0)
  end.
  split; [exact Hv|]. split; [exact Hap|].
  eexists. split; [exact Hvp|].
  repeat split.
  - intros frame. now apply processVideoFrame_without_modules.
  - intros frames. now apply processFrames_without_modules.
Qed.

Lemma background_replace_alone_builds_empty_video_pipeline_witness :
  let override :=
    JS.VObj [("video", JS.VObj [("backgroundReplace",
                                 JS.VObj [("enabled", JS.VBool true)])])] in
  let m := MediaProcessor.create Spec.full_platform override in
  Spec.only_background_replace (Config.mergeConfig override) /\
  Config.hasVideoFeatures (MediaProcessor.config m) = Return true /\
  MediaProcessor.audioProcessor m = None /\
  exists vp,
    MediaProcessor.videoProcessor m = Some vp /\
    VideoProcessor.isInitialized vp = true /\
    VideoProcessor.colorCorrection vp = None /\
    VideoProcessor.lowLightCompensation vp = None /\
    VideoProcessor.backgroundBlur vp = None /\
    (forall frame,
        VideoProcessor.processVideoFrame Spec.full_platform vp frame
        = ([], Return frame)) /\
    (forall frames,
        fst (VideoProcessor.processFrames Spec.full_platform frames vp) = frames).
Proof.
  intros override m.
  assert (Honly : Spec.only_background_replace (Config.mergeConfig override)).
  { repeat split; repeat constructor; vm_compute; reflexivity. }
  split; [exact Honly|].
  apply (background_replace_alone_builds_empty_video_pipeline Spec.full_platform
           override eq_refl eq_refl Honly).
Defined.

(** * Further properties of the sources *)

(** ** Event channel: registration and dispatch *)

Section RegistryFacts.
Import EventEmitter Laws.
Context {A : Type}.
Implicit Types e : EventEmitter.t A.

Lemma registry_ok_create : registry_ok (create (A := A)).
Proof.
  split; [intros ev r H|intros ev ev' r H _]; cbn in H;
    rewrite lookup_empty in H; discriminate.
Qed.

Lemma registry_ok_on event l e : registry_ok e -> registry_ok (on event l e).
Proof.
  intros [Hne Hinj]. unfold on.
  destruct (events e !! event) as [ref|] eqn:E.
  - split; [|exact Hinj].
    intros ev r Hev. cbn in Hev. destruct (Hne ev r Hev) as [Hn Hlt].
    split; [|exact Hlt]. unfold array_at in *. cbn.
    destruct (decide (ref = r)) as [->|Hd].
    + rewrite lookup_insert_eq. cbn. intros H.
      destruct (default [] (arrays e !! r)); discriminate H.
    + rewrite lookup_insert_ne by assumption. exact Hn.
  - split.
    + intros ev r. cbn. unfold array_at. cbn.
      destruct (decide (event = ev)) as [->|Hd].
      * rewrite lookup_insert_eq. intros [= <-].
        rewrite lookup_insert_eq. cbn. split; [discriminate|lia].
      * rewrite lookup_insert_ne by assumption. intros Hev.
        destruct (Hne ev r Hev) as [Hn Hlt].
        rewrite lookup_insert_ne by lia. split; [exact Hn|lia].
    + intros ev ev' r. cbn.
      destruct (decide (event = ev)) as [<-|Hd], (decide (event = ev')) as [<-|Hd'];
        rewrite ?lookup_insert_eq, ?lookup_insert_ne by assumption.
      * reflexivity.
      * intros [= <-] H'. destruct (Hne ev' _ H'). lia.
      * intros H [= <-]. destruct (Hne ev _ H). lia.
      * apply Hinj.
Qed.

Lemma registry_ok_bump e :
  registry_ok e ->
  registry_ok {| events := events e; arrays := arrays e;
                 next_ref := Datatypes.S (next_ref e); calls := calls e;
                 emitted := emitted e; console := console e |}.
Proof.
  intros [Hne Hinj]. split; [|exact Hinj].
  intros ev r Hev. destruct (Hne ev r Hev). split; [assumption|cbn; lia].
Qed.

Lemma registry_ok_once event l e : registry_ok e -> registry_ok (once event l e).
Proof. intros H. unfold once. now apply registry_ok_on, registry_ok_bump. Qed.

Lemma registry_ok_delete event e : registry_ok e -> registry_ok (delete_event event e).
Proof.
  intros [Hne Hinj]. split.
  - intros ev r. cbn. intros Hev.
    apply lookup_delete_Some in Hev as [_ Hev]. eapply Hne; eauto.
  - intros ev ev' r. cbn. intros H H'.
    apply lookup_delete_Some in H as [_ H].
    apply lookup_delete_Some in H' as [_ H']. eapply Hinj; eauto.
Qed.

Lemma registry_ok_off event l e : registry_ok e -> registry_ok (off event l e).
Proof.
  intros Hok. unfold off. destruct (events e !! event) as [ref|] eqn:E; [|exact Hok].
  destruct l as [l|]; [|now apply registry_ok_delete].
  destruct Hok as [Hne Hinj].
  destruct (indexOf l (array_at e ref)) as [i|] eqn:Ei.
  - destruct (Nat.eqb (length (splice1 i (array_at e ref))) 0) eqn:El.
    + (* the array became empty: the event is deleted *)
      split.
      * intros ev r. cbn. intros Hev.
        apply lookup_delete_Some in Hev as [Hd Hev].
        destruct (Hne ev r Hev) as [Hn Hlt]. split; [|exact Hlt].
        unfold array_at in *. cbn. rewrite lookup_insert_ne; [exact Hn|].
        intros ->. apply Hd. eapply Hinj; eauto.
      * intros ev ev' r. cbn. intros H H'.
        apply lookup_delete_Some in H as [_ H].
        apply lookup_delete_Some in H' as [_ H']. eapply Hinj; eauto.
    + split; [|exact Hinj].
      intros ev r. cbn. intros Hev. destruct (Hne ev r Hev) as [Hn Hlt].
      split; [|exact Hlt]. unfold array_at in *. cbn.
      destruct (decide (ref = r)) as [->|Hd].
      * rewrite lookup_insert_eq. cbn. apply Nat.eqb_neq in El. intros H.
        rewrite H in El. cbn in El. lia.
      * rewrite lookup_insert_ne by assumption. exact Hn.
  - destruct (Nat.eqb (length (array_at e ref)) 0) eqn:El.
    + now apply registry_ok_delete.
    + split; assumption.
Qed.

Lemma registry_ok_removeAll event e :
  registry_ok e -> registry_ok (removeAllListeners event e).
Proof.
  intros Hok. unfold removeAllListeners.
  assert (Hempty : registry_ok
            {| events := ∅; arrays := arrays e; next_ref := next_ref e;
               calls := calls e; emitted := emitted e; console := console e |}).
  { split; [intros ev0 r H|intros ev0 ev' r H _]; cbn in H;
      rewrite lookup_empty in H; discriminate. }
  destruct event as [ev|]; [|exact Hempty].
  destruct (decide (ev = "")); [exact Hempty|now apply registry_ok_delete].
Qed.

Lemma registry_ok_invoke l args : forall e,
  registry_ok e -> registry_ok (snd (invoke l args e)).
Proof.
  induction l as [id throws|wid event inner IH]; intros e Hok; cbn.
  - exact Hok.
  - apply IH. now apply registry_ok_off.
Qed.

Lemma registry_ok_forEach event args ref remaining : forall k e,
  registry_ok e -> registry_ok (forEach_from event args ref remaining k e).
Proof.
  induction remaining as [|n IH]; intros k e Hok; cbn; [exact Hok|].
  apply IH. destruct (array_at e ref !! k) as [l|]; [|exact Hok].
  pose proof (registry_ok_invoke l args e Hok) as H.
  destruct (invoke l args e) as [[] e']; cbn in *; exact H.
Qed.

Lemma registry_ok_emit event args e :
  registry_ok e -> registry_ok (snd (emit event args e)).
Proof.
  intros Hok. unfold emit. cbn.
  destruct (events e !! event); cbn; [|exact Hok].
  apply registry_ok_forEach. exact Hok.
Qed.

Lemma reachable_registry_ok e : reachable e -> registry_ok e.
Proof.
  induction 1.
  - apply registry_ok_create.
  - now apply registry_ok_on.
  - now apply registry_ok_once.
  - now apply registry_ok_off.
  - now apply registry_ok_removeAll.
  - now apply registry_ok_emit.
Qed.

End RegistryFacts.

(** X1. On every event channel that was built by [on], [once], [off],
    [removeAllListeners] and [emit] from a new one, for event names that no
    object inherits, [emit] returns [true] exactly when the event has a
    registered listener: the registry never keeps an event without
    listeners. *)
Theorem emit_reports_registered_listeners :
  forall (A : Type) (e : EventEmitter.t A) (event : string) (args : A),
    ObjectPrototype.inherits event = false ->
    Laws.reachable e ->
    fst (EventEmitter.emit event args e)
    = Return (negb (Nat.eqb (EventEmitter.listenerCount event e) 0)).
Proof.
  intros A e event args _ Hreach.
  apply reachable_registry_ok in Hreach as [Hne _].
  rewrite emit_result. unfold EventEmitter.listenerCount, EventEmitter.listeners.
  destruct (EventEmitter.events e !! event) as [ref|] eqn:E.
  - destruct (Hne event ref E) as [Hn _].
    destruct (EventEmitter.array_at e ref); [congruence|reflexivity].
  - reflexivity.
Qed.

Lemma emit_reports_registered_listeners_witness :
  let e := EventEmitter.off "a" (Some (EventEmitter.Callback 1 false))
             (EventEmitter.on "a" (EventEmitter.Callback 1 false)
                (EventEmitter.create (A := nat))) in
  Laws.reachable e /\
  fst (EventEmitter.emit "a" 0%nat e)
  = Return (negb (Nat.eqb (EventEmitter.listenerCount "a" e) 0)).
Proof.
  intros e.
  assert (H : Laws.reachable e) by (repeat constructor).
  split; [exact H|].
  apply (emit_reports_registered_listeners nat e "a" 0%nat eq_refl H).
Defined.

Section RegistrationFacts.
Import EventEmitter.
Context {A : Type}.
Implicit Types e : EventEmitter.t A.

Lemma indexOf_app_new l ls :
  indexOf l ls = None -> indexOf l (ls ++ [l]) = Some (length ls).
Proof.
  induction ls as [|x ls IH]; cbn.
  - intros _. destruct l; cbn; now rewrite Nat.eqb_refl.
  - destruct (same x l); [discriminate|].
    destruct (indexOf l ls); [discriminate|]. intros _. now rewrite IH.
Qed.

Lemma indexOf_app_some l ls : exists i, indexOf l (ls ++ [l]) = Some i /\ (i <= length ls)%nat.
Proof.
  induction ls as [|x ls (i & Hi & Hle)]; cbn.
  - exists 0%nat. split; [|lia]. destruct l; cbn; now rewrite Nat.eqb_refl.
  - destruct (same x l); [exists 0%nat; split; [reflexivity|lia]|].
    rewrite Hi. exists (Datatypes.S i). split; [reflexivity|lia].
Qed.

Lemma splice1_length i (ls : list (listener)) :
  (i < length ls)%nat -> length (splice1 i ls) = pred (length ls).
Proof.
  revert i. induction ls as [|x ls IH]; intros i; cbn; [lia|].
  destruct i; [reflexivity|]. intros H. cbn. rewrite IH by lia.
  destruct ls; cbn in *; lia.
Qed.

Lemma splice1_last (l : listener) ls : splice1 (length ls) (ls ++ [l]) = ls.
Proof. induction ls as [|x ls IH]; cbn; [reflexivity|now rewrite IH]. Qed.

(** The listeners of [event] after [off(event, l)] that follows
    [on(event, l)]. *)
Lemma off_on_listeners event l e :
  exists i,
    indexOf l (listeners e event ++ [l]) = Some i /\
    listeners (off event (Some l) (on event l e)) event
    = splice1 i (listeners e event ++ [l]).
Proof.
  unfold on, listeners. destruct (events e !! event) as [ref|] eqn:E.
  - destruct (indexOf_app_some l (array_at e ref)) as (i & Hi & Hle).
    exists i. split; [exact Hi|].
    unfold off. cbn [events set_array]. rewrite E.
    assert (Harr : array_at (set_array ref (array_at e ref ++ [l]) e) ref
                   = array_at e ref ++ [l]).
    { unfold array_at. cbn. now rewrite lookup_insert_eq. }
    rewrite Harr, Hi.
    destruct (Nat.eqb (length (splice1 i (array_at e ref ++ [l]))) 0) eqn:El.
    + cbn [events delete_event set_array]. rewrite lookup_delete_eq.
      apply Nat.eqb_eq in El.
      destruct (splice1 i (array_at e ref ++ [l])); [reflexivity|discriminate].
    + cbn [events set_array]. rewrite E. unfold array_at. cbn.
      now rewrite lookup_insert_eq.
  - exists 0%nat. cbn [app]. split; [destruct l; cbn; now rewrite Nat.eqb_refl|].
    unfold off. cbn [events]. rewrite lookup_insert_eq.
    assert (Harr : forall x : unit, array_at
              {| events := <[event:=next_ref e]> (events e);
                 arrays := <[next_ref e:=[l]]> (arrays e);
                 next_ref := Datatypes.S (next_ref e); calls := calls e;
                 emitted := emitted e; console := console e |} (next_ref e) = [l]).
    { intros _. unfold array_at. cbn. now rewrite lookup_insert_eq. }
    rewrite (Harr tt).
    assert (Hidx : indexOf l [l] = Some 0%nat)
      by (destruct l; cbn; now rewrite Nat.eqb_refl).
    rewrite Hidx. cbn. now rewrite lookup_delete_eq.
Qed.

End RegistrationFacts.

(** X2. For an event name that no object inherits, [off(event, l)] undoes
    [on(event, l)]: the number of listeners of the event is what it was, and
    when [l] was not registered for the event before, the listeners
    themselves are what they were, in the same order. *)
Theorem off_undoes_on :
  forall (A : Type) (e : EventEmitter.t A) (event : string)
         (l : EventEmitter.listener),
    ObjectPrototype.inherits event = false ->
    EventEmitter.listenerCount event
      (EventEmitter.off event (Some l) (EventEmitter.on event l e))
    = EventEmitter.listenerCount event e /\
    (EventEmitter.indexOf l (EventEmitter.listeners e event) = None ->
     EventEmitter.listeners
       (EventEmitter.off event (Some l) (EventEmitter.on event l e)) event
     = EventEmitter.listeners e event).
Proof.
  intros A e event l _.
  destruct (off_on_listeners event l e) as (i & Hi & Hls).
  unfold EventEmitter.listenerCount. rewrite Hls. split.
  - destruct (indexOf_app_some l (EventEmitter.listeners e event)) as (j & Hj & Hle).
    assert (i = j) by congruence. subst j.
    rewrite splice1_length by (rewrite length_app; cbn; lia).
    rewrite length_app. cbn. lia.
  - intros Hnew. apply indexOf_app_new in Hnew.
    assert (i = length (EventEmitter.listeners e event)) by congruence. subst i.
    apply splice1_last.
Qed.

Lemma off_undoes_on_witness :
  let first := EventEmitter.Callback 1 false in
  let second := EventEmitter.Callback 2 true in
  let e := EventEmitter.on "a" first (EventEmitter.create (A := nat)) in
  EventEmitter.indexOf second (EventEmitter.listeners e "a") = None /\
  EventEmitter.listeners
    (EventEmitter.off "a" (Some second) (EventEmitter.on "a" second e)) "a"
  = EventEmitter.listeners e "a".
Proof.
  intros first second e.
  assert (H : EventEmitter.indexOf second (EventEmitter.listeners e "a") = None)
    by reflexivity.
  split; [exact H|].
  exact (proj2 (off_undoes_on nat e "a" second eq_refl) H).
Defined.

Section DispatchFacts.
Import EventEmitter Laws.
Context {A : Type}.
Implicit Types e : EventEmitter.t A.

Lemma dispatched_nil event (args : A) e : dispatched event args [] e = e.
Proof. destruct e. unfold dispatched. cbn. now rewrite !app_nil_r. Qed.

Lemma forEach_dispatched event (args : A) ref ls remaining : forall k e,
  array_at e ref = ls ->
  Forall Spec.is_callback ls ->
  (k + remaining = length ls)%nat ->
  forEach_from event args ref remaining k e
  = dispatched event args (drop k ls) e.
Proof.
  induction remaining as [|n IH]; intros k e Harr Hall Hlen.
  - cbn. rewrite drop_ge by lia. now rewrite dispatched_nil.
  - cbn [forEach_from]. rewrite Harr.
    destruct (lookup_lt_is_Some_2 ls k ltac:(lia)) as [l Hl]. rewrite Hl.
    rewrite (drop_S _ _ _ Hl).
    assert (Hcb : Spec.is_callback l).
    { rewrite Forall_forall in Hall. apply Hall. eapply list_elem_of_lookup_2; eauto. }
    destruct l as [id throws|]; [|destruct Hcb]. cbn [invoke].
    destruct throws; rewrite IH; auto; try lia;
      unfold dispatched, log_error; cbn; now rewrite <- !app_assoc.
Qed.

End DispatchFacts.

(** X3. Where every listener of an event, whose name no object inherits,
    is a user callback, [emit] returns [true], calls each of them once with the arguments, in
    registration order, writes one console line for each callback that
    threw, and changes nothing else: a throwing callback neither stops the
    dispatch nor unregisters anything. *)
Theorem emit_isolates_throwing_callbacks :
  forall (A : Type) (e : EventEmitter.t A) (event : string) (args : A) (ref : nat),
    ObjectPrototype.inherits event = false ->
    EventEmitter.events e !! event = Some ref ->
    Forall Spec.is_callback (EventEmitter.array_at e ref) ->
    EventEmitter.emit event args e
    = (Return true,
       Laws.dispatched event args (EventEmitter.array_at e ref)
         (EventEmitter.record_emit event args e)).
Proof.
  intros A e event args ref _ Hev Hall. unfold EventEmitter.emit.
  cbn [EventEmitter.events EventEmitter.record_emit]. rewrite Hev. f_equal.
  rewrite (forEach_dispatched event args ref (EventEmitter.array_at e ref));
    auto.
Qed.

Lemma emit_isolates_throwing_callbacks_witness :
  let e := EventEmitter.on "a" (EventEmitter.Callback 2 false)
             (EventEmitter.on "a" (EventEmitter.Callback 1 true)
                (EventEmitter.create (A := nat))) in
  EventEmitter.events e !! "a" = Some 0%nat /\
  Forall Spec.is_callback (EventEmitter.array_at e 0) /\
  EventEmitter.calls (snd (EventEmitter.emit "a" 5%nat e))
  = [(1%nat, 5%nat); (2%nat, 5%nat)] /\
  EventEmitter.console (snd (EventEmitter.emit "a" 5%nat e))
  = ["Error in event listener for a"].
Proof.
  intros e.
  assert (Hev : EventEmitter.events e !! "a" = Some 0%nat) by reflexivity.
  assert (Hall : Forall Spec.is_callback (EventEmitter.array_at e 0))
    by (repeat constructor).
  split; [exact Hev|]. split; [exact Hall|].
  rewrite (emit_isolates_throwing_callbacks nat e "a" 5%nat 0%nat eq_refl Hev Hall).
  split; reflexivity.
Defined.

Lemma emit_single_once {A} event id throws (args : A) (s : EventEmitter.t A) ref wid :
  EventEmitter.events s !! event = Some ref ->
  EventEmitter.array_at s ref
  = [EventEmitter.OnceWrapper wid event (EventEmitter.Callback id throws)] ->
  fst (EventEmitter.emit event args s) = Return true /\
  EventEmitter.events (snd (EventEmitter.emit event args s)) !! event = None /\
  EventEmitter.calls (snd (EventEmitter.emit event args s))
  = EventEmitter.calls s ++ [(id, args)].
Proof.
  intros Hev Harr. unfold EventEmitter.emit.
  set (s' := EventEmitter.record_emit event args s).
  assert (Hev' : EventEmitter.events s' !! event = Some ref) by exact Hev.
  assert (Harr' : EventEmitter.array_at s' ref
                  = [EventEmitter.OnceWrapper wid event
                       (EventEmitter.Callback id throws)]) by exact Harr.
  assert (Hcalls' : EventEmitter.calls s' = EventEmitter.calls s) by reflexivity.
  clearbody s'. rewrite Hev'. cbn [fst snd]. rewrite Harr'.
  cbn [length EventEmitter.forEach_from]. rewrite Harr'.
  cbn [lookup list_lookup EventEmitter.invoke].
  unfold EventEmitter.off. rewrite Hev', Harr'.
  cbn [EventEmitter.indexOf EventEmitter.same]. rewrite Nat.eqb_refl.
  cbn [EventEmitter.splice1 length Nat.eqb].
  destruct throws; cbn; rewrite lookup_delete_eq, Hcalls'; auto.
Qed.

(** X4. A handler registered with [once] for an event that has no other
    listener, and whose name no object inherits, is called by the next
    [emit] and by no later one: after the first [emit] the event has no
    listener left, and a second [emit] returns [false] and calls
    nothing. *)
Theorem once_listener_fires_once :
  forall (A : Type) (e : EventEmitter.t A) (event : string) (id : nat)
         (throws : bool) (args args' : A),
    ObjectPrototype.inherits event = false ->
    EventEmitter.events e !! event = None ->
    let e1 := EventEmitter.once event (EventEmitter.Callback id throws) e in
    let e2 := snd (EventEmitter.emit event args e1) in
    fst (EventEmitter.emit event args e1) = Return true /\
    EventEmitter.calls e2 = EventEmitter.calls e ++ [(id, args)] /\
    EventEmitter.listenerCount event e2 = 0%nat /\
    fst (EventEmitter.emit event args' e2) = Return false /\
    EventEmitter.calls (snd (EventEmitter.emit event args' e2))
    = EventEmitter.calls e2.
Proof.
  intros A e event id throws args args' _ Hnone e1 e2.
  destruct (emit_single_once event id throws args e1 (Datatypes.S (EventEmitter.next_ref e))
              (EventEmitter.next_ref e)) as (Hret & Hev & Hcalls).
  { subst e1. unfold EventEmitter.once, EventEmitter.on.
    cbn [EventEmitter.events]. rewrite Hnone.
    cbn [EventEmitter.events EventEmitter.next_ref]. apply lookup_insert_eq. }
  { subst e1. unfold EventEmitter.once, EventEmitter.on.
    cbn [EventEmitter.events]. rewrite Hnone. unfold EventEmitter.array_at.
    cbn [EventEmitter.arrays EventEmitter.next_ref].
    now rewrite lookup_insert_eq. }
  fold e2 in Hev, Hcalls.
  assert (Hc1 : EventEmitter.calls e1 = EventEmitter.calls e).
  { subst e1. unfold EventEmitter.once, EventEmitter.on.
    cbn [EventEmitter.events]. now rewrite Hnone. }
  rewrite Hc1 in Hcalls.
  split; [exact Hret|]. split; [exact Hcalls|].
  unfold EventEmitter.listenerCount, EventEmitter.listeners, EventEmitter.emit.
  cbn [EventEmitter.events EventEmitter.record_emit]. rewrite Hev.
  repeat split.
Qed.

Lemma once_listener_fires_once_witness :
  let e := EventEmitter.create (A := nat) in
  let e1 := EventEmitter.once "ready" (EventEmitter.Callback 4 false) e in
  let e2 := snd (EventEmitter.emit "ready" 1%nat e1) in
  EventEmitter.events e !! "ready" = None /\
  EventEmitter.calls e2 = [(4%nat, 1%nat)] /\
  EventEmitter.calls (snd (EventEmitter.emit "ready" 2%nat e2))
  = EventEmitter.calls e2.
Proof.
  intros e e1 e2.
  assert (H : EventEmitter.events e !! "ready" = None) by reflexivity.
  destruct (once_listener_fires_once nat e "ready" 4 false 1%nat 2%nat eq_refl H)
    as (_ & Hcalls & _ & _ & Hsecond).
  split; [exact H|]. split; [exact Hcalls|exact Hsecond].
Defined.

(** X5. For event names that no object inherits, [off(event)] without a
    listener removes every listener of that event and leaves the listeners
    of every other event registered; [removeAllListeners()] leaves no
    listener at all. *)
Theorem off_without_listener_clears_one_event :
  forall (A : Type) (e : EventEmitter.t A) (event other : string),
    ObjectPrototype.inherits event = false ->
    ObjectPrototype.inherits other = false ->
    EventEmitter.listenerCount event (EventEmitter.off event None e) = 0%nat /\
    (other <> event ->
     EventEmitter.listeners (EventEmitter.off event None e) other
     = EventEmitter.listeners e other) /\
    EventEmitter.listenerCount other (EventEmitter.removeAllListeners None e) = 0%nat.
Proof.
  intros A e event other _ _.
  unfold EventEmitter.listenerCount, EventEmitter.listeners, EventEmitter.off,
    EventEmitter.removeAllListeners.
  destruct (EventEmitter.events e !! event) as [ref|] eqn:E.
  - cbn [EventEmitter.events EventEmitter.delete_event].
    rewrite lookup_delete_eq, lookup_empty. repeat split.
    intros Hne. rewrite lookup_delete_ne by congruence. reflexivity.
  - rewrite E. cbn [EventEmitter.events]. rewrite lookup_empty. repeat split.
Qed.

Lemma off_without_listener_clears_one_event_witness :
  let e := EventEmitter.on "b" (EventEmitter.Callback 2 false)
             (EventEmitter.on "a" (EventEmitter.Callback 1 false)
                (EventEmitter.create (A := nat))) in
  EventEmitter.listenerCount "a" e = 1%nat /\
  EventEmitter.listenerCount "a" (EventEmitter.off "a" None e) = 0%nat /\
  EventEmitter.listeners (EventEmitter.off "a" None e) "b"
  = EventEmitter.listeners e "b".
Proof.
  intros e. split; [reflexivity|].
  destruct (off_without_listener_clears_one_event nat e "a" "b" eq_refl eq_refl)
    as (Hcount & Hother & _).
  split; [exact Hcount|]. apply Hother. discriminate.
Defined.

(** ** Numeric helpers *)

Section UtilsFacts.
Import AutomaticGainControl.
Local Open Scope R_scope.

Lemma clamp_inside v lo hi : lo <= v <= hi -> clamp v lo hi = v.
Proof.
  intros H. unfold clamp, Rmin, Rmax.
  destruct (Rle_dec v lo); destruct (Rle_dec _ hi); lra.
Qed.

End UtilsFacts.

(** X7. [clamp(value, min, max)] with [min <= max] returns a value within
    the bounds, the value itself when it is within them, and is idempotent;
    with the bounds the wrong way round it returns [max] whatever the
    value. *)
Theorem clamp_stays_within_bounds :
  forall v lo hi : R,
    ((lo <= hi)%R ->
     (lo <= AutomaticGainControl.clamp v lo hi <= hi)%R /\
     ((lo <= v <= hi)%R -> AutomaticGainControl.clamp v lo hi = v) /\
     AutomaticGainControl.clamp (AutomaticGainControl.clamp v lo hi) lo hi
     = AutomaticGainControl.clamp v lo hi) /\
    ((hi < lo)%R -> AutomaticGainControl.clamp v lo hi = hi).
Proof.
  intros v lo hi. split.
  - intros H. pose proof (clamp_bounds v lo hi H) as Hb.
    split; [exact Hb|]. split; [apply clamp_inside|].
    now apply clamp_inside.
  - intros H. unfold AutomaticGainControl.clamp, Rmin, Rmax.
    destruct (Rle_dec v lo); destruct (Rle_dec _ hi); lra.
Qed.

Lemma clamp_stays_within_bounds_witness :
  (1 / 10 <= 10)%R /\
  (1 / 10 <= AutomaticGainControl.clamp 25 (1 / 10) 10 <= 10)%R /\
  (10 < 20)%R /\ AutomaticGainControl.clamp 0 20 10 = 10%R.
Proof.
  assert (H : (1 / 10 <= 10)%R) by lra.
  assert (H' : (10 < 20)%R) by lra.
  split; [exact H|]. split.
  - exact (proj1 (proj1 (clamp_stays_within_bounds 25 (1 / 10) 10) H)).
  - split; [exact H'|]. exact (proj2 (clamp_stays_within_bounds 0 20 10) H').
Defined.


(** ** Orchestrator: life cycle *)

Section OrchestratorLifeCycle.
Import JS Media Config Spec.
Import MediaProcessor.

Lemma bind_return_inv {S A B} (m : prog S A) (k : A -> prog S B) s b s' :
  (m ≫= k) s = (Return b, s') ->
  exists a s1, m s = (Return a, s1) /\ k a s1 = (Return b, s').
Proof.
  unfold mbind, prog_bind. destruct (m s) as [[a|e] s1]; [eauto|discriminate].
Qed.

Lemma emit_effect event args m :
  exists b e',
    emit event args m = (Return b, set_emitter e' m) /\
    EventEmitter.emitted e'
    = EventEmitter.emitted (emitter m) ++ [(event, args)].
Proof. apply orchestrator_emit_returns. Qed.

Lemma emit_inv event args m r m' :
  emit event args m = (r, m') ->
  (exists b, r = Return b) /\
  isProcessing m' = isProcessing m /\ isDestroyed m' = isDestroyed m /\
  config m' = config m /\ audioProcessor m' = audioProcessor m /\
  videoProcessor m' = videoProcessor m /\
  dropped_audio m' = dropped_audio m /\ dropped_video m' = dropped_video m /\
  EventEmitter.emitted (emitter m')
  = EventEmitter.emitted (emitter m) ++ [(event, args)].
Proof.
  destruct (emit_effect event args m) as (b & e' & -> & He).
  intros [= <- <-]. split; [eauto|]. repeat split; exact He.
Qed.

Lemma initializeProcessors_returns p m : fst (initializeProcessors p m) = Return tt.
Proof.
  unfold initializeProcessors, try_catch.
  match goal with |- context [match ?body m with _ => _ end] =>
    destruct (body m) as [[[]|e] m1] end; [reflexivity|].
  unfold mbind, prog_bind.
  match goal with |- context [emit ?ev ?a ?st] =>
    destruct (emit_effect ev a st) as (b & e' & -> & _) end.
  reflexivity.
Qed.

End OrchestratorLifeCycle.

(** X9. [destroy()] always returns; afterwards the orchestrator is marked
    destroyed and not processing; on an orchestrator that was not yet
    destroyed it calls [destroy()] on the audio pipeline and on the video
    pipeline, each if present, and on nothing else, and leaves no pipeline
    and no listener, having emitted [destroyed] last; and a second
    [destroy()] changes nothing, not even the history of emissions. *)
Theorem destroy_is_idempotent_and_complete :
  forall m : MediaProcessor.t,
    let m' := snd (MediaProcessor.destroy m) in
    fst (MediaProcessor.destroy m) = Return tt /\
    MediaProcessor.isDestroyed m' = true /\
    (MediaProcessor.isDestroyed m = false ->
     MediaProcessor.isProcessing m' = false /\
     MediaProcessor.audioProcessor m' = None /\
     MediaProcessor.videoProcessor m' = None /\
     EventEmitter.events (MediaProcessor.emitter m') = ∅ /\
     MediaProcessor.dropped_audio m'
     = MediaProcessor.dropped_audio m
       ++ match MediaProcessor.audioProcessor m with
          | Some a => [AudioProcessor.destroy a]
          | None => []
          end /\
     MediaProcessor.dropped_video m'
     = MediaProcessor.dropped_video m
       ++ match MediaProcessor.videoProcessor m with
          | Some v => [VideoProcessor.destroy v]
          | None => []
          end /\
     EventEmitter.emitted (MediaProcessor.emitter m')
     = EventEmitter.emitted (MediaProcessor.emitter m)
       ++ [("destroyed", MediaProcessor.NoArgs)]) /\
    MediaProcessor.destroy m' = (Return tt, m').
Proof.
  intros m m'.
  assert (Hd : MediaProcessor.isDestroyed m' = true) by apply destroy_isDestroyed.
  assert (Hlive : MediaProcessor.isDestroyed m = false ->
     fst (MediaProcessor.destroy m) = Return tt /\
     MediaProcessor.isProcessing m' = false /\
     MediaProcessor.audioProcessor m' = None /\
     MediaProcessor.videoProcessor m' = None /\
     EventEmitter.events (MediaProcessor.emitter m') = ∅ /\
     MediaProcessor.dropped_audio m'
     = MediaProcessor.dropped_audio m
       ++ match MediaProcessor.audioProcessor m with
          | Some a => [AudioProcessor.destroy a]
          | None => []
          end /\
     MediaProcessor.dropped_video m'
     = MediaProcessor.dropped_video m
       ++ match MediaProcessor.videoProcessor m with
          | Some v => [VideoProcessor.destroy v]
          | None => []
          end /\
     EventEmitter.emitted (MediaProcessor.emitter m')
     = EventEmitter.emitted (MediaProcessor.emitter m)
       ++ [("destroyed", MediaProcessor.NoArgs)]).
  { intros E. subst m'. unfold MediaProcessor.destroy. rewrite E.
    unfold mbind, prog_bind, modify.
    destruct (MediaProcessor.audioProcessor m) eqn:Ea,
             (MediaProcessor.videoProcessor m) eqn:Ev;
      cbn -[MediaProcessor.emit]; rewrite ?Ea; cbn -[MediaProcessor.emit];
      rewrite ?Ev; cbn -[MediaProcessor.emit];
      match goal with |- context [MediaProcessor.emit ?ev ?a ?st] =>
        destruct (emit_effect ev a st) as (b & e' & -> & He) end;
      cbn in He |- *; rewrite He, ?app_nil_r; repeat split; assumption. }
  split.
  - destruct (MediaProcessor.isDestroyed m) eqn:E.
    + unfold MediaProcessor.destroy. now rewrite E.
    + now apply Hlive.
  - split; [exact Hd|]. split; [intros E; now apply Hlive|].
    unfold MediaProcessor.destroy at 1. now rewrite Hd.
Qed.

Lemma destroy_is_idempotent_and_complete_witness :
  let m := MediaProcessor.create Spec.full_platform Spec.all_enabled_override in
  let m' := snd (MediaProcessor.destroy m) in
  MediaProcessor.isDestroyed m = false /\
  MediaProcessor.audioProcessor m <> None /\
  MediaProcessor.audioProcessor m' = None /\
  MediaProcessor.videoProcessor m' = None /\
  length (MediaProcessor.dropped_audio m') = 1%nat.
Proof.
  intros m m'.
  assert (H : MediaProcessor.isDestroyed m = false) by (vm_compute; reflexivity).
  destruct (destroy_is_idempotent_and_complete m) as (_ & _ & Hlive & _).
  destruct (Hlive H) as (_ & Ha & Hv & _ & Hda & _).
  split; [exact H|]. split; [vm_compute; discriminate|].
  split; [exact Ha|]. split; [exact Hv|].
  fold m' in Hda. rewrite Hda. vm_compute. reflexivity.
Defined.

(** ** Outcomes of stateful calls *)

Section PostRules.
Import Laws.
Context {S : Type}.

Lemma post_ret {A} (a : A) (s : S) Q : Q (Return a) s -> post (mret a) s Q.
Proof. intros H. exact H. Qed.

Lemma post_throw {A} e (s : S) (Q : result A -> S -> Prop) :
  Q (Throw e) s -> post (throw e) s Q.
Proof. intros H. exact H. Qed.

Lemma post_lift {A} (r : result A) (s : S) Q : Q r s -> post (lift r) s Q.
Proof. intros H. exact H. Qed.

Lemma post_read {A} (g : S -> A) (s : S) Q : Q (Return (g s)) s -> post (read g) s Q.
Proof. intros H. exact H. Qed.

Lemma post_modify (g : S -> S) (s : S) Q : Q (Return tt) (g s) -> post (modify g) s Q.
Proof. intros H. exact H. Qed.

Lemma post_bind {A B} (m : prog S A) (k : A -> prog S B) (s : S) Q :
  post m s (fun r s1 =>
              match r with
              | Return a => post (k a) s1 Q
              | Throw e => Q (Throw e) s1
              end) ->
  post (m ≫= k) s Q.
Proof.
  unfold post, mbind, prog_bind. destruct (m s) as [[a|e] s1]; cbn; auto.
Qed.

Lemma post_try_catch {A} (m : prog S A) (h : string -> prog S A) (s : S) Q :
  post m s (fun r s1 =>
              match r with
              | Return a => Q (Return a) s1
              | Throw e => post (h e) s1 Q
              end) ->
  post (try_catch m h) s Q.
Proof.
  unfold post, try_catch. destruct (m s) as [[a|e] s1]; cbn; auto.
Qed.

Lemma post_ext {A} (m m' : prog S A) (s : S) Q :
  m s = m' s -> post m' s Q -> post m s Q.
Proof. unfold post. now intros ->. Qed.

Lemma post_weaken {A} (m : prog S A) (s : S) (Q Q' : result A -> S -> Prop) :
  (forall r s1, Q r s1 -> Q' r s1) -> post m s Q -> post m s Q'.
Proof. unfold post. auto. Qed.

End PostRules.

Section OrchestratorPost.
Import JS Media Config Spec Laws.
Import MediaProcessor.

Lemma post_emit event args m (Q : result bool -> MediaProcessor.t -> Prop) :
  (forall b e',
      EventEmitter.emitted e'
      = EventEmitter.emitted (emitter m) ++ [(event, args)] ->
      Q (Return b) (set_emitter e' m)) ->
  post (emit event args) m Q.
Proof.
  intros H. unfold post.
  destruct (emit_effect event args m) as (b & e' & -> & He). now apply H.
Qed.

Lemma post_fresh m (Q : result nat -> MediaProcessor.t -> Prop) :
  Q (Return (next_id m))
    (mk (config m) (audioProcessor m) (videoProcessor m) (isProcessing m)
       (isDestroyed m) (emitter m) (Datatypes.S (next_id m)) (dropped_audio m)
       (dropped_video m)) ->
  post fresh m Q.
Proof. intros H. exact H. Qed.

Lemma post_on_audio {A} (call : prog AudioProcessor.t A) m
  (Q : result A -> MediaProcessor.t -> Prop) :
  (forall a, audioProcessor m = Some a ->
             Q (fst (call a)) (set_audioProcessor (Some (snd (call a))) m)) ->
  (audioProcessor m = None ->
   Q (Throw "TypeError: cannot read properties of null") m) ->
  post (on_audio call) m Q.
Proof.
  intros Hs Hn. unfold post, on_audio.
  destruct (audioProcessor m) as [a|]; [|now apply Hn].
  specialize (Hs a eq_refl). destruct (call a). exact Hs.
Qed.

Lemma post_on_video {A} (call : prog VideoProcessor.t A) m
  (Q : result A -> MediaProcessor.t -> Prop) :
  (forall v, videoProcessor m = Some v ->
             Q (fst (call v)) (set_videoProcessor (Some (snd (call v))) m)) ->
  (videoProcessor m = None ->
   Q (Throw "TypeError: cannot read properties of null") m) ->
  post (on_video call) m Q.
Proof.
  intros Hs Hn. unfold post, on_video.
  destruct (videoProcessor m) as [v|]; [|now apply Hn].
  specialize (Hs v eq_refl). destruct (call v). exact Hs.
Qed.

(** The outcome of [process] on a live orchestrator and a valid stream. *)
Lemma process_post p s m :
  isDestroyed m = false ->
  post (process p (AStream s)) m
    (fun r m' =>
       isProcessing m' = false /\ isDestroyed m' = false /\
       config m' = config m /\
       EventEmitter.emitted (emitter m')
       = EventEmitter.emitted (emitter m)
         ++ [("processing:start", NoArgs); process_outcome_event r]).
Proof.
  intros Hlive.
  set (Q := fun (r : result MediaStream) m' =>
       isProcessing m' = false /\ isDestroyed m' = false /\
       config m' = config m /\
       EventEmitter.emitted (emitter m')
       = EventEmitter.emitted (emitter m)
         ++ [("processing:start", NoArgs); process_outcome_event r]).
  set (I := fun m1 : MediaProcessor.t =>
       isDestroyed m1 = false /\ config m1 = config m /\
       EventEmitter.emitted (emitter m1)
       = EventEmitter.emitted (emitter m) ++ [("processing:start", NoArgs)]).
  assert (Hfail : forall e m1, I m1 ->
            post (_ ← modify (set_isProcessing false);
                  _ ← emit "error" (ErrorArg e);
                  throw e : prog MediaProcessor.t MediaStream) m1 Q).
  { intros e m1 (Hd & Hc & He).
    apply post_bind, post_modify, post_bind, post_emit. intros b e' He'.
    apply post_throw. unfold Q. cbn in He' |- *. rewrite He', He, <- app_assoc.
    repeat split; assumption. }
  assert (Hdone : forall out m1, I m1 ->
            post (_ ← modify (set_isProcessing false);
                  _ ← emit "processing:complete" (StreamArg out);
                  mret out) m1
              (fun r s1 => match r with
                           | Return a => Q (Return a) s1
                           | Throw e =>
                               post (_ ← modify (set_isProcessing false);
                                     _ ← emit "error" (ErrorArg e);
                                     throw e : prog MediaProcessor.t MediaStream)
                                 s1 Q
                           end)).
  { intros out m1 (Hd & Hc & He).
    apply post_bind, post_modify, post_bind, post_emit. intros b e' He'.
    apply post_ret. unfold Q. cbn in He' |- *. rewrite He', He, <- app_assoc.
    repeat split; assumption. }
  assert (Hvideo : forall afterAudio m1, I m1 ->
            post (vp ← read videoProcessor;
                  hv ← match vp : option VideoProcessor.t with
                       | Some _ => c ← read config; lift (hasVideoFeatures c)
                       | None => mret false
                       end;
                  processedStream ←
                    (if (hv : bool) then
                       match videoTracks s with
                       | _ :: _ =>
                           id ← fresh;
                           on_video (VideoProcessor.process p (AStream afterAudio) id)
                       | [] => mret afterAudio
                       end
                     else mret afterAudio);
                  _ ← modify (set_isProcessing false);
                  _ ← emit "processing:complete" (StreamArg processedStream);
                  mret processedStream) m1
              (fun r s1 => match r with
                           | Return a => Q (Return a) s1
                           | Throw e =>
                               post (_ ← modify (set_isProcessing false);
                                     _ ← emit "error" (ErrorArg e);
                                     throw e : prog MediaProcessor.t MediaStream)
                                 s1 Q
                           end)).
  { intros afterAudio m1 HI.
    apply post_bind, post_read, post_bind.
    assert (Hrest : forall hv : bool,
      post (processedStream ←
              (if hv then
                 match videoTracks s with
                 | _ :: _ =>
                     id ← fresh;
                     on_video (VideoProcessor.process p (AStream afterAudio) id)
                 | [] => mret afterAudio
                 end
               else mret afterAudio);
            _ ← modify (set_isProcessing false);
            _ ← emit "processing:complete" (StreamArg processedStream);
            mret processedStream) m1
        (fun r s1 => match r with
                     | Return a => Q (Return a) s1
                     | Throw e =>
                         post (_ ← modify (set_isProcessing false);
                               _ ← emit "error" (ErrorArg e);
                               throw e : prog MediaProcessor.t MediaStream)
                           s1 Q
                     end)).
    { intros hv. apply post_bind.
      destruct hv; [destruct (videoTracks s)|].
      - apply post_ret. now apply Hdone.
      - apply post_bind, post_fresh, post_on_video.
        + intros v Hv.
          assert (HI' : I (set_videoProcessor
                             (Some (snd (VideoProcessor.process p (AStream afterAudio)
                                           (next_id m1) v)))
                             (mk (config m1) (audioProcessor m1) (videoProcessor m1)
                                (isProcessing m1) (isDestroyed m1) (emitter m1)
                                (Datatypes.S (next_id m1)) (dropped_audio m1)
                                (dropped_video m1)))) by exact HI.
          destruct (fst (VideoProcessor.process p (AStream afterAudio) (next_id m1) v));
            [now apply Hdone|now apply Hfail].
        + intros _. now apply Hfail.
      - apply post_ret. now apply Hdone. }
    destruct (videoProcessor m1).
    - apply post_bind, post_read, post_lift.
      destruct (hasVideoFeatures (config m1)) as [hv|e]; cbn beta iota;
        [exact (Hrest hv)|now apply Hfail].
    - apply post_ret. exact (Hrest false). }
  eapply post_ext; [unfold process; rewrite Hlive; reflexivity|].
  apply post_try_catch, post_bind, post_modify, post_bind, post_emit.
  intros b e' He'.
  assert (HI : I (set_emitter e' (set_isProcessing true m))).
  { unfold I. cbn. repeat split; assumption. }
  generalize dependent (set_emitter e' (set_isProcessing true m)). intros m1 HI.
  apply post_bind, post_read, post_bind.
  assert (Hrest : forall ha : bool,
    post (afterAudio ←
            (if ha then
               match audioTracks s with
               | _ :: _ =>
                   id ← fresh;
                   on_audio (AudioProcessor.process (AStream s) id)
               | [] => mret s
               end
             else mret s);
          vp ← read videoProcessor;
          hv ← match vp : option VideoProcessor.t with
               | Some _ => c ← read config; lift (hasVideoFeatures c)
               | None => mret false
               end;
          processedStream ←
            (if (hv : bool) then
               match videoTracks s with
               | _ :: _ =>
                   id ← fresh;
                   on_video (VideoProcessor.process p (AStream afterAudio) id)
               | [] => mret afterAudio
               end
             else mret afterAudio);
          _ ← modify (set_isProcessing false);
          _ ← emit "processing:complete" (StreamArg processedStream);
          mret processedStream) m1
      (fun r s1 => match r with
                   | Return a => Q (Return a) s1
                   | Throw e =>
                       post (_ ← modify (set_isProcessing false);
                             _ ← emit "error" (ErrorArg e);
                             throw e : prog MediaProcessor.t MediaStream)
                         s1 Q
                   end)).
  { intros ha. apply post_bind.
    destruct ha; [destruct (audioTracks s)|].
    - apply post_ret. now apply Hvideo.
    - apply post_bind, post_fresh, post_on_audio.
      + intros a Ha.
        assert (HI' : I (set_audioProcessor
                           (Some (snd (AudioProcessor.process (AStream s) (next_id m1) a)))
                           (mk (config m1) (audioProcessor m1) (videoProcessor m1)
                              (isProcessing m1) (isDestroyed m1) (emitter m1)
                              (Datatypes.S (next_id m1)) (dropped_audio m1)
                              (dropped_video m1)))) by exact HI.
        destruct (fst (AudioProcessor.process (AStream s) (next_id m1) a));
          [now apply Hvideo|now apply Hfail].
      + intros _. now apply Hfail.
    - apply post_ret. now apply Hvideo. }
  destruct (audioProcessor m1).
  - apply post_bind, post_read, post_lift.
    destruct (hasAudioFeatures (config m1)) as [ha|e]; cbn beta iota;
      [exact (Hrest ha)|now apply Hfail].
  - apply post_ret. exact (Hrest false).
Qed.

End OrchestratorPost.

(** X10. On an orchestrator that is not destroyed, [process(stream)] on a
    valid stream emits exactly two events, [processing:start] and then
    either [processing:complete] carrying the stream it returns or [error]
    carrying the message it throws; in both cases it leaves the
    orchestrator not processing, not destroyed and with its configuration
    as it was. *)
Theorem process_reports_its_outcome :
  forall (p : Media.Platform) (m : MediaProcessor.t) (s : Media.MediaStream),
    MediaProcessor.isDestroyed m = false ->
    let r := fst (MediaProcessor.process p (Media.AStream s) m) in
    let m' := snd (MediaProcessor.process p (Media.AStream s) m) in
    MediaProcessor.isProcessing m' = false /\
    MediaProcessor.isDestroyed m' = false /\
    MediaProcessor.config m' = MediaProcessor.config m /\
    EventEmitter.emitted (MediaProcessor.emitter m')
    = EventEmitter.emitted (MediaProcessor.emitter m)
      ++ [("processing:start", MediaProcessor.NoArgs);
          Laws.process_outcome_event r].
Proof. intros p m s Hlive. exact (process_post p s m Hlive). Qed.

Lemma process_reports_its_outcome_witness :
  let p := {| Media.webAudio := false; Media.webgl := true; Media.canvas2d := true;
              Media.shaderCompiles := true; Media.trackProcessor := true;
              Media.shade := fun _ i => i; Media.blur := fun _ i => i |} in
  let m := MediaProcessor.create p Spec.all_enabled_override in
  let s := {| Media.stream_id := 3; Media.audioTracks := [1%nat];
              Media.videoTracks := [] |} in
  MediaProcessor.isDestroyed m = false /\
  fst (MediaProcessor.process p (Media.AStream s) m)
  = Throw "AudioProcessor not initialized" /\
  MediaProcessor.isProcessing (snd (MediaProcessor.process p (Media.AStream s) m))
  = false.
Proof.
  intros p m s.
  assert (H : MediaProcessor.isDestroyed m = false) by (vm_compute; reflexivity).
  split; [exact H|]. split; [vm_compute; reflexivity|].
  exact (proj1 (process_reports_its_outcome p m s H)).
Defined.

(** ** Initialisation and reconfiguration of the orchestrator *)

Section OrchestratorInit.
Import JS Media Config Spec Laws.
Import MediaProcessor.

Lemma initializeProcessors_post p m :
  post (initializeProcessors p) m
    (fun r m' =>
       r = Return tt /\ config m' = config m /\
       isDestroyed m' = isDestroyed m /\ isProcessing m' = isProcessing m /\
       exists ev, init_event ev /\
         EventEmitter.emitted (emitter m')
         = EventEmitter.emitted (emitter m) ++ [ev]).
Proof.
  set (Q := fun (r : result unit) m' =>
       r = Return tt /\ config m' = config m /\
       isDestroyed m' = isDestroyed m /\ isProcessing m' = isProcessing m /\
       exists ev, init_event ev /\
         EventEmitter.emitted (emitter m')
         = EventEmitter.emitted (emitter m) ++ [ev]).
  set (I := fun m1 : MediaProcessor.t =>
       config m1 = config m /\ isDestroyed m1 = isDestroyed m /\
       isProcessing m1 = isProcessing m /\ emitter m1 = emitter m).
  assert (Hfail : forall e m1, I m1 ->
            post (_ ← emit "error"
                        (ErrorArg (String.append "Failed to initialize processors: " e));
                  mret tt) m1 Q).
  { intros e m1 (Hc & Hd & Hp & He).
    apply post_bind, post_emit. intros b e' He'. apply post_ret.
    unfold Q. cbn in He' |- *. rewrite He in He'.
    repeat split; try assumption.
    eexists. split; [right; eexists; reflexivity|exact He']. }
  assert (Hdone : forall m1, I m1 ->
            post (_ ← emit "initialized" NoArgs; mret tt) m1
              (fun r s1 => match r with
                           | Return a => Q (Return a) s1
                           | Throw e =>
                               post (_ ← emit "error"
                                       (ErrorArg (String.append
                                          "Failed to initialize processors: " e));
                                     mret tt) s1 Q
                           end)).
  { intros m1 (Hc & Hd & Hp & He).
    apply post_bind, post_emit. intros b e' He'. apply post_ret.
    unfold Q. cbn in He' |- *. rewrite He in He'.
    repeat split; try assumption.
    eexists. split; [left; reflexivity|exact He']. }
  assert (Hvideo : forall m1, I m1 ->
            post (v ← lift (hasVideoFeatures (config m));
                  _ ← (if (v : bool) then
                         _ ← modify (assign_videoProcessor
                                       (VideoProcessor.create (get (config m) "video")));
                         on_video (VideoProcessor.initialize p)
                       else mret tt);
                  _ ← emit "initialized" NoArgs;
                  mret tt) m1
              (fun r s1 => match r with
                           | Return a => Q (Return a) s1
                           | Throw e =>
                               post (_ ← emit "error"
                                       (ErrorArg (String.append
                                          "Failed to initialize processors: " e));
                                     mret tt) s1 Q
                           end)).
  { intros m1 HI. apply post_bind, post_lift.
    destruct (hasVideoFeatures (config m)) as [[|]|e]; cbn beta iota.
    - apply post_bind, post_bind, post_modify, post_on_video.
      + intros v Hv.
        assert (HI' : I (set_videoProcessor
                           (Some (snd (VideoProcessor.initialize p v)))
                           (assign_videoProcessor
                              (VideoProcessor.create (get (config m) "video")) m1)))
          by exact HI.
        destruct (fst (VideoProcessor.initialize p v));
          [now apply Hdone|now apply Hfail].
      + intros _. now apply Hfail.
    - apply post_bind, post_ret. now apply Hdone.
    - now apply Hfail. }
  unfold initializeProcessors.
  apply post_try_catch, post_bind, post_read, post_bind, post_lift.
  assert (HI : I m) by (unfold I; auto).
  destruct (hasAudioFeatures (config m)) as [[|]|e]; cbn beta iota.
  - apply post_bind, post_bind, post_modify, post_on_audio.
    + intros a Ha.
      assert (HI' : I (set_audioProcessor
                         (Some (snd (AudioProcessor.initialize p a)))
                         (assign_audioProcessor
                            (AudioProcessor.create (get (config m) "audio")) m)))
        by exact HI.
      destruct (fst (AudioProcessor.initialize p a));
        [now apply Hvideo|now apply Hfail].
    + intros _. now apply Hfail.
  - apply post_bind, post_ret. now apply Hvideo.
  - now apply Hfail.
Qed.

End OrchestratorInit.

(** X11. [initializeProcessors()] never throws: whatever the platform and
    the configuration, it returns normally, leaves the configuration and the
    destroyed and processing flags as they were, and emits exactly one
    event, [initialized] or an [error] whose message starts with
    [Failed to initialize processors: ]. *)
Theorem initializeProcessors_swallows_failures :
  forall (p : Media.Platform) (m : MediaProcessor.t),
    let m' := snd (MediaProcessor.initializeProcessors p m) in
    fst (MediaProcessor.initializeProcessors p m) = Return tt /\
    MediaProcessor.config m' = MediaProcessor.config m /\
    MediaProcessor.isDestroyed m' = MediaProcessor.isDestroyed m /\
    MediaProcessor.isProcessing m' = MediaProcessor.isProcessing m /\
    exists ev, Laws.init_event ev /\
      EventEmitter.emitted (MediaProcessor.emitter m')
      = EventEmitter.emitted (MediaProcessor.emitter m) ++ [ev].
Proof. intros p m. exact (initializeProcessors_post p m). Qed.

(** X12. [updateConfig(newConfig)] on a live orchestrator always returns
    normally; the configuration afterwards is the defaults merged with
    [newConfig] alone, whatever the configuration was before, and the last
    event is [config:updated] carrying it, preceded by at most the one event
    of a re-initialisation. *)
Theorem updateConfig_restarts_from_defaults :
  forall (p : Media.Platform) (m : MediaProcessor.t) (newConfig : JS.value),
    MediaProcessor.isDestroyed m = false ->
    let m' := snd (MediaProcessor.updateConfig p newConfig m) in
    fst (MediaProcessor.updateConfig p newConfig m) = Return tt /\
    MediaProcessor.config m' = Config.mergeConfig newConfig /\
    MediaProcessor.isDestroyed m' = false /\
    exists mid,
      (mid = [] \/ exists ev, Laws.init_event ev /\ mid = [ev]) /\
      EventEmitter.emitted (MediaProcessor.emitter m')
      = EventEmitter.emitted (MediaProcessor.emitter m) ++ mid
        ++ [("config:updated",
             MediaProcessor.ConfigArg (Config.mergeConfig newConfig))].
Proof.
  intros p m newConfig Hlive.
  change (Laws.post (MediaProcessor.updateConfig p newConfig) m
            (fun r m' =>
               r = Return tt /\
               MediaProcessor.config m' = Config.mergeConfig newConfig /\
               MediaProcessor.isDestroyed m' = false /\
               exists mid,
                 (mid = [] \/ exists ev, Laws.init_event ev /\ mid = [ev]) /\
                 EventEmitter.emitted (MediaProcessor.emitter m')
                 = EventEmitter.emitted (MediaProcessor.emitter m) ++ mid
                   ++ [("config:updated",
                        MediaProcessor.ConfigArg (Config.mergeConfig newConfig))])).
  eapply post_ext;
    [unfold MediaProcessor.updateConfig; rewrite Hlive; reflexivity|].
  apply post_bind, post_read, post_bind, post_modify, post_bind, post_read,
    post_bind.
  cbn [MediaProcessor.config MediaProcessor.set_config].
  destruct (Config.configChanged (MediaProcessor.config m)
              (Config.mergeConfig newConfig)).
  - eapply post_weaken; [|apply initializeProcessors_post].
    intros r m1 (-> & Hc & Hd & _ & ev & Hev & He).
    apply post_bind, post_emit. intros b e' He'. apply post_ret.
    cbn in Hc, Hd, He, He' |- *. rewrite He', He, <- app_assoc.
    repeat split; try congruence.
    exists [ev]. split; [right; eauto|reflexivity].
  - apply post_ret, post_bind, post_emit. intros b e' He'. apply post_ret.
    cbn in He' |- *. rewrite He'.
    repeat split; try assumption.
    exists []. split; [now left|reflexivity].
Qed.

Lemma updateConfig_restarts_from_defaults_witness :
  let m := MediaProcessor.create Spec.full_platform Spec.all_enabled_override in
  MediaProcessor.isDestroyed m = false /\
  MediaProcessor.config
    (snd (MediaProcessor.updateConfig Spec.full_platform (JS.VObj []) m))
  = Config.mergeConfig (JS.VObj []).
Proof.
  intros m.
  assert (H : MediaProcessor.isDestroyed m = false) by (vm_compute; reflexivity).
  split; [exact H|].
  exact (proj1 (proj2
    (updateConfig_restarts_from_defaults Spec.full_platform m (JS.VObj []) H))).
Defined.

Section FailedConstruction.
Import JS Media Config.

Lemma create_without_web_audio p userConfig :
  Media.webAudio p = false ->
  Config.hasAudioFeatures (Config.mergeConfig userConfig) = Return true ->
  exists e',
    MediaProcessor.create p userConfig
    = MediaProcessor.mk (Config.mergeConfig userConfig)
        (Some (AudioProcessor.emit "error"
                 (AudioProcessor.create
                    (JS.get (Config.mergeConfig userConfig) "audio"))))
        None false false e' 0 [] [].
Proof.
  intros Hw Ha. unfold MediaProcessor.create, MediaProcessor.initializeProcessors.
  set (c := Config.mergeConfig userConfig) in *. clearbody c.
  unfold try_catch, mbind, prog_bind, read, lift, modify, MediaProcessor.on_audio,
    AudioProcessor.initialize.
  cbn -[MediaProcessor.emit Config.hasAudioFeatures Config.hasVideoFeatures
        String.append].
  rewrite Ha, Hw.
  cbn -[MediaProcessor.emit Config.hasAudioFeatures Config.hasVideoFeatures
        String.append].
  unfold try_catch, mbind, prog_bind, modify, throw.
  cbn -[MediaProcessor.emit Config.hasAudioFeatures Config.hasVideoFeatures
        String.append].
  match goal with |- context [MediaProcessor.emit ?ev ?a ?st] =>
    destruct (emit_effect ev a st) as (b & e' & -> & _) end.
  cbn. eexists. reflexivity.
Qed.

End FailedConstruction.

(** X13. Where the Web Audio API is missing, constructing an orchestrator
    whose merged configuration enables an audio feature still succeeds, but
    [process] then rejects every stream that has an audio track with
    [AudioProcessor not initialized]. *)
Theorem process_after_failed_audio_initialisation :
  forall (p : Media.Platform) (userConfig : JS.value) (s : Media.MediaStream),
    Media.webAudio p = false ->
    Config.hasAudioFeatures (Config.mergeConfig userConfig) = Return true ->
    Media.audioTracks s <> [] ->
    let m := MediaProcessor.create p userConfig in
    MediaProcessor.videoProcessor m = None /\
    fst (MediaProcessor.process p (Media.AStream s) m)
    = Throw "AudioProcessor not initialized".
Proof.
  intros p userConfig s Hw Ha Hs.
  destruct (create_without_web_audio p userConfig Hw Ha) as [e' ->].
  split; [reflexivity|].
  set (c := Config.mergeConfig userConfig) in *. clearbody c.
  unfold MediaProcessor.process.
  cbn [MediaProcessor.isDestroyed].
  unfold try_catch, mbind, prog_bind, read, lift, modify.
  cbn -[MediaProcessor.emit Config.hasAudioFeatures Config.hasVideoFeatures].
  match goal with |- context [MediaProcessor.emit ?ev ?a ?st] =>
    destruct (emit_effect ev a st) as (b1 & e1 & -> & _) end.
  cbn -[MediaProcessor.emit Config.hasAudioFeatures Config.hasVideoFeatures].
  rewrite Ha.
  destruct (Media.audioTracks s) as [|t ts]; [contradiction|].
  cbn -[MediaProcessor.emit Config.hasAudioFeatures Config.hasVideoFeatures].
  match goal with |- context [MediaProcessor.emit ?ev ?a ?st] =>
    destruct (emit_effect ev a st) as (b2 & e2 & -> & _) end.
  reflexivity.
Qed.

Lemma process_after_failed_audio_initialisation_witness :
  let p := {| Media.webAudio := false; Media.webgl := true; Media.canvas2d := true;
              Media.shaderCompiles := true; Media.trackProcessor := true;
              Media.shade := fun _ i => i; Media.blur := fun _ i => i |} in
  let s := {| Media.stream_id := 3; Media.audioTracks := [1%nat];
              Media.videoTracks := [2%nat] |} in
  fst (MediaProcessor.process p (Media.AStream s)
         (MediaProcessor.create p Spec.all_enabled_override))
  = Throw "AudioProcessor not initialized".
Proof.
  intros p s.
  refine (proj2 (process_after_failed_audio_initialisation p
                   Spec.all_enabled_override s eq_refl _ _)).
  - vm_compute. reflexivity.
  - discriminate.
Defined.

(** ** Reconfiguration with an unchanged configuration *)

Section ConfigComparison.
Import JS.

Lemma value_eqb_refl : forall v : value, value_eqb v v = true.
Proof.
  fix IH 1. intros [|b|q|s|xs|fs]; cbn.
  - reflexivity.
  - now destruct b.
  - apply Qeq_bool_iff. reflexivity.
  - apply String.eqb_refl.
  - induction xs as [|x xs IHxs]; [reflexivity|].
    rewrite (IH x). exact IHxs.
  - induction fs as [|[k x] fs IHfs]; [reflexivity|].
    rewrite String.eqb_refl, (IH x). exact IHfs.
Qed.

Lemma configChanged_same c : Config.configChanged c c = false.
Proof. unfold Config.configChanged. now rewrite value_eqb_refl. Qed.

End ConfigComparison.

Section Reconfiguration.
Import JS Media Config Laws.
Import MediaProcessor.

Lemma updateConfig_unchanged p m newConfig :
  isDestroyed m = false ->
  config m = mergeConfig newConfig ->
  exists e',
    updateConfig p newConfig m = (Return tt, set_emitter e' m) /\
    EventEmitter.emitted e'
    = EventEmitter.emitted (emitter m)
      ++ [("config:updated", ConfigArg (mergeConfig newConfig))].
Proof.
  intros Hlive Hc. unfold updateConfig. rewrite Hlive.
  unfold mbind, prog_bind, read, modify.
  cbn [config set_config]. rewrite Hc, configChanged_same.
  cbn [mret prog_ret].
  match goal with |- context [emit ?ev ?a ?st] =>
    destruct (emit_effect ev a st) as (b & e' & -> & He) end.
  exists e'. split; [|exact He].
  unfold mret, prog_ret. f_equal.
  destruct m; cbn in *. now subst.
Qed.

End Reconfiguration.

(** X14. Repeating [updateConfig] with the same argument does not
    re-initialise: the second call leaves both pipelines and the
    configuration as the first call left them and emits [config:updated]
    alone. *)
Theorem repeated_updateConfig_does_not_reinitialise :
  forall (p : Media.Platform) (m : MediaProcessor.t) (newConfig : JS.value),
    MediaProcessor.isDestroyed m = false ->
    let m1 := snd (MediaProcessor.updateConfig p newConfig m) in
    let m2 := snd (MediaProcessor.updateConfig p newConfig m1) in
    fst (MediaProcessor.updateConfig p newConfig m1) = Return tt /\
    MediaProcessor.audioProcessor m2 = MediaProcessor.audioProcessor m1 /\
    MediaProcessor.videoProcessor m2 = MediaProcessor.videoProcessor m1 /\
    MediaProcessor.config m2 = MediaProcessor.config m1 /\
    EventEmitter.emitted (MediaProcessor.emitter m2)
    = EventEmitter.emitted (MediaProcessor.emitter m1)
      ++ [("config:updated",
           MediaProcessor.ConfigArg (Config.mergeConfig newConfig))].
Proof.
  intros p m newConfig Hlive m1 m2.
  assert (H1 : Laws.post (MediaProcessor.updateConfig p newConfig) m
                 (fun _ m' =>
                    MediaProcessor.isDestroyed m' = false /\
                    MediaProcessor.config m' = Config.mergeConfig newConfig)).
  { eapply post_ext;
      [unfold MediaProcessor.updateConfig; rewrite Hlive; reflexivity|].
    apply post_bind, post_read, post_bind, post_modify, post_bind, post_read,
      post_bind.
    cbn [MediaProcessor.config MediaProcessor.set_config].
    destruct (Config.configChanged (MediaProcessor.config m)
                (Config.mergeConfig newConfig)).
    - eapply post_weaken; [|apply initializeProcessors_post].
      intros r s1 (-> & Hc & Hd & _).
      apply post_bind, post_emit. intros b e' _. apply post_ret.
      cbn in Hc, Hd |- *. split; congruence.
    - apply post_ret, post_bind, post_emit. intros b e' _. apply post_ret.
      cbn. split; [assumption|reflexivity]. }
  destruct H1 as [Hd Hc]. fold m1 in Hd, Hc.
  destruct (updateConfig_unchanged p m1 newConfig Hd Hc) as (e' & E & He).
  subst m2. rewrite E. cbn. repeat split. exact He.
Qed.

Lemma repeated_updateConfig_does_not_reinitialise_witness :
  let p := Spec.full_platform in
  let m := MediaProcessor.create p (JS.VObj []) in
  let m1 := snd (MediaProcessor.updateConfig p Spec.all_enabled_override m) in
  let m2 := snd (MediaProcessor.updateConfig p Spec.all_enabled_override m1) in
  MediaProcessor.isDestroyed m = false /\
  MediaProcessor.audioProcessor m2 = MediaProcessor.audioProcessor m1.
Proof.
  intros p m m1 m2.
  assert (H : MediaProcessor.isDestroyed m = false) by (vm_compute; reflexivity).
  split; [exact H|].
  exact (proj1 (proj2
    (repeated_updateConfig_does_not_reinitialise p m Spec.all_enabled_override H))).
Defined.

(** ** Low-light compensation (video/LowLightCompensation.js) *)

Section LowLightFacts.
Import JS Media LowLightCompensation Laws.
Local Open Scope Z_scope.

Lemma Qlt_bool_true x y : Qlt_bool x y = true -> (x < y)%Q.
Proof.
  unfold Qlt_bool. intros H. apply negb_true_iff in H.
  apply Qnot_le_lt. intros Hle. apply Qle_bool_iff in Hle. congruence.
Qed.

Lemma Qle_bool_false x y : Qle_bool x y = false -> (y < x)%Q.
Proof.
  intros H. apply Qnot_le_lt. intros Hle. apply Qle_bool_iff in Hle. congruence.
Qed.

Lemma toUint8Clamped_byte x : is_byte (toUint8Clamped x).
Proof.
  unfold is_byte, toUint8Clamped. destruct x as [q|]; [|lia].
  destruct (Qle_bool q 0) eqn:H0; [lia|].
  destruct (Qle_bool 255 q) eqn:H255; [lia|].
  apply Qle_bool_false in H0, H255.
  assert (Hlo : 0 <= Qfloor q).
  { change 0 with (Qfloor 0). apply Qfloor_resp_le. now apply Qlt_le_weak. }
  assert (Hhi : Qfloor q < 255).
  { apply Z.lt_nge. intros Hge.
    assert (H1 : (inject_Z 255 <= inject_Z (Qfloor q))%Q)
      by (rewrite <- Zle_Qle; exact Hge).
    pose proof (Qfloor_le q) as H2.
    apply (Qlt_irrefl q). eapply Qlt_le_trans; [exact H255|].
    eapply Qle_trans; [exact H1|exact H2]. }
  destruct (Qcompare _ _); [destruct (Z.even _)|..]; lia.
Qed.

Lemma toUint8Clamped_ge (r : Z) (y : Q) :
  is_byte r -> (inject_Z r <= y)%Q -> r <= toUint8Clamped (Some y).
Proof.
  intros [Hr0 Hr255] Hy. unfold toUint8Clamped.
  destruct (Qle_bool y 0) eqn:H0.
  - apply Qle_bool_iff in H0.
    assert (H : (inject_Z r <= inject_Z 0)%Q) by (eapply Qle_trans; eauto).
    rewrite <- Zle_Qle in H. exact H.
  - destruct (Qle_bool 255 y); [exact Hr255|].
    assert (Hf : r <= Qfloor y).
    { rewrite <- (Qfloor_Z r). now apply Qfloor_resp_le. }
    destruct (Qcompare _ _); [destruct (Z.even _)|..]; lia.
Qed.

Lemma clamp_byte_ge (r : Z) (x : Q) y :
  is_byte r -> (inject_Z r <= x)%Q -> clamp (Some x) 0 255 = Some y ->
  (inject_Z r <= y)%Q.
Proof.
  intros [Hr0 Hr255] Hx. unfold clamp. intros [= <-].
  assert (H255 : (inject_Z r <= 255)%Q).
  { change 255%Q with (inject_Z 255). now rewrite <- Zle_Qle. }
  destruct (Qle_bool 0 x) eqn:E0.
  - destruct (Qle_bool x 255); assumption.
  - apply Qle_bool_false in E0.
    exfalso. apply (Qlt_irrefl 0). eapply Qle_lt_trans; [|exact E0].
    eapply Qle_trans; [|exact Hx].
    change 0%Q with (inject_Z 0). now rewrite <- Zle_Qle.
Qed.

Lemma boost_pixel_bytes cfg r g b r' g' b' :
  is_byte r -> is_byte g -> is_byte b ->
  boost_pixel cfg r g b = (r', g', b') ->
  is_byte r' /\ is_byte g' /\ is_byte b'.
Proof.
  intros Hr Hg Hb. unfold boost_pixel.
  destruct (option_map _ (to_number (obj_get cfg "threshold"))) as [th|];
    [|intros [= <- <- <-]; auto].
  destruct (Qlt_bool _ th); [|intros [= <- <- <-]; auto].
  destruct (truthy_opt _); intros [= <- <- <-];
    repeat split; apply toUint8Clamped_byte.
Qed.

Lemma by_pixels (P : list Z -> Prop) :
  (forall l, (length l < 4)%nat -> P l) ->
  (forall r g b a rest, P rest -> P (r :: g :: b :: a :: rest)) ->
  forall l, P l.
Proof.
  intros Hshort Hpixel. fix IH 1.
  intros [|r [|g [|b [|a rest]]]]; try (apply Hshort; cbn; lia).
  apply Hpixel, IH.
Qed.

Lemma boost_data_short cfg l : (length l < 4)%nat -> boost_data cfg l = l.
Proof.
  destruct l as [|r [|g [|b [|a rest]]]]; cbn; try reflexivity; lia.
Qed.

Lemma boost_data_pixel cfg r g b a rest :
  boost_data cfg (r :: g :: b :: a :: rest)
  = (boost_pixel cfg r g b).1.1 :: (boost_pixel cfg r g b).1.2
    :: (boost_pixel cfg r g b).2 :: a :: boost_data cfg rest.
Proof. cbn [boost_data]. now destruct (boost_pixel cfg r g b) as [[r' g'] b']. Qed.

Lemma boost_data_length cfg l : length (boost_data cfg l) = length l.
Proof.
  induction l using by_pixels.
  - now rewrite boost_data_short.
  - rewrite boost_data_pixel. cbn. now rewrite IHl.
Qed.

Lemma boost_data_alpha cfg l (i : nat) :
  boost_data cfg l !! (4 * i + 3)%nat = l !! (4 * i + 3)%nat.
Proof.
  revert i. induction l using by_pixels; intros i.
  - now rewrite boost_data_short.
  - rewrite boost_data_pixel. destruct i as [|i]; [reflexivity|].
    replace (4 * S i + 3)%nat with (S (S (S (S (4 * i + 3))))) by lia.
    cbn. apply IHl.
Qed.

Lemma boost_data_bytes cfg l :
  Forall is_byte l -> Forall is_byte (boost_data cfg l).
Proof.
  induction l using by_pixels; intros Hl.
  - now rewrite boost_data_short.
  - rewrite boost_data_pixel.
    apply Forall_cons in Hl as [Hr Hl]. apply Forall_cons in Hl as [Hg Hl].
    apply Forall_cons in Hl as [Hb Hl]. apply Forall_cons in Hl as [Ha Hl].
    destruct (boost_pixel cfg r g b) as [[r' g'] b'] eqn:E.
    destruct (boost_pixel_bytes cfg r g b r' g' b' Hr Hg Hb E) as (? & ? & ?).
    cbn. repeat (apply Forall_cons; split; [assumption|]). now apply IHl.
Qed.

End LowLightFacts.

Section LowLightBrightening.
Import JS Media LowLightCompensation Laws.
Import Lqa.
Local Open Scope Q_scope.

Lemma channel_ge (r : Z) (x : Q) :
  is_byte r -> inject_Z r <= x ->
  (r <= toUint8Clamped (clamp (Some x) 0 255))%Z.
Proof.
  intros Hr Hx.
  destruct (clamp (Some x) 0 255) as [y|] eqn:E; [|discriminate].
  apply toUint8Clamped_ge; [exact Hr|]. eapply clamp_byte_ge; eauto.
Qed.

Lemma byte_nonneg (r : Z) : is_byte r -> 0 <= inject_Z r.
Proof. intros [H _]. change 0 with (inject_Z 0). now rewrite <- Zle_Qle. Qed.

Lemma boost_factor_ge_1 (bo lum th : Q) :
  1 <= bo -> 0 <= lum -> lum < th -> 1 <= 1 + (bo - 1) * (1 - lum / th).
Proof.
  intros Hbo Hlum Hth.
  assert (Hpos : 0 < th) by lra.
  assert (Hdiv : lum / th <= 1).
  { apply Qle_shift_div_r; [exact Hpos|lra]. }
  assert (0 <= (bo - 1) * (1 - lum / th)); [|lra].
  apply Qmult_le_0_compat; lra.
Qed.

Lemma scaled_ge (x f : Q) : 0 <= x -> 1 <= f -> x <= x * f.
Proof.
  intros Hx Hf.
  assert (0 <= x * (f - 1)) by (apply Qmult_le_0_compat; lra).
  lra.
Qed.

Lemma boost_pixel_brightens cfg bo r g b :
  obj_get cfg "boost" = Some (VNum bo) -> 1 <= bo ->
  truthy_opt (obj_get cfg "preserveColors") = true ->
  is_byte r -> is_byte g -> is_byte b ->
  (r <= (boost_pixel cfg r g b).1.1 /\ g <= (boost_pixel cfg r g b).1.2 /\
   b <= (boost_pixel cfg r g b).2)%Z.
Proof.
  intros Hboost Hbo Hpc Hr Hg Hb. unfold boost_pixel.
  rewrite Hboost, Hpc. cbn [to_number option_map].
  destruct (option_map _ (to_number (obj_get cfg "threshold"))) as [th|];
    [|cbn; lia].
  destruct (Qlt_bool _ th) eqn:E; [|cbn; lia].
  apply Qlt_bool_true in E.
  pose proof (byte_nonneg r Hr). pose proof (byte_nonneg g Hg).
  pose proof (byte_nonneg b Hb).
  assert (Hf : 1 <= 1 + (bo - 1)
                 * (1 - (0.299 * inject_Z r + 0.587 * inject_Z g
                         + 0.114 * inject_Z b) / th)).
  { apply boost_factor_ge_1; [exact Hbo|lra|exact E]. }
  cbn [fst snd].
  repeat split; apply channel_ge; try assumption; now apply scaled_ge.
Qed.

Lemma boost_data_brightens cfg bo l :
  obj_get cfg "boost" = Some (VNum bo) -> 1 <= bo ->
  truthy_opt (obj_get cfg "preserveColors") = true ->
  Forall is_byte l -> Forall2 Z.le l (boost_data cfg l).
Proof.
  intros Hboost Hbo Hpc. induction l using by_pixels; intros Hl.
  - rewrite boost_data_short by assumption.
    clear. induction l; constructor; [lia|assumption].
  - rewrite boost_data_pixel.
    apply Forall_cons in Hl as [Hr Hl]. apply Forall_cons in Hl as [Hg Hl].
    apply Forall_cons in Hl as [Hb Hl]. apply Forall_cons in Hl as [Ha Hl].
    destruct (boost_pixel_brightens cfg bo r g b Hboost Hbo Hpc Hr Hg Hb)
      as (? & ? & ?).
    repeat (constructor; [assumption || lia|]). now apply IHl.
Qed.

End LowLightBrightening.

(** X15. Low-light compensation returns an image of the same width, height
    and byte count, never touches an alpha byte, and keeps every byte
    within 0..255. *)
Theorem lowlight_keeps_shape_alpha_and_range :
  forall (m : LowLightCompensation.t) (img : Media.ImageData),
    Forall Laws.is_byte (Media.data img) ->
    let out := LowLightCompensation.processCanvas m img in
    Media.width out = Media.width img /\
    Media.height out = Media.height img /\
    length (Media.data out) = length (Media.data img) /\
    (forall i : nat,
        Media.data out !! (4 * i + 3)%nat = Media.data img !! (4 * i + 3)%nat) /\
    Forall Laws.is_byte (Media.data out).
Proof.
  intros m img Hbytes. cbn.
  split; [reflexivity|]. split; [reflexivity|].
  split; [apply boost_data_length|].
  split; [intros i; apply boost_data_alpha|now apply boost_data_bytes].
Qed.

Lemma lowlight_keeps_shape_alpha_and_range_witness :
  let m := LowLightCompensation.initialize (LowLightCompensation.create None) in
  let img := {| Media.width := 2; Media.height := 1;
                Media.data := [10; 20; 30; 255; 200; 200; 200; 128]%Z |} in
  Forall Laws.is_byte (Media.data img) /\
  Media.data (LowLightCompensation.processCanvas m img)
  = [14; 28; 41; 255; 200; 200; 200; 128]%Z /\
  Forall Laws.is_byte (Media.data (LowLightCompensation.processCanvas m img)).
Proof.
  intros m img.
  assert (H : Forall Laws.is_byte (Media.data img)).
  { cbn. repeat constructor; unfold Laws.is_byte; lia. }
  split; [exact H|]. split; [vm_compute; reflexivity|].
  exact (proj2 (proj2 (proj2 (proj2
    (lowlight_keeps_shape_alpha_and_range m img H))))).
Defined.

(** X16. With a numeric threshold, colours preserved and a boost of at
    least 1, low-light compensation never darkens: every byte of the result
    is at least the byte it replaces. *)
Theorem lowlight_never_darkens :
  forall (m : LowLightCompensation.t) (img : Media.ImageData)
         (threshold boost : Q),
    JS.obj_get (LowLightCompensation.config m) "threshold"
    = Some (JS.VNum threshold) ->
    JS.obj_get (LowLightCompensation.config m) "boost" = Some (JS.VNum boost) ->
    (1 <= boost)%Q ->
    JS.truthy_opt (JS.obj_get (LowLightCompensation.config m) "preserveColors")
    = true ->
    Forall Laws.is_byte (Media.data img) ->
    Forall2 Z.le (Media.data img)
      (Media.data (LowLightCompensation.processCanvas m img)).
Proof.
  intros m img threshold boost _ Hboost Hge Hpc Hbytes. cbn.
  now apply (boost_data_brightens _ boost).
Qed.

Lemma lowlight_never_darkens_witness :
  let m := LowLightCompensation.initialize (LowLightCompensation.create None) in
  let img := {| Media.width := 2; Media.height := 1;
                Media.data := [10; 20; 30; 255; 200; 200; 200; 128]%Z |} in
  Forall2 Z.le (Media.data img)
    (Media.data (LowLightCompensation.processCanvas m img)).
Proof.
  intros m img.
  apply (lowlight_never_darkens m img 0.3 1.5).
  - vm_compute. reflexivity.
  - vm_compute. reflexivity.
  - vm_compute. discriminate.
  - vm_compute. reflexivity.
  - cbn. repeat constructor; unfold Laws.is_byte; lia.
Defined.

(** ** Noise suppression (audio/NoiseSuppressor.js) *)

Section NoiseFacts.
Import NoiseSuppressor.
Import Lqa.
Local Open Scope Q_scope.

Lemma own_settings intensity st :
  intensitySettings intensity = Own st ->
  0 < threshold st /\ 0 < reduction st /\ reduction st <= 1.
Proof.
  unfold intensitySettings.
  repeat (destruct (String.eqb intensity _);
          [intros [= <-]; cbn; repeat split; lra|]).
  destruct (ObjectPrototype.inherits intensity); discriminate.
Qed.

Lemma fold_min_Forall (P : Q -> Prop) l acc :
  Forall P l -> from_option P True acc ->
  from_option P True
    (fold_left (fun (min : option Q) x =>
                  match min with
                  | None => Some x
                  | Some m => if Media.Qlt_bool x m then Some x else Some m
                  end) l acc).
Proof.
  intros Hl. revert acc. induction Hl as [|x l Hx Hl IH]; intros acc Hacc; cbn.
  - exact Hacc.
  - apply IH. destruct acc as [m|]; [destruct (Media.Qlt_bool x m)|]; assumption.
Qed.

Lemma estimateNoiseLevel_Forall (P : Q -> Prop) data i m :
  Forall P data -> estimateNoiseLevel data i = Some m -> P m.
Proof.
  intros Hdata E. unfold estimateNoiseLevel in E.
  pose proof (fold_min_Forall P
                (take (Nat.min (length data) (i + 5) - (i - 5)) (drop (i - 5) data))
                None) as H.
  rewrite E in H. apply H; [|exact I].
  now apply Forall_take, Forall_drop.
Qed.

Lemma suppress_bin_gated st data i x :
  0 < threshold st -> 0 <= reduction st ->
  Forall (fun x => 0 <= x) data -> 0 <= x ->
  suppress_bin st data i x = 0 \/
  (threshold st < suppress_bin st data i x /\ suppress_bin st data i x <= x).
Proof.
  intros Hth Hred Hdata Hx. unfold suppress_bin.
  destruct (estimateNoiseLevel data i) as [m|] eqn:E; [|now left].
  assert (Hm : 0 <= m) by exact (estimateNoiseLevel_Forall _ data i m Hdata E).
  assert (Hprod : 0 <= m * reduction st) by now apply Qmult_le_0_compat.
  destruct (Media.Qlt_bool _ _) eqn:Egate; [right|now left].
  apply Qlt_bool_true in Egate. split; [exact Egate|].
  destruct (Qle_bool 0 (x - m * reduction st)); lra.
Qed.

Lemma applyNoiseSuppression_own intensity st data :
  intensitySettings intensity = Own st ->
  applyNoiseSuppression intensity data = Return (imap (suppress_bin st data) data).
Proof.
  intros E. unfold applyNoiseSuppression. rewrite E. now destruct data.
Qed.

Lemma energy_of_silence l acc :
  Forall (fun y => y = 0) l ->
  fold_left (fun sum val => sum + val * val) l acc == acc.
Proof.
  intros Hl. revert acc. induction Hl as [|y l -> Hl IH]; intros acc; cbn.
  - reflexivity.
  - rewrite IH. lra.
Qed.

Lemma noise_reduction_range intensity st processed :
  intensitySettings intensity = Own st -> processed <> [] ->
  exists r, calculateNoiseReduction intensity processed = Return (Some r) /\
            0.1 <= r /\ r <= 1.
Proof.
  intros E Hne. unfold calculateNoiseReduction. rewrite E.
  destruct processed as [|y l]; [contradiction|].
  cbn [length Nat.eqb]. eexists. split; [reflexivity|].
  set (scaled := _ * reduction st).
  destruct (Qle_bool 1 scaled) eqn:E1.
  - destruct (Qle_bool 0.1 1) eqn:E2; split; lra.
  - apply Qle_bool_false in E1.
    destruct (Qle_bool 0.1 scaled) eqn:E2.
    + apply Qle_bool_iff in E2. split; lra.
    + split; lra.
Qed.

Lemma noise_reduction_of_silence intensity st processed :
  intensitySettings intensity = Own st -> processed <> [] ->
  Forall (fun y => y = 0) processed ->
  calculateNoiseReduction intensity processed = Return (Some 0.1).
Proof.
  intros E Hne Hzero. unfold calculateNoiseReduction. rewrite E.
  destruct processed as [|y l]; [contradiction|].
  cbn [length Nat.eqb].
  set (energy := fold_left _ _ _).
  assert (He : energy == 0) by (subst energy; now apply energy_of_silence).
  set (n := inject_Z _).
  assert (Hs : energy / n * reduction st == 0).
  { rewrite He. unfold Qdiv. now rewrite !Qmult_0_l. }
  destruct (Qle_bool 1 _) eqn:E1.
  { apply Qle_bool_iff in E1. rewrite Hs in E1. lra. }
  destruct (Qle_bool 0.1 _) eqn:E2; [|reflexivity].
  apply Qle_bool_iff in E2. rewrite Hs in E2. lra.
Qed.

End NoiseFacts.

(** X17. With one of the intensities low, medium or high and a spectrum of
    non-negative magnitudes, [applyNoiseSuppression] returns as many bins
    as it is given, and each of them is either 0 or above the threshold of
    the intensity and at most the magnitude it replaces. *)
Theorem suppressed_bins_are_zero_or_above_threshold :
  forall (intensity : string) (st : NoiseSuppressor.settings)
         (frequencyData : list Q),
    NoiseSuppressor.intensitySettings intensity = NoiseSuppressor.Own st ->
    Forall (fun x => 0 <= x)%Q frequencyData ->
    exists processed,
      NoiseSuppressor.applyNoiseSuppression intensity frequencyData
      = Return processed /\
      length processed = length frequencyData /\
      forall (i : nat) (x y : Q),
        frequencyData !! i = Some x -> processed !! i = Some y ->
        y = 0%Q \/ (NoiseSuppressor.threshold st < y /\ y <= x)%Q.
Proof.
  intros intensity st data E Hdata.
  destruct (own_settings intensity st E) as (Hth & Hred & _).
  eexists. split; [exact (applyNoiseSuppression_own _ st _ E)|].
  split; [apply length_imap|].
  intros i x y Hx Hy. rewrite list_lookup_imap, Hx in Hy. cbn in Hy.
  injection Hy as <-.
  apply suppress_bin_gated; try assumption.
  - now apply Qlt_le_weak.
  - exact (proj1 (Forall_lookup _ _) Hdata i x Hx).
Qed.

Lemma suppressed_bins_are_zero_or_above_threshold_witness :
  NoiseSuppressor.applyNoiseSuppression "high" [1; 0.05; 2]%Q
  = Return (imap (NoiseSuppressor.suppress_bin
                    {| NoiseSuppressor.threshold := 0.1;
                       NoiseSuppressor.reduction := 0.9 |} [1; 0.05; 2]%Q)
              [1; 0.05; 2]%Q) /\
  exists processed,
    NoiseSuppressor.applyNoiseSuppression "high" [1; 0.05; 2]%Q
    = Return processed /\ length processed = 3%nat.
Proof.
  split; [reflexivity|].
  destruct (suppressed_bins_are_zero_or_above_threshold "high"
              {| NoiseSuppressor.threshold := 0.1;
                 NoiseSuppressor.reduction := 0.9 |} [1; 0.05; 2]%Q eq_refl)
    as (processed & E & Hlen & _).
  - repeat constructor; discriminate.
  - exists processed. split; [exact E|exact Hlen].
Defined.

(** X18. An initialised noise suppressor whose intensity is low, medium or
    high, given a spectrum that is not empty, multiplies every input sample
    by one common factor between 0.1 and 1 and counts one more frame: it
    attenuates by at most 20 dB and never amplifies. *)
Theorem noise_suppressor_scales_by_a_bounded_factor :
  forall (s : NoiseSuppressor.t) (st : NoiseSuppressor.settings) (bins : nat)
         (linearData inputData : list Q),
    NoiseSuppressor.analyser s = Some bins ->
    NoiseSuppressor.intensitySettings (NoiseSuppressor.intensity s)
    = NoiseSuppressor.Own st ->
    linearData <> [] ->
    exists r : Q,
      (0.1 <= r /\ r <= 1)%Q /\
      fst (NoiseSuppressor.processAudio linearData inputData s)
      = Return (map (fun x => Some (x * r)%Q) inputData) /\
      NoiseSuppressor.frameCount
        (snd (NoiseSuppressor.processAudio linearData inputData s))
      = S (NoiseSuppressor.frameCount s).
Proof.
  intros s st bins linear input Ha E Hne.
  destruct (noise_reduction_range (NoiseSuppressor.intensity s) st
              (imap (NoiseSuppressor.suppress_bin st linear) linear) E)
    as (r & Hr & Hlo & Hhi).
  { intros Hnil. apply (f_equal length) in Hnil. rewrite length_imap in Hnil.
    destruct linear; [contradiction|discriminate]. }
  exists r. split; [split; assumption|].
  unfold NoiseSuppressor.processAudio, mbind, prog_bind, read, lift, modify.
  rewrite Ha, (applyNoiseSuppression_own _ st linear E), Hr. cbn.
  split; reflexivity.
Qed.

Lemma noise_suppressor_scales_by_a_bounded_factor_witness :
  let s := NoiseSuppressor.initialize (NoiseSuppressor.create None) in
  exists r : Q,
    (0.1 <= r /\ r <= 1)%Q /\
    fst (NoiseSuppressor.processAudio [1; 0.05; 2]%Q [0.5; -0.25]%Q s)
    = Return (map (fun x => Some (x * r)%Q) [0.5; -0.25]%Q).
Proof.
  intros s.
  destruct (noise_suppressor_scales_by_a_bounded_factor s
              {| NoiseSuppressor.threshold := 0.2;
                 NoiseSuppressor.reduction := 0.7 |} 1024 [1; 0.05; 2]%Q
              [0.5; -0.25]%Q eq_refl eq_refl)
    as (r & Hr & Hout & _).
  - discriminate.
  - exists r. split; [exact Hr|exact Hout].
Defined.

(** X19. When no magnitude of a non-empty, non-negative spectrum exceeds the
    threshold of the intensity, the suppressor scales every input sample by
    exactly 0.1. *)
Theorem quiet_spectrum_is_attenuated_to_the_floor :
  forall (s : NoiseSuppressor.t) (st : NoiseSuppressor.settings) (bins : nat)
         (linearData inputData : list Q),
    NoiseSuppressor.analyser s = Some bins ->
    NoiseSuppressor.intensitySettings (NoiseSuppressor.intensity s)
    = NoiseSuppressor.Own st ->
    linearData <> [] ->
    Forall (fun x => 0 <= x /\ x <= NoiseSuppressor.threshold st)%Q linearData ->
    fst (NoiseSuppressor.processAudio linearData inputData s)
    = Return (map (fun x => Some (x * 0.1)%Q) inputData).
Proof.
  intros s st bins linear input Ha E Hne Hquiet.
  destruct (own_settings _ st E) as (Hth & Hred & _).
  assert (Hzero : Forall (fun y => y = 0%Q)
                    (imap (NoiseSuppressor.suppress_bin st linear) linear)).
  { apply Forall_lookup. intros i y Hy.
    rewrite list_lookup_imap in Hy.
    destruct (linear !! i) as [x|] eqn:Hx; [|discriminate].
    cbn in Hy. injection Hy as <-.
    destruct (proj1 (Forall_lookup _ _) Hquiet i x Hx) as [Hx0 Hxt].
    destruct (suppress_bin_gated st linear i x Hth (Qlt_le_weak _ _ Hred))
      as [H|[H1 H2]]; try assumption.
    - eapply Forall_impl; [exact Hquiet|]. now intros ? [? _].
    - exfalso. apply (Qlt_irrefl (NoiseSuppressor.threshold st)).
      eapply Qlt_le_trans; [exact H1|]. eapply Qle_trans; eauto. }
  unfold NoiseSuppressor.processAudio, mbind, prog_bind, read, lift, modify.
  rewrite Ha, (applyNoiseSuppression_own _ st linear E).
  rewrite (noise_reduction_of_silence _ st _ E); [reflexivity| |exact Hzero].
  intros Hnil. apply (f_equal length) in Hnil. rewrite length_imap in Hnil.
  destruct linear; [contradiction|discriminate].
Qed.

Lemma quiet_spectrum_is_attenuated_to_the_floor_witness :
  let s := NoiseSuppressor.initialize (NoiseSuppressor.create (Some "low"%string)) in
  fst (NoiseSuppressor.processAudio [0.1; 0.3; 0]%Q [0.5; -0.25]%Q s)
  = Return (map (fun x => Some (x * 0.1)%Q) [0.5; -0.25]%Q).
Proof.
  intros s.
  apply (quiet_spectrum_is_attenuated_to_the_floor s
           {| NoiseSuppressor.threshold := 0.3;
              NoiseSuppressor.reduction := 0.5 |} 1024).
  - reflexivity.
  - reflexivity.
  - discriminate.
  - repeat constructor; discriminate.
Defined.

(** X20. [setIntensity] rejects a name only when the lookup in the
    settings finds nothing: the name of a member that every object
    inherits, such as [constructor], is accepted, and from then on every
    output sample is NaN. *)
Theorem setIntensity_accepts_inherited_names :
  forall (s : NoiseSuppressor.t) (name : string) (bins : nat)
         (linearData inputData : list Q),
    NoiseSuppressor.intensitySettings name = NoiseSuppressor.Inherited ->
    NoiseSuppressor.analyser s = Some bins ->
    let s' := snd (NoiseSuppressor.setIntensity name s) in
    fst (NoiseSuppressor.setIntensity name s) = Return tt /\
    NoiseSuppressor.intensity s' = name /\
    fst (NoiseSuppressor.processAudio linearData inputData s')
    = Return (map (fun _ => None) inputData).
Proof.
  intros s name bins linear input E Ha. unfold NoiseSuppressor.setIntensity.
  rewrite E. cbn [fst snd NoiseSuppressor.intensity].
  split; [reflexivity|]. split; [reflexivity|].
  unfold NoiseSuppressor.processAudio, mbind, prog_bind, read, lift, modify.
  cbn -[NoiseSuppressor.applyNoiseSuppression
        NoiseSuppressor.calculateNoiseReduction].
  rewrite Ha.
  cbn -[NoiseSuppressor.applyNoiseSuppression
        NoiseSuppressor.calculateNoiseReduction].
  unfold NoiseSuppressor.applyNoiseSuppression,
    NoiseSuppressor.calculateNoiseReduction. rewrite E.
  destruct linear; reflexivity.
Qed.

Lemma setIntensity_accepts_inherited_names_witness :
  let s := NoiseSuppressor.initialize (NoiseSuppressor.create None) in
  fst (NoiseSuppressor.processAudio [1; 2]%Q [0.5; -0.25]%Q
         (snd (NoiseSuppressor.setIntensity "constructor" s)))
  = Return [None; None].
Proof.
  intros s.
  exact (proj2 (proj2
    (setIntensity_accepts_inherited_names s "constructor" 1024 [1; 2]%Q
       [0.5; -0.25]%Q eq_refl eq_refl))).
Defined.

(** ** Voice focus (audio/VoiceFocus.js) *)

Section VoiceFacts.
Import VoiceFocus VoiceFocusControl.
Import Lqa.
Local Open Scope Q_scope.

Variable magnitude : Q -> Q.






Lemma clamp_range (x lo hi : Q) :
  lo <= hi -> lo <= clamp x lo hi /\ clamp x lo hi <= hi.
Proof.
  intros H. unfold clamp.
  destruct (Qle_bool lo x) eqn:E1.
  - apply Qle_bool_iff in E1.
    destruct (Qle_bool x hi) eqn:E2.
    + apply Qle_bool_iff in E2. split; assumption.
    + split; lra.
  - destruct (Qle_bool lo hi) eqn:E2; split; lra.
Qed.

Lemma setFrequencyRange_band lowFreq highFreq store f :
  band (setFrequencyRange lowFreq highFreq store f).1
       (setFrequencyRange lowFreq highFreq store f).2
  = (Some (clamp lowFreq 50 500), Some (clamp highFreq 200 1000)).
Proof.
  unfold setFrequencyRange, updateFilters, band. cbn.
  rewrite lookup_insert_eq. reflexivity.
Qed.

End VoiceFacts.



(** X22. [setFrequencyRange(lowFreq, highFreq)] stores a new array: every
    array that existed, the default range and any range handed out in a
    statistics snapshot among them, keeps its contents, and the band read
    afterwards is the pair of the arguments clamped to 50..500 and
    200..1000. *)
Theorem setFrequencyRange_installs_a_new_array :
  forall (lowFreq highFreq : Q) (store : gmap nat (list Q)) (f : VoiceFocus.t),
    let store' := fst (VoiceFocusControl.setFrequencyRange lowFreq highFreq store f) in
    let f' := snd (VoiceFocusControl.setFrequencyRange lowFreq highFreq store f) in
    (forall ref arr, store !! ref = Some arr -> store' !! ref = Some arr) /\
    store !! VoiceFocus.frequencyRange f' = None /\
    VoiceFocus.band store' f'
    = (Some (VoiceFocusControl.clamp lowFreq 50 500),
       Some (VoiceFocusControl.clamp highFreq 200 1000)) /\
    (50 <= VoiceFocusControl.clamp lowFreq 50 500 <= 500)%Q /\
    (200 <= VoiceFocusControl.clamp highFreq 200 1000 <= 1000)%Q.
Proof.
  intros lowFreq highFreq store f store' f'.
  assert (Hfresh : store !! fresh (dom store) = None).
  { apply not_elem_of_dom. apply is_fresh. }
  split; [|split; [|split; [|split]]].
  - intros ref arr Href. subst store'. cbn.
    rewrite lookup_insert_ne; [exact Href|].
    intros <-. rewrite Hfresh in Href. discriminate.
  - subst f'. unfold VoiceFocusControl.setFrequencyRange,
      VoiceFocusControl.updateFilters. cbn [snd].
    match goal with |- context [let '(_, _) := ?b in _] => destruct b end.
    exact Hfresh.
  - apply setFrequencyRange_band.
  - apply clamp_range. discriminate.
  - apply clamp_range. discriminate.
Qed.



(** ** Gain control: target gain and smoothing *)

Section GainSteps.
Import AutomaticGainControl.
Local Open Scope R_scope.

Lemma clamp_monotone x y lo hi : x <= y -> clamp x lo hi <= clamp y lo hi.
Proof.
  intros H. unfold clamp, Rmin, Rmax.
  destruct (Rle_dec x lo), (Rle_dec y lo);
    repeat match goal with |- context [Rle_dec ?a ?b] => destruct (Rle_dec a b) end;
    lra.
Qed.

Lemma dbToGain_monotone x y : x <= y -> dbToGain x <= dbToGain y.
Proof.
  intros H. unfold dbToGain. apply Rle_Rpower; lra.
Qed.

Lemma dbToGain_0 : dbToGain 0 = 1.
Proof.
  unfold dbToGain. replace (0 / 20) with 0 by lra. apply Rpower_O. lra.
Qed.

Lemma adjustment_monotone ratio d1 d2 :
  0 < ratio -> d1 <= d2 ->
  (if Rlt_dec 0 d1 then d1 else d1 / ratio)
  <= (if Rlt_dec 0 d2 then d2 else d2 / ratio).
Proof.
  intros Hr Hd.
  pose proof (Rinv_0_lt_compat ratio Hr) as Hinv.
  destruct (Rlt_dec 0 d1), (Rlt_dec 0 d2); unfold Rdiv; try lra.
  - assert (d1 * / ratio <= 0) by nra. lra.
  - nra.
Qed.

Lemma target_gain_antitone g level1 level2 :
  0 < compressionRatio (cfg g) -> level1 <= level2 ->
  calculateTargetGain g level2 <= calculateTargetGain g level1.
Proof.
  intros Hr Hl. unfold calculateTargetGain.
  apply clamp_monotone, dbToGain_monotone, adjustment_monotone; [exact Hr|lra].
Qed.

Lemma target_gain_at_target g :
  calculateTargetGain g (targetLevel (cfg g)) = 1.
Proof.
  unfold calculateTargetGain.
  replace (targetLevel (cfg g) - targetLevel (cfg g)) with 0 by lra.
  destruct (Rlt_dec 0 0); [lra|].
  replace (0 / compressionRatio (cfg g)) with 0 by (unfold Rdiv; lra).
  rewrite dbToGain_0. unfold clamp, AGC_MIN_GAIN, AGC_MAX_GAIN, Rmin, Rmax.
  destruct (Rle_dec 1 (1 / 10)); [lra|]. destruct (Rle_dec 1 10); lra.
Qed.

End GainSteps.

(** X24. With a positive compression ratio the target gain never grows
    with the input level: a louder buffer gets at most the gain of a quieter
    one, a buffer at the target level gets gain 1, so that quieter input is
    never attenuated and louder input never amplified. *)
Theorem agc_target_gain_falls_with_input_level :
  forall (g : AutomaticGainControl.t) (level1 level2 : R),
    (0 < AutomaticGainControl.compressionRatio (AutomaticGainControl.cfg g))%R ->
    (level1 <= level2)%R ->
    (AutomaticGainControl.calculateTargetGain g level2
     <= AutomaticGainControl.calculateTargetGain g level1)%R /\
    AutomaticGainControl.calculateTargetGain g
      (AutomaticGainControl.targetLevel (AutomaticGainControl.cfg g)) = 1%R /\
    (level2 <= AutomaticGainControl.targetLevel (AutomaticGainControl.cfg g) ->
     1 <= AutomaticGainControl.calculateTargetGain g level2)%R /\
    (AutomaticGainControl.targetLevel (AutomaticGainControl.cfg g) <= level1 ->
     AutomaticGainControl.calculateTargetGain g level1 <= 1)%R.
Proof.
  intros g level1 level2 Hr Hl.
  split; [now apply target_gain_antitone|].
  split; [apply target_gain_at_target|].
  split; intros H; rewrite <- (target_gain_at_target g);
    now apply target_gain_antitone.
Qed.

Lemma agc_target_gain_falls_with_input_level_witness :
  let g := AutomaticGainControl.initialize
             (AutomaticGainControl.create 48000 (Spec.agc_config (1 / 10) (1 / 2))) in
  (AutomaticGainControl.calculateTargetGain g (-10)
   <= AutomaticGainControl.calculateTargetGain g (-30))%R.
Proof.
  intros g.
  refine (proj1 (agc_target_gain_falls_with_input_level g (-30) (-10) _ _)).
  - cbn. lra.
  - lra.
Defined.


(** ** Video pipeline: frame loop and feature switches *)

Section FrameLoop.
Import JS Media VideoProcessor.

Lemma processVideoFrame_keeps_timing p v frame out :
  snd (processVideoFrame p v frame) = Return out ->
  timestamp out = timestamp frame /\ duration out = duration frame.
Proof.
  unfold processVideoFrame. cbn [snd].
  match goal with |- context [match ?r with _ => _ end] => destruct r end;
    [|discriminate].
  intros [= <-]. split; reflexivity.
Qed.

Lemma processVideoFrame_counted p v frame :
  processVideoFrame p (count_frame v) frame = processVideoFrame p v frame.
Proof. reflexivity. Qed.

Lemma processFrames_cons p frame rest v :
  processFrames p (frame :: rest) v
  = match snd (processVideoFrame p v frame) with
    | Return processedFrame =>
        (processedFrame :: fst (processFrames p rest (count_frame v)),
         snd (processFrames p rest (count_frame v)))
    | Throw _ => ([], emit "error" v)
    end.
Proof.
  cbn [processFrames]. destruct (snd (processVideoFrame p v frame)); [|reflexivity].
  now destruct (processFrames p rest (count_frame v)).
Qed.

Lemma processFrames_effect p frames : forall v,
  let written := fst (processFrames p frames v) in
  let v' := snd (processFrames p frames v) in
  (length written <= length frames)%nat /\
  map timestamp written = take (length written) (map timestamp frames) /\
  map duration written = take (length written) (map duration frames) /\
  frameCount v' = (frameCount v + length written)%nat /\
  emitted v'
  = emitted v ++ replicate (length written) "stats:updated"
    ++ (if (length written <? length frames)%nat then ["error"] else []).
Proof.
  induction frames as [|frame rest IH]; intros v.
  - cbn. repeat split; try lia. now rewrite app_nil_r.
  - cbn zeta. rewrite processFrames_cons.
    destruct (snd (processVideoFrame p v frame)) as [out|e] eqn:E.
    + destruct (processVideoFrame_keeps_timing p v frame out E) as [Ht Hd].
      destruct (IH (count_frame v)) as (Hlen & Hts & Hds & Hfc & Hem).
      cbn [fst snd length map take].
      rewrite Hts, Hds, Hfc, Hem, Ht, Hd. cbn [frameCount emitted count_frame].
      repeat split; try lia.
      rewrite <- !app_assoc. reflexivity.
    + cbn. repeat split; try lia.
Qed.

Lemma processFrames_contents p frames : forall v,
  let written := fst (processFrames p frames v) in
  Forall2 (fun frame out => snd (processVideoFrame p v frame) = Return out)
    (take (length written) frames) written /\
  (forall frame, frames !! length written = Some frame ->
                 exists e, snd (processVideoFrame p v frame) = Throw e).
Proof.
  induction frames as [|frame rest IH]; intros v.
  - cbn. split; [constructor|]. intros frame H. discriminate.
  - cbn zeta. rewrite processFrames_cons.
    destruct (snd (processVideoFrame p v frame)) as [out|e] eqn:E.
    + destruct (IH (count_frame v)) as [Hall Hstop].
      cbn [fst length take]. split.
      * constructor; [exact E|]. exact Hall.
      * intros next Hnext. exact (Hstop next Hnext).
    + cbn. split; [constructor|].
      intros next [= <-]. now exists e.
Qed.

End FrameLoop.

Section FeatureSwitch.
Import JS Media VideoProcessor.

Lemma known_feature_cases feature :
  known_feature feature = true ->
  feature = "colorCorrection" \/ feature = "lowLightCompensation"
  \/ feature = "backgroundBlur".
Proof.
  unfold known_feature. intros H.
  apply orb_true_iff in H as [H|H]; [apply orb_true_iff in H as [H|H]|];
    apply String.eqb_eq in H; auto.
Qed.

Lemma has_module_other feature feature' v v' :
  feature' <> feature ->
  (feature <> "colorCorrection" -> colorCorrection v' = colorCorrection v) ->
  (feature <> "lowLightCompensation" ->
   lowLightCompensation v' = lowLightCompensation v) ->
  (feature <> "backgroundBlur" -> backgroundBlur v' = backgroundBlur v) ->
  has_module feature' v' = has_module feature' v.
Proof.
  intros Hne Hc Hl Hb. unfold has_module.
  destruct (String.eqb feature' "colorCorrection") eqn:E1.
  { apply String.eqb_eq in E1. subst feature'. rewrite Hc; [reflexivity|].
    intros ->. now apply Hne. }
  destruct (String.eqb feature' "lowLightCompensation") eqn:E2.
  { apply String.eqb_eq in E2. subst feature'. rewrite Hl; [reflexivity|].
    intros ->. now apply Hne. }
  destruct (String.eqb feature' "backgroundBlur") eqn:E3; [|reflexivity].
  apply String.eqb_eq in E3. subst feature'. rewrite Hb; [reflexivity|].
  intros ->. now apply Hne.
Qed.

Lemma switched_flag feature (b : bool) fs c :
  get_path (VObj (obj_set feature (VObj (obj_set "enabled" (VBool b) fs))
                    (own_props c)))
    [feature; "enabled"]
  = Some (VBool b).
Proof.
  cbn [get_path]. unfold get at 1. cbn [own_props].
  rewrite obj_get_set_same. unfold get. cbn [own_props].
  now rewrite obj_get_set_same.
Qed.

Lemma setFeature_effect p feature (b : bool) v c fs :
  known_feature feature = true ->
  shaderCompiles p = true ->
  config v = Some c ->
  get c feature = Some (VObj fs) ->
  fst (setFeature p feature b v) = Return tt /\
  has_module feature (snd (setFeature p feature b v)) = b /\
  config (snd (setFeature p feature b v))
  = Some (VObj (obj_set feature (VObj (obj_set "enabled" (VBool b) fs))
                  (own_props c))) /\
  (feature <> "colorCorrection" ->
   colorCorrection (snd (setFeature p feature b v)) = colorCorrection v) /\
  (feature <> "lowLightCompensation" ->
   lowLightCompensation (snd (setFeature p feature b v)) = lowLightCompensation v) /\
  (feature <> "backgroundBlur" ->
   backgroundBlur (snd (setFeature p feature b v)) = backgroundBlur v) /\
  gl (snd (setFeature p feature b v)) = gl v.
Proof.
  intros Hk Hs Hc Hg. unfold setFeature. rewrite Hk. cbn [negb].
  assert (Hm : member (config v) feature = Return (Some (VObj fs))).
  { rewrite Hc. unfold member. destruct c; cbn in Hg |- *; try discriminate;
      now rewrite Hg. }
  rewrite Hc in Hm.
  destruct (known_feature_cases feature Hk) as [->|[->| ->]];
    unfold mbind, prog_bind, read, modify, has_module, createModule, removeModule,
      assign_enabled, install_colorCorrection, install_lowLightCompensation,
      install_backgroundBlur, ColorCorrection.initialize;
    cbn [String.eqb Ascii.eqb Bool.eqb andb];
    rewrite ?Hs;
    destruct b;
    [ destruct (colorCorrection v) eqn:Es
    | destruct (colorCorrection v) eqn:Es
    | destruct (lowLightCompensation v) eqn:Es
    | destruct (lowLightCompensation v) eqn:Es
    | destruct (backgroundBlur v) eqn:Es
    | destruct (backgroundBlur v) eqn:Es ];
    cbn -[member obj_set]; rewrite ?Hc; cbn -[member obj_set];
    rewrite ?Hm; cbn -[member obj_set];
    rewrite ?Hc, ?Es; cbn -[member obj_set];
    rewrite ?Hm; cbn -[member obj_set]; rewrite ?Hc, ?Es;
    repeat split; try reflexivity; try congruence;
    try (apply bool_decide_eq_true; eauto);
    try (apply bool_decide_eq_false; intros [? ?]; congruence).
Qed.

End FeatureSwitch.

(** X26. The frame loop writes the processed frames of a prefix of the
    frames it reads: each frame written is what [processVideoFrame] returns
    for the frame read at its position, in order and with the timestamp and
    the duration of that frame, and the prefix ends where the frames end or
    at the first frame on which [processVideoFrame] throws; the loop counts
    one frame and one statistics update for each frame written, and when it
    stops early the last thing it does is to emit [error]. *)
Theorem frame_loop_writes_a_prefix_in_order :
  forall (p : Media.Platform) (frames : list Media.VideoFrame)
         (v : VideoProcessor.t),
    let written := fst (VideoProcessor.processFrames p frames v) in
    let v' := snd (VideoProcessor.processFrames p frames v) in
    (length written <= length frames)%nat /\
    Forall2 (fun frame out =>
               snd (VideoProcessor.processVideoFrame p v frame) = Return out)
      (take (length written) frames) written /\
    (forall frame,
        frames !! length written = Some frame ->
        exists e, snd (VideoProcessor.processVideoFrame p v frame) = Throw e) /\
    map Media.timestamp written
    = take (length written) (map Media.timestamp frames) /\
    map Media.duration written
    = take (length written) (map Media.duration frames) /\
    VideoProcessor.frameCount v'
    = (VideoProcessor.frameCount v + length written)%nat /\
    VideoProcessor.emitted v'
    = VideoProcessor.emitted v
      ++ replicate (length written) "stats:updated"
      ++ (if (length written <? length frames)%nat then ["error"] else []).
Proof.
  intros p frames v.
  destruct (processFrames_effect p frames v) as (Hlen & Hrest).
  destruct (processFrames_contents p frames v) as (Hall & Hstop).
  split; [exact Hlen|]. split; [exact Hall|]. split; [exact Hstop|].
  exact Hrest.
Qed.

(** X27. On a pipeline that holds a WebGL context, as an initialised one
    does, whose configuration holds an object for a feature among colour
    correction, low-light compensation and background blur, and where
    shaders compile, [setFeature(feature, enabled)] returns normally, leaves
    the module of the feature present exactly when [enabled] is true,
    keeps the context, records [enabled] in the configuration, and leaves
    the modules of the other features as they were. *)
Theorem setFeature_makes_presence_follow_the_flag :
  forall (p : Media.Platform) (feature : string) (enabled : bool)
         (v : VideoProcessor.t) (c : JS.value) (fs : list (string * JS.value)),
    VideoProcessor.known_feature feature = true ->
    Media.shaderCompiles p = true ->
    VideoProcessor.gl v = true ->
    VideoProcessor.config v = Some c ->
    JS.get c feature = Some (JS.VObj fs) ->
    let v' := snd (VideoProcessor.setFeature p feature enabled v) in
    fst (VideoProcessor.setFeature p feature enabled v) = Return tt /\
    VideoProcessor.has_module feature v' = enabled /\
    VideoProcessor.gl v' = true /\
    (exists c', VideoProcessor.config v' = Some c' /\
                JS.get_path c' [feature; "enabled"] = Some (JS.VBool enabled)) /\
    (forall other, other <> feature ->
                   VideoProcessor.has_module other v'
                   = VideoProcessor.has_module other v).
Proof.
  intros p feature enabled v c fs Hk Hs Hgl Hc Hg v'.
  destruct (setFeature_effect p feature enabled v c fs Hk Hs Hc Hg)
    as (Hr & Hp & Hcfg & Hcc & Hll & Hbb & Hkeep).
  split; [exact Hr|]. split; [exact Hp|]. split; [|split].
  - subst v'. now rewrite Hkeep.
  - eexists. split; [exact Hcfg|]. apply switched_flag.
  - intros other Hne. now apply (has_module_other feature).
Qed.

Lemma setFeature_makes_presence_follow_the_flag_witness :
  let p := Spec.full_platform in
  let v := snd (VideoProcessor.initialize p
                  (VideoProcessor.create
                     (JS.get (Config.mergeConfig Spec.all_enabled_override) "video"))) in
  VideoProcessor.gl v = true /\
  VideoProcessor.has_module "backgroundBlur" v = true /\
  VideoProcessor.has_module "backgroundBlur"
    (snd (VideoProcessor.setFeature p "backgroundBlur" false v)) = false.
Proof.
  intros p v.
  assert (Hgl : VideoProcessor.gl v = true) by (vm_compute; reflexivity).
  split; [exact Hgl|]. split; [vm_compute; reflexivity|].
  refine (proj1 (proj2
    (setFeature_makes_presence_follow_the_flag p "backgroundBlur" false v
       (default JS.VNull (VideoProcessor.config v))
       [("enabled", JS.VBool true); ("intensity", JS.VNum 15);
        ("model", JS.VStr "bodypix")] _ _ Hgl _ _))).
  - reflexivity.
  - reflexivity.
  - vm_compute. reflexivity.
  - vm_compute. reflexivity.
Defined.

(** ** Audio pipeline: chain and endpoints *)

Section AudioChain.
Import JS Media AudioProcessor.

Lemma member_of_value c k : c <> VNull -> member (Some c) k = Return (get c k).
Proof. intros H. destruct c; try reflexivity. contradiction. Qed.

Lemma make_node_result name a c :
  config a = Some c -> c <> VNull ->
  make_node name a
  = (Return (if truthy_opt (opt_member (get c name) "enabled")
             then Some {| feature := name; node_config := get c name;
                          node_initialized := true |}
             else None), a).
Proof.
  intros Hc Hn. unfold make_node. rewrite Hc, (member_of_value c name Hn).
  now destruct (truthy_opt _).
Qed.


End AudioChain.



Section AudioReconfiguration.
Import JS Media AudioProcessor Laws.

Lemma audio_state_ext (x y : AudioProcessor.t) :
  config x = config y -> audioContext x = audioContext y ->
  sourceNode x = sourceNode y -> destinationNode x = destinationNode y ->
  noiseSuppressor x = noiseSuppressor y -> agc x = agc y ->
  voiceFocus x = voiceFocus y -> isInitialized x = isInitialized y ->
  isProcessing x = isProcessing y -> processedFrames x = processedFrames y ->
  emitted x = emitted y -> x = y.
Proof. destruct x, y. cbn. intros. subst. reflexivity. Qed.

Lemma updateConfig_without_modules p a newConfig :
  webAudio p = true -> isInitialized a = true ->
  no_audio_module (merged_audio_config a newConfig) ->
  updateConfig p newConfig a
  = (Return tt,
     mk (Some (merged_audio_config a newConfig)) true (sourceNode a)
       (destinationNode a) None None None true false (processedFrames a)
       (emitted a ++ ["destroyed"; "initialized"; "config:updated"])).
Proof.
  intros Hw Hi Hnone.
  apply Forall_cons in Hnone as [Hn Hnone].
  apply Forall_cons in Hnone as [Hg Hnone].
  apply Forall_cons in Hnone as [Hf _].
  unfold updateConfig, mbind, prog_bind, modify, read.
  cbn [set_config isInitialized]. rewrite Hi.
  unfold initialize, try_catch, createProcessingNodes, mbind, prog_bind, modify.
  rewrite Hw.
  cbn [destroy set_audioContext config audioContext sourceNode destinationNode
       noiseSuppressor agc voiceFocus isInitialized isProcessing
       processedFrames emitted].
  fold (merged_audio_config a newConfig).
  rewrite (fun a' H => make_node_result "noiseSuppression" a'
                         (merged_audio_config a newConfig) H) by easy.
  rewrite Hn.
  cbn [set_modules config audioContext sourceNode destinationNode
       noiseSuppressor agc voiceFocus isInitialized isProcessing
       processedFrames emitted].
  rewrite (fun a' H => make_node_result "agc" a'
                         (merged_audio_config a newConfig) H) by easy.
  rewrite Hg.
  cbn [set_modules config audioContext sourceNode destinationNode
       noiseSuppressor agc voiceFocus isInitialized isProcessing
       processedFrames emitted].
  rewrite (fun a' H => make_node_result "voiceFocus" a'
                         (merged_audio_config a newConfig) H) by easy.
  rewrite Hf. cbn [connectNodes app]. f_equal.
  apply audio_state_ext;
    cbn [emit set_isInitialized set_modules set_audioContext destroy set_config
         config audioContext sourceNode destinationNode noiseSuppressor agc
         voiceFocus isInitialized isProcessing processedFrames emitted];
    try reflexivity.
  rewrite <- !app_assoc. reflexivity.
Qed.

End AudioReconfiguration.

(** X29. The audio pipeline never clears its source and destination nodes.
    After [updateConfig] has re-initialised a pipeline with a configuration
    that enables no module, the pipeline is initialised and its chain is
    empty, yet the nodes of the former chain are still its endpoints. *)
Theorem audio_reconfiguration_keeps_stale_endpoints :
  forall (p : Media.Platform) (a : AudioProcessor.t) (newConfig : option JS.value)
         (source destination : string),
    Media.webAudio p = true ->
    AudioProcessor.isInitialized a = true ->
    AudioProcessor.sourceNode a = Some source ->
    AudioProcessor.destinationNode a = Some destination ->
    Laws.no_audio_module (Laws.merged_audio_config a newConfig) ->
    let a' := snd (AudioProcessor.updateConfig p newConfig a) in
    fst (AudioProcessor.updateConfig p newConfig a) = Return tt /\
    AudioProcessor.isInitialized a' = true /\
    AudioProcessor.chain a' = [] /\
    AudioProcessor.sourceNode a' = Some source /\
    AudioProcessor.destinationNode a' = Some destination.
Proof.
  intros p a newConfig source destination Hw Hi Hs Hd Hnone.
  rewrite (updateConfig_without_modules p a newConfig Hw Hi Hnone).
  cbn [fst snd]. rewrite Hs, Hd.
  repeat split.
Qed.

Lemma audio_reconfiguration_keeps_stale_endpoints_witness :
  let on := JS.VObj [("noiseSuppression", JS.VObj [("enabled", JS.VBool true)]);
                     ("agc", JS.VObj [("enabled", JS.VBool true)]);
                     ("voiceFocus", JS.VObj [("enabled", JS.VBool false)])] in
  let off := JS.VObj [("noiseSuppression", JS.VObj [("enabled", JS.VBool false)]);
                      ("agc", JS.VObj [("enabled", JS.VBool false)])] in
  let a := snd (AudioProcessor.initialize Spec.full_platform
                  (AudioProcessor.create (Some on))) in
  let a' := snd (AudioProcessor.updateConfig Spec.full_platform (Some off) a) in
  AudioProcessor.chain a' = [] /\
  AudioProcessor.sourceNode a' = Some "noiseSuppression".
Proof.
  intros on off a a'.
  assert (H := audio_reconfiguration_keeps_stale_endpoints Spec.full_platform a
                 (Some off) "noiseSuppression" "agc").
  destruct H as (_ & _ & Hchain & Hsrc & _).
  - reflexivity.
  - reflexivity.
  - reflexivity.
  - reflexivity.
  - vm_compute. repeat constructor.
  - split; [exact Hchain|exact Hsrc].
Defined.

Section FailedSwitch.
Import JS Media VideoProcessor.

Lemma setFeature_color_failure p v c :
  shaderCompiles p = false -> config v = Some c -> c <> VNull ->
  colorCorrection v = None ->
  exists e m,
    setFeature p "colorCorrection" true v
    = (Throw e, set_colorCorrection (Some m) v) /\
    ColorCorrection.isInitialized m = false.
Proof.
  intros Hs Hc Hn Hnone.
  unfold setFeature, mbind, prog_bind, read, has_module, createModule,
    install_colorCorrection, ColorCorrection.initialize.
  cbn [known_feature String.eqb Ascii.eqb Bool.eqb negb orb andb].
  rewrite Hnone, Hs.
  rewrite bool_decide_eq_false_2 by (intros [? ?]; discriminate).
  cbn [negb andb]. rewrite Hc, (member_of_value c _ Hn).
  eexists _, _. split; reflexivity.
Qed.

Lemma broken_color_module_fails_frames p v m frame :
  colorCorrection v = Some m -> ColorCorrection.isInitialized m = false ->
  snd (processVideoFrame p v frame) = Throw "ColorCorrection not initialized".
Proof.
  intros Hm Hi. unfold processVideoFrame, apply_module. rewrite Hm.
  unfold ColorCorrection.process, LowLightCompensation.process. rewrite Hi.
  destruct (lowLightCompensation v); destruct (backgroundBlur v); reflexivity.
Qed.

End FailedSwitch.

(** X30. When the shader program cannot be built, enabling colour
    correction on a pipeline without a colour module throws, leaves the
    configuration as it was, and leaves an uninitialised colour module
    installed: from then on every frame fails with
    [ColorCorrection not initialized] and the frame loop writes nothing. *)
Theorem failed_color_switch_breaks_the_pipeline :
  forall (p : Media.Platform) (v : VideoProcessor.t) (c : JS.value)
         (frame : Media.VideoFrame) (frames : list Media.VideoFrame),
    Media.shaderCompiles p = false ->
    VideoProcessor.config v = Some c ->
    c <> JS.VNull ->
    VideoProcessor.colorCorrection v = None ->
    let v' := snd (VideoProcessor.setFeature p "colorCorrection" true v) in
    (exists e, fst (VideoProcessor.setFeature p "colorCorrection" true v) = Throw e) /\
    VideoProcessor.config v' = VideoProcessor.config v /\
    VideoProcessor.has_module "colorCorrection" v' = true /\
    snd (VideoProcessor.processVideoFrame p v' frame)
    = Throw "ColorCorrection not initialized" /\
    fst (VideoProcessor.processFrames p (frame :: frames) v') = [].
Proof.
  intros p v c frame frames Hs Hc Hn Hnone v'.
  destruct (setFeature_color_failure p v c Hs Hc Hn Hnone) as (e & m & E & Hi).
  subst v'. rewrite E. cbn [fst snd].
  assert (Hframe : snd (VideoProcessor.processVideoFrame p
                          (VideoProcessor.set_colorCorrection (Some m) v) frame)
                   = Throw "ColorCorrection not initialized").
  { now apply (broken_color_module_fails_frames p _ m). }
  split; [eauto|]. split; [reflexivity|].
  split; [apply bool_decide_eq_true; cbn; eauto|].
  split; [exact Hframe|].
  rewrite processFrames_cons, Hframe. reflexivity.
Qed.

Lemma failed_color_switch_breaks_the_pipeline_witness :
  let p := {| Media.webAudio := true; Media.webgl := true; Media.canvas2d := true;
              Media.shaderCompiles := false; Media.trackProcessor := true;
              Media.shade := fun _ i => i; Media.blur := fun _ i => i |} in
  let c := JS.VObj [("colorCorrection", JS.VObj [("enabled", JS.VBool false)]);
                    ("lowLightCompensation", JS.VObj [("enabled", JS.VBool true)])] in
  let v := snd (VideoProcessor.initialize p (VideoProcessor.create (Some c))) in
  let frame := {| Media.image := {| Media.width := 1; Media.height := 1;
                                    Media.data := [1; 2; 3; 255]%Z |};
                  Media.timestamp := 0; Media.duration := 33 |} in
  VideoProcessor.isInitialized v = true /\
  fst (VideoProcessor.processFrames p [frame] v) <> [] /\
  fst (VideoProcessor.processFrames p [frame]
         (snd (VideoProcessor.setFeature p "colorCorrection" true v))) = [].
Proof.
  intros p c v frame.
  split; [vm_compute; reflexivity|]. split; [vm_compute; discriminate|].
  refine (proj2 (proj2 (proj2 (proj2
    (failed_color_switch_breaks_the_pipeline p v c frame [] _ _ _ _))))).
  - reflexivity.
  - vm_compute. reflexivity.
  - discriminate.
  - vm_compute. reflexivity.
Defined.
